(** * winget-mirror: package state and synchronisation engine

    A shallow embedding of [src/winget_mirror_core.py] and of the selection
    made by the [cleanup] task of [src/tasks.py], with the properties of the
    specification stated and settled against it.

    Conventions of the embedding.
    - A Python [str] is a [string]; its characters are the code points below
      256.  Within that range the whitespace characters of [str.strip],
      [int] and the [\s] class are 9-13, 28-32, 133 and 160, the only decimal
      digits are [0-9], and the only letters matching [[a-z]] under
      [re.IGNORECASE] are the ASCII ones.
    - Python integers are unbounded ([Z], [N]); the interpreter's limit on
      the length of a decimal literal (4300 digits) is not modelled.
    - A raised exception is a value [Raise e] of type [result]; a call that
      raises leaves the world as it was when it raised.
    - An insertion-ordered [dict] with string keys is an association list
      ([dict V]).
    - Paths are POSIX paths.  The file system is a finite map from resolved
      paths to nodes; a directory is listed in the order of the map.
    - [requests], [hashlib], [yaml] and the clock are collaborators, given
      by the functions of an environment [Env].  A response whose body breaks
      off or whose [content-length] is no number is not modelled.
    - A timestamp is kept as the [datetime] it was taken from, not as its
      ISO text. *)

From Stdlib Require Import Ascii String DecimalString DecimalN ZArith.
From stdpp Require Import gmap strings list.

Local Open Scope string_scope.
Local Open Scope list_scope.

(** ** Exceptions and results *)

Inductive exn : Set :=
| InvalidVersion
| ValueError
| TypeError
| AttributeError
| IndexError
| OSError
| YAMLError.

Inductive result (A : Type) : Type :=
| Ok (a : A)
| Raise (e : exn).
Arguments Ok {A} a.
Arguments Raise {A} e.

Definition rbind {A B} (r : result A) (f : A → result B) : result B :=
  match r with
  | Ok a => f a
  | Raise e => Raise e
  end.

Definition is_ok {A} (r : result A) : bool :=
  match r with Ok _ => true | Raise _ => false end.

Fixpoint rmapM {A B} (f : A → result B) (l : list A) : result (list B) :=
  match l with
  | [] => Ok []
  | a :: l' => rbind (f a) (λ b, rbind (rmapM f l') (λ bs, Ok (b :: bs)))
  end.

(** ** Python strings *)

Module Py.

Definition code (c : ascii) : N := N_of_ascii c.

Definition is_digit (c : ascii) : bool := (48 <=? code c)%N && (code c <=? 57)%N.

Definition is_space (c : ascii) : bool :=
  let n := code c in
  ((9 <=? n) && (n <=? 13) || (28 <=? n) && (n <=? 32) || (n =? 133) || (n =? 160))%N.

Definition is_upper (c : ascii) : bool := (65 <=? code c)%N && (code c <=? 90)%N.
Definition is_lower (c : ascii) : bool := (97 <=? code c)%N && (code c <=? 122)%N.

(** [c.lower()] on one character (ASCII letters are the only cased
    characters below 256 whose lower case we ever compare with). *)
Definition lower_char (c : ascii) : ascii :=
  if is_upper c then ascii_of_N (code c + 32) else c.

Fixpoint lower (s : string) : string :=
  match s with
  | "" => ""
  | String c s' => String (lower_char c) (lower s')
  end.

Definition char_eqb (a b : ascii) : bool := Ascii.eqb a b.

(** [s.split(sep)] for a one-character separator: never empty, [''.split('.')]
    is [['']]. *)
Fixpoint split (sep : ascii) (s : string) : list string :=
  match s with
  | "" => [""]
  | String c s' =>
      if char_eqb c sep then "" :: split sep s'
      else match split sep s' with
           | [] => [String c ""]
           | w :: ws => String c w :: ws
           end
  end.

(** [s.split(sep, 1)]: [None] when [sep] does not occur (one part only). *)
Fixpoint split_once (sep : ascii) (s : string) : option (string * string) :=
  match s with
  | "" => None
  | String c s' =>
      if char_eqb c sep then Some ("", s')
      else match split_once sep s' with
           | Some (a, b) => Some (String c a, b)
           | None => None
           end
  end.

(** [sep.join(l)] *)
Fixpoint join (sep : string) (l : list string) : string :=
  match l with
  | [] => ""
  | [w] => w
  | w :: ws => w +:+ sep +:+ join sep ws
  end.

Fixpoint lstrip (p : ascii → bool) (s : string) : string :=
  match s with
  | "" => ""
  | String c s' => if p c then lstrip p s' else s
  end.

Fixpoint rstrip (p : ascii → bool) (s : string) : string :=
  match s with
  | "" => ""
  | String c s' =>
      match rstrip p s' with
      | "" => if p c then "" else String c ""
      | r => String c r
      end
  end.

Definition strip (s : string) : string := rstrip is_space (lstrip is_space s).

(** [bool(s)] *)
Definition truthy (s : string) : bool :=
  match s with "" => false | _ => true end.

(** Underscores of an integer literal: single, between digits. *)
Fixpoint drop_underscores (after_digit : bool) (s : string) : option string :=
  match s with
  | "" => if after_digit then Some "" else None
  | String c s' =>
      if is_digit c then
        match drop_underscores true s' with
        | Some r => Some (String c r)
        | None => None
        end
      else if char_eqb c "_" && after_digit then drop_underscores false s'
      else None
  end.

Definition nat_literal (s : string) : option N :=
  match drop_underscores false s with
  | Some ds =>
      match NilZero.uint_of_string ds with
      | Some u => Some (N.of_uint u)
      | None => None
      end
  | None => None
  end.

(** [int(s)] for a [str] argument, base 10; [None] stands for [ValueError]. *)
Definition int (s : string) : option Z :=
  match strip s with
  | String "-" body =>
      match nat_literal body with Some n => Some (- Z.of_N n)%Z | None => None end
  | String "+" body =>
      match nat_literal body with Some n => Some (Z.of_N n) | None => None end
  | body =>
      match nat_literal body with Some n => Some (Z.of_N n) | None => None end
  end.

Definition str_N (n : N) : string := NilZero.string_of_uint (N.to_uint n).

(** [str(z)] for an integer *)
Definition str (z : Z) : string :=
  match z with
  | Zneg p => String "-" (str_N (Npos p))
  | _ => str_N (Z.to_N z)
  end.

(** [s.isdigit()] below code point 256 also holds for the superscript
    digits 178, 179 and 185, on which [int] then fails; they cannot occur in
    a local version label, whose characters are ASCII. *)
Fixpoint all_chars (p : ascii → bool) (s : string) : bool :=
  match s with
  | "" => true
  | String c s' => p c && all_chars p s'
  end.

Definition isdigit (s : string) : bool := truthy s && all_chars is_digit s.

(** Comparison of two [str]: lexicographic by code point. *)
Fixpoint str_compare (a b : string) : comparison :=
  match a, b with
  | "", "" => Eq
  | "", _ => Lt
  | _, "" => Gt
  | String x a', String y b' =>
      match N.compare (code x) (code y) with
      | Eq => str_compare a' b'
      | o => o
      end
  end.

End Py.

(** ** A backtracking matcher for the regular expressions of [packaging]

    [re] explores alternatives depth first: a greedy quantifier first tries
    one more iteration, and the first complete match wins.  The matcher is
    written in continuation-passing style, the continuation standing for
    "the rest of the pattern"; a capture group records the text its body
    consumed on the path that finally succeeds. *)

Module Re.

Inductive group : Set :=
| g_epoch | g_release | g_pre_l | g_pre_n | g_post_n1 | g_post_l | g_post_n2
| g_dev_l | g_dev_n | g_local.

Definition group_eqb (a b : group) : bool :=
  match a, b with
  | g_epoch, g_epoch | g_release, g_release | g_pre_l, g_pre_l
  | g_pre_n, g_pre_n | g_post_n1, g_post_n1 | g_post_l, g_post_l
  | g_post_n2, g_post_n2 | g_dev_l, g_dev_l | g_dev_n, g_dev_n
  | g_local, g_local => true
  | _, _ => false
  end.

(** [match.group(g)]: [None] when the group did not take part in the match *)
Definition captures : Type := group → option string.

Definition no_captures : captures := λ _, None.

Definition set_group (g : group) (v : string) (c : captures) : captures :=
  λ g', if group_eqb g g' then Some v else c g'.

Inductive regex : Type :=
| Eps
| Cls (p : ascii → bool)
| Cat (r1 r2 : regex)
| Alt (r1 r2 : regex)
| Opt (r : regex)
| Star (r : regex)
| Grp (g : group) (r : regex).

Definition Plus (r : regex) : regex := Cat r (Star r).

Definition cont : Type := string → captures → option captures.

(** The text between the position [s] and the later position [s'] *)
Definition consumed (s s' : string) : string :=
  String.substring 0 (String.length s - String.length s') s.

Fixpoint star_loop (m : string → captures → cont → option captures)
    (fuel : nat) (s : string) (c : captures) (k : cont) : option captures :=
  match fuel with
  | O => k s c
  | S fuel' =>
      match m s c (λ s' c',
                if (String.length s' <? String.length s)%nat
                then star_loop m fuel' s' c' k else None) with
      | Some r => Some r
      | None => k s c
      end
  end.

Fixpoint rmatch (r : regex) : string → captures → cont → option captures :=
  match r with
  | Eps => λ s c k, k s c
  | Cls p => λ s c k,
      match s with
      | String a s' => if p a then k s' c else None
      | "" => None
      end
  | Cat r1 r2 => λ s c k, rmatch r1 s c (λ s' c', rmatch r2 s' c' k)
  | Alt r1 r2 => λ s c k,
      match rmatch r1 s c k with
      | Some x => Some x
      | None => rmatch r2 s c k
      end
  | Opt r1 => λ s c k,
      match rmatch r1 s c k with
      | Some x => Some x
      | None => k s c
      end
  | Star r1 => λ s c k, star_loop (rmatch r1) (String.length s) s c k
  | Grp g r1 => λ s c k,
      rmatch r1 s c (λ s' c', k s' (set_group g (consumed s s') c'))
  end.

Definition at_end : cont :=
  λ s c, match s with "" => Some c | _ => None end.

(** [re.compile("^" + r + "$").search(s)] *)
Definition search (r : regex) (s : string) : option captures :=
  rmatch r s no_captures at_end.

(** A literal, compared without regard to (ASCII) case *)
Definition chr_i (a : ascii) : regex :=
  Cls (λ c, Py.char_eqb (Py.lower_char c) a).

Fixpoint lit_i (w : string) : regex :=
  match w with
  | "" => Eps
  | String a "" => chr_i a
  | String a w' => Cat (chr_i a) (lit_i w')
  end.

Fixpoint alts (l : list regex) : regex :=
  match l with
  | [] => Cls (λ _, false)
  | [r] => r
  | r :: l' => Alt r (alts l')
  end.

Fixpoint seq (l : list regex) : regex :=
  match l with
  | [] => Eps
  | [r] => r
  | r :: l' => Cat r (seq l')
  end.

End Re.

(** ** [packaging.version] (the releases 22 to 25, whose pattern has no
    possessive quantifiers) *)

Module Packaging.
Import Re.

Definition is_sep (c : ascii) : bool :=
  Py.char_eqb c "-" || Py.char_eqb c "_" || Py.char_eqb c ".".

Definition is_alnum (c : ascii) : bool :=
  Py.is_digit c || Py.is_lower (Py.lower_char c).

Definition digits : regex := Plus (Cls Py.is_digit).
Definition sep_opt : regex := Opt (Cls is_sep).

(** [VERSION_PATTERN], group by group *)
Definition epoch_re : regex :=
  Opt (Cat (Grp g_epoch digits) (Cls (Py.char_eqb "!"))).

Definition release_re : regex :=
  Grp g_release (Cat digits (Star (Cat (Cls (Py.char_eqb ".")) digits))).

Definition pre_re : regex :=
  Opt (seq [sep_opt;
            Grp g_pre_l (alts (map lit_i
              ["alpha"; "a"; "beta"; "b"; "preview"; "pre"; "c"; "rc"]));
            sep_opt;
            Opt (Grp g_pre_n digits)]).

Definition post_re : regex :=
  Opt (Alt (Cat (Cls (Py.char_eqb "-")) (Grp g_post_n1 digits))
           (seq [sep_opt;
                 Grp g_post_l (alts (map lit_i ["post"; "rev"; "r"]));
                 sep_opt;
                 Opt (Grp g_post_n2 digits)])).

Definition dev_re : regex :=
  Opt (seq [sep_opt; Grp g_dev_l (lit_i "dev"); sep_opt;
            Opt (Grp g_dev_n digits)]).

Definition local_re : regex :=
  Opt (Cat (Cls (Py.char_eqb "+"))
           (Grp g_local (Cat (Plus (Cls is_alnum))
                             (Star (Cat (Cls is_sep) (Plus (Cls is_alnum))))))).

Definition VERSION_PATTERN : regex :=
  seq [Opt (chr_i "v"); epoch_re; release_re; pre_re; post_re; dev_re; local_re].

(** [Version._regex]: the pattern between [^\s*] and [\s*$] *)
Definition _regex : regex :=
  seq [Star (Cls Py.is_space); VERSION_PATTERN; Star (Cls Py.is_space)].

(** The parts of a version: [Version._version] *)
Record Version : Type := mkVersion {
  epoch : N;
  release : list N;
  pre : option (string * N);
  post : option (string * N);
  dev : option (string * N);
  local : option (list (N + string))
}.

(** [int(s)] on a group that the pattern guarantees to be decimal digits *)
Definition int_digits (s : string) : N :=
  match Py.nat_literal s with Some n => n | None => 0%N end.

Definition _parse_letter_version (letter number : option string)
  : option (string * N) :=
  match letter with
  | Some l =>
      let n := match number with Some d => int_digits d | None => 0%N end in
      let l := Py.lower l in
      let l :=
        if String.eqb l "alpha" then "a"
        else if String.eqb l "beta" then "b"
        else if String.eqb l "c" || String.eqb l "pre" || String.eqb l "preview"
             then "rc"
        else if String.eqb l "rev" || String.eqb l "r" then "post"
        else l in
      Some (l, n)
  | None =>
      match number with
      | Some d => Some ("post", int_digits d)
      | None => None
      end
  end.

(** [re.split("[\._-]", s)] *)
Fixpoint split_seps (s : string) : list string :=
  match s with
  | "" => [""]
  | String c s' =>
      if is_sep c then "" :: split_seps s'
      else match split_seps s' with
           | [] => [String c ""]
           | w :: ws => String c w :: ws
           end
  end.

Definition _parse_local_version (l : option string) : option (list (N + string)) :=
  match l with
  | Some s =>
      Some (map (λ part, if Py.isdigit part then inl (int_digits part)
                         else inr (Py.lower part))
                (split_seps s))
  | None => None
  end.

(** [Version(s)]; [None] stands for [InvalidVersion] *)
Definition parse (s : string) : option Version :=
  match search _regex s with
  | None => None
  | Some m =>
      Some {|
        epoch := match m g_epoch with Some e => int_digits e | None => 0%N end;
        release := match m g_release with
                   | Some r => map int_digits (Py.split "." r)
                   | None => []
                   end;
        pre := _parse_letter_version (m g_pre_l) (m g_pre_n);
        post := _parse_letter_version (m g_post_l)
                  (match m g_post_n1 with Some n => Some n | None => m g_post_n2 end);
        dev := _parse_letter_version (m g_dev_l) (m g_dev_n);
        local := _parse_local_version (m g_local)
      |}
  end.

(** *** The comparison key, [_cmpkey] *)

Inductive bounded (A : Type) : Type :=
| NegativeInfinity
| Finite (a : A)
| Infinity.
Arguments NegativeInfinity {A}.
Arguments Finite {A} a.
Arguments Infinity {A}.

Record CmpKey : Type := mkKey {
  k_epoch : N;
  k_release : list N;
  k_pre : bounded (string * N);
  k_post : bounded (string * N);
  k_dev : bounded (string * N);
  k_local : bounded (list (bounded N * string))
}.

(** [reversed(dropwhile(lambda x: x == 0, reversed(release)))] *)
Fixpoint strip_trailing_zeros (l : list N) : list N :=
  match l with
  | [] => []
  | x :: l' =>
      match strip_trailing_zeros l' with
      | [] => if (x =? 0)%N then [] else [x]
      | r => x :: r
      end
  end.

Definition _cmpkey (v : Version) : CmpKey :=
  {| k_epoch := epoch v;
     k_release := strip_trailing_zeros (release v);
     k_pre := match pre v, post v, dev v with
              | None, None, Some _ => NegativeInfinity
              | None, _, _ => Infinity
              | Some p, _, _ => Finite p
              end;
     k_post := match post v with None => NegativeInfinity | Some p => Finite p end;
     k_dev := match dev v with None => Infinity | Some d => Finite d end;
     k_local := match local v with
                | None => NegativeInfinity
                | Some l =>
                    Finite (map (λ i, match i with
                                      | inl n => (Finite n, "")
                                      | inr s => (NegativeInfinity, s)
                                      end) l)
                end |}.

(** Python's comparison of tuples is lexicographic; of two tuples one of
    which is a prefix of the other, the shorter is the smaller. *)
Definition lex (a b : comparison) : comparison :=
  match a with Eq => b | _ => a end.

Fixpoint list_compare {A} (cmp : A → A → comparison) (a b : list A) : comparison :=
  match a, b with
  | [], [] => Eq
  | [], _ => Lt
  | _, [] => Gt
  | x :: a', y :: b' => lex (cmp x y) (list_compare cmp a' b')
  end.

Definition bounded_compare {A} (cmp : A → A → comparison) (a b : bounded A)
  : comparison :=
  match a, b with
  | NegativeInfinity, NegativeInfinity => Eq
  | NegativeInfinity, _ => Lt
  | _, NegativeInfinity => Gt
  | Infinity, Infinity => Eq
  | Infinity, _ => Gt
  | _, Infinity => Lt
  | Finite x, Finite y => cmp x y
  end.

Definition letter_compare (a b : string * N) : comparison :=
  lex (Py.str_compare a.1 b.1) (N.compare a.2 b.2).

Definition segment_compare (a b : bounded N * string) : comparison :=
  lex (bounded_compare N.compare a.1 b.1) (Py.str_compare a.2 b.2).

Definition key_compare (a b : CmpKey) : comparison :=
  lex (N.compare (k_epoch a) (k_epoch b))
 (lex (list_compare N.compare (k_release a) (k_release b))
 (lex (bounded_compare letter_compare (k_pre a) (k_pre b))
 (lex (bounded_compare letter_compare (k_post a) (k_post b))
 (lex (bounded_compare letter_compare (k_dev a) (k_dev b))
      (bounded_compare (list_compare segment_compare) (k_local a) (k_local b)))))).

(** [a > b] and [a < b] on [Version] objects compare their keys. *)
Definition gt (a b : Version) : bool :=
  match key_compare (_cmpkey a) (_cmpkey b) with Gt => true | _ => false end.

Definition lt (a b : Version) : bool :=
  match key_compare (_cmpkey a) (_cmpkey b) with Lt => true | _ => false end.

End Packaging.

(** ** [parse_version_safe] (winget_mirror_core.py, lines 20-36) *)

(** The loop that collects the leading integer parts and stops at the first
    part on which [int] raises [ValueError] *)
Fixpoint leading_ints (parts : list string) : list Z :=
  match parts with
  | [] => []
  | part :: rest =>
      match Py.int part with
      | Some z => z :: leading_ints rest
      | None => []
      end
  end.

(** [while len(parts) < 3: parts.append(0)] *)
Definition pad3 (parts : list Z) : list Z :=
  parts ++ replicate (3 - length parts) 0%Z.

Definition fallback_str (v : string) : string :=
  Py.join "." (map Py.str (pad3 (leading_ints (Py.split "." v)))).

Definition parse_version_safe (v : string) : result Packaging.Version :=
  match Packaging.parse v with
  | Some ver => Ok ver
  | None =>
      match Packaging.parse (fallback_str v) with
      | Some ver => Ok ver
      | None => Raise InvalidVersion
      end
  end.

(** The filter of [process_package] (lines 91-97) and of
    [get_latest_version] (lines 429-435): a label is kept when
    [parse_version_safe] returns, dropped when it raises. *)
Definition valid_versions (versions : list string) : list string :=
  filter (λ v, is_ok (parse_version_safe v) = true) versions.

(** [max(l, key=parse_version_safe)]: the first item whose key no later
    item exceeds; [ValueError] on an empty list. *)
Fixpoint max_from (best : string) (kbest : Packaging.Version) (l : list string)
  : result string :=
  match l with
  | [] => Ok best
  | v :: l' =>
      rbind (parse_version_safe v) (λ kv,
        if Packaging.gt kv kbest then max_from v kv l'
        else max_from best kbest l')
  end.

Definition max_by_version (l : list string) : result string :=
  match l with
  | [] => Raise ValueError
  | v :: l' => rbind (parse_version_safe v) (λ kv, max_from v kv l')
  end.

(** [l.sort(key=...)]: the sort is stable and compares keys with [<]. *)
Fixpoint insert_by {A} (ltb : A → A → bool) (x : A) (l : list A) : list A :=
  match l with
  | [] => [x]
  | y :: l' => if ltb y x then y :: insert_by ltb x l' else x :: y :: l'
  end.

Fixpoint sort_by {A} (ltb : A → A → bool) (l : list A) : list A :=
  match l with
  | [] => []
  | x :: l' => insert_by ltb x (sort_by ltb l')
  end.

(** ** Dictionaries in insertion order *)

Module Dict.

Definition dict (V : Type) : Type := list (string * V).

Fixpoint get {V} (d : dict V) (k : string) : option V :=
  match d with
  | [] => None
  | (k', v) :: d' => if String.eqb k k' then Some v else get d' k
  end.

(** [d[k] = v]: in place when the key is there, appended otherwise *)
Fixpoint set {V} (k : string) (v : V) (d : dict V) : dict V :=
  match d with
  | [] => [(k, v)]
  | (k', v') :: d' =>
      if String.eqb k k' then (k, v) :: d' else (k', v') :: set k v d'
  end.

Fixpoint alter {V} (f : V → V) (k : string) (d : dict V) : dict V :=
  match d with
  | [] => []
  | (k', v') :: d' =>
      if String.eqb k k' then (k', f v') :: d' else (k', v') :: alter f k d'
  end.

Definition keys {V} (d : dict V) : list string := map fst d.

Definition mem {V} (k : string) (d : dict V) : bool :=
  match get d k with Some _ => true | None => false end.

Definition is_empty {V} (d : dict V) : bool :=
  match d with [] => true | _ => false end.

End Dict.
Export Dict(dict).

(** ** Paths and the file system *)

Module Fs.

(** A path is the list of its components below the root; relative paths
    are taken as resolved against the working directory. *)
Definition path : Type := list string.

(** [p / s]: [s] is split at its slashes, and an absolute [s] replaces [p]. *)
Definition join (p : path) (s : string) : path :=
  match s with
  | String "/" _ => Py.split "/" s
  | _ => p ++ Py.split "/" s
  end.

Definition proper (c : string) : bool :=
  negb (String.eqb c "") && negb (String.eqb c ".").

(** [PurePath(s).name]: the last component that is neither empty nor [.] *)
Definition name (s : string) : string :=
  List.last (filter (λ c, proper c = true) (Py.split "/" s)) "".

(** How the system resolves a path: empty and [.] components vanish, [..]
    steps back (symbolic links are not modelled). *)
Fixpoint norm_acc (acc : list string) (p : path) : list string :=
  match p with
  | [] => rev acc
  | c :: p' =>
      if negb (proper c) then norm_acc acc p'
      else if String.eqb c ".." then norm_acc (tail acc) p'
      else norm_acc (c :: acc) p'
  end.

Definition norm (p : path) : list string := norm_acc [] p.

Inductive node : Type :=
| File (data : string)
| Dir.

Definition fsys : Type := gmap (list string) node.

Definition lookup_norm (fs : gmap (list string) node) (k : list string)
  : option node :=
  match k with
  | [] => Some Dir
  | _ => fs !! k
  end.

Definition stat (fs : gmap (list string) node) (p : path) : option node :=
  lookup_norm fs (norm p).

Definition exists_ (fs : gmap (list string) node) (p : path) : bool :=
  match stat fs p with Some _ => true | None => false end.

Definition is_dir (fs : gmap (list string) node) (p : path) : bool :=
  match stat fs p with Some Dir => true | _ => false end.

(** The entries directly below the directory [d] (a normalised path) *)
Definition child_of (d : list string) (kn : list string * node)
  : option (string * node) :=
  match List.last (map Some kn.1) None with
  | Some c => if decide (kn.1 = d ++ [c]) then Some (c, kn.2) else None
  | None => None
  end.

(** [p.iterdir()], as the list of names with their nodes; the order is the
    one of the map, as arbitrary as the system's. *)
Definition iterdir (fs : gmap (list string) node) (p : path)
  : result (list (string * node)) :=
  match stat fs p with
  | Some Dir => Ok (omap (child_of (norm p)) (map_to_list fs))
  | _ => Raise OSError
  end.

(** [open(p).read()] *)
Definition read (fs : gmap (list string) node) (p : path) : result string :=
  match stat fs p with
  | Some (File data) => Ok data
  | _ => Raise OSError
  end.

(** [open(p, 'w')] followed by the writes and the close *)
Definition write (fs : gmap (list string) node) (p : path) (data : string)
  : result (gmap (list string) node) :=
  match norm p with
  | [] => Raise OSError
  | k =>
      match fs !! k, lookup_norm fs (removelast k) with
      | Some Dir, _ => Raise OSError
      | _, Some Dir => Ok (<[k := File data]> fs)
      | _, _ => Raise OSError
      end
  end.

(** [p.mkdir(parents=True, exist_ok=True)] *)
Fixpoint mkdir_from (pre rest : list string) (fs : gmap (list string) node)
  : result (gmap (list string) node) :=
  match rest with
  | [] => Ok fs
  | c :: rest' =>
      let q := pre ++ [c] in
      match fs !! q with
      | Some (File _) => Raise OSError
      | Some Dir => mkdir_from q rest' fs
      | None => mkdir_from q rest' (<[q := Dir]> fs)
      end
  end.

Definition mkdir_p (fs : gmap (list string) node) (p : path)
  : result (gmap (list string) node) :=
  mkdir_from [] (norm p) fs.

End Fs.

Notation "p // s" := (Fs.join p s) (at level 40, left associativity).

(** ** Manifests as parsed by [yaml.safe_load] *)

#[warnings="-register-all"]
Inductive yaml : Type :=
| YNull
| YBool (b : bool)
| YNum (z : Z)
| YStr (s : string)
| YList (l : list yaml)
| YMap (m : list (string * yaml)).

Module Yaml.

(** [bool(v)] *)
Definition truthy (v : option yaml) : bool :=
  match v with
  | None | Some YNull => false
  | Some (YBool b) => b
  | Some (YNum z) => negb (z =? 0)%Z
  | Some (YStr s) => Py.truthy s
  | Some (YList l) => match l with [] => false | _ => true end
  | Some (YMap m) => match m with [] => false | _ => true end
  end.

(** [v == s] for a string [s] *)
Definition eq_str (v : option yaml) (s : string) : bool :=
  match v with
  | Some (YStr s') => String.eqb s' s
  | _ => false
  end.

(** [a == b] *)
Fixpoint eqb (a b : yaml) : bool :=
  match a, b with
  | YNull, YNull => true
  | YBool x, YBool y => Bool.eqb x y
  | YNum x, YNum y => (x =? y)%Z
  | YStr x, YStr y => String.eqb x y
  | YList x, YList y =>
      (fix eqb_list (x y : list yaml) : bool :=
         match x, y with
         | [], [] => true
         | a :: x', b :: y' => eqb a b && eqb_list x' y'
         | _, _ => false
         end) x y
  | YMap x, YMap y =>
      (fix eqb_map (x y : list (string * yaml)) : bool :=
         match x, y with
         | [], [] => true
         | (k, a) :: x', (k', b) :: y' =>
             String.eqb k k' && eqb a b && eqb_map x' y'
         | _, _ => false
         end) x y
  | _, _ => false
  end.

(** [m.get(k)]: [AttributeError] unless [m] is a mapping *)
Definition get (m : yaml) (k : string) : result (option yaml) :=
  match m with
  | YMap d => Ok (Dict.get d k)
  | _ => Raise AttributeError
  end.

Fixpoint chars (s : string) : list yaml :=
  match s with
  | "" => []
  | String c s' => YStr (String c "") :: chars s'
  end.

(** The items a [for] loop over [v] visits: [TypeError] when [v] is not
    iterable. *)
Definition iter (v : yaml) : result (list yaml) :=
  match v with
  | YList l => Ok l
  | YMap d => Ok (map (λ kv, YStr kv.1) d)
  | YStr s => Ok (chars s)
  | _ => Raise TypeError
  end.

End Yaml.

(** ** The state store *)

(** A point in time; of a recorded timestamp the retention rule reads the
    year and the month, the rest is kept whole.  ([isoformat] and
    [fromisoformat] are inverse to each other and are not modelled.) *)
Record datetime : Type := mkDatetime {
  year : Z;
  month : Z;
  rest : N
}.

(** A Version Entry: [state['downloads'][package_id]['versions'][v]] *)
Record entry : Type := mkEntry {
  git_rev : string;
  files : dict string;
  timestamp : datetime;
  pinned : bool
}.

(** [state['downloads'][package_id]] *)
Record package_info : Type := mkInfo {
  versions : dict entry;
  pkg_timestamp : option datetime
}.

(** ** The world a call runs in *)

(** What [requests.get] followed by [raise_for_status] gives *)
Inductive response : Type :=
| Body (data : string)
| HTTPError
| RequestException.

(** The collaborators, which the calls only consult *)
Record Env : Type := mkEnv {
  http_get : string → response;
  sha256_hex : string → string;
  yaml_safe_load : string → result yaml;
  yaml_dump : yaml → string;
  clock : nat → datetime
}.

(** The lines printed *)
Inductive message : Type :=
| Warn_invalid_package_id (package_id : string)
| Warn_package_dir_not_found (package_id : string)
| Requested_version_not_found (version package_id : string)
| Skipping_no_installer (package_id : string)
| Downloading (url : string) (filepath : Fs.path)
| Skipping_http_error (package_id : string)
| Skipping_request_failed (package_id : string)
| Warn_hash_mismatch (filepath : Fs.path) (expected computed : string)
| Already_up_to_date (package_id : string)
| No_downloads_in_state
| Error_server_url_or_patch_dir_unset
| Warn_source_manifest_not_found (package_id version : string)
| Patched (package_id version original_url new_url : string)
| Patched_manifests (package_id version : string)
| Successfully_patched (count : nat).

(** What a call may change: the disk, the in-memory state document (the one
    dictionary every operation of a manager shares), the time that has
    passed, and the output. *)
Record World : Type := mkWorld {
  fs : gmap (list string) Fs.node;
  downloads : dict package_info;
  ticks : nat;
  out : list message
}.

Definition M (A : Type) : Type := World → result A * World.

#[global] Instance M_ret : MRet M := λ A a w, (Ok a, w).
#[global] Instance M_bind : MBind M := λ A B f m w,
  match m w with
  | (Ok a, w') => f a w'
  | (Raise e, w') => (Raise e, w')
  end.

Definition raise {A} (e : exn) : M A := λ w, (Raise e, w).

Definition skip : M unit := mret ().

Definition lift {A} (r : result A) : M A := λ w, (r, w).

Definition print (m : message) : M unit :=
  λ w, (Ok (), mkWorld (fs w) (downloads w) (ticks w) (out w ++ [m])).

(** [datetime.datetime.now()] *)
Definition now (env : Env) : M datetime :=
  λ w, (Ok (clock env (ticks w)),
        mkWorld (fs w) (downloads w) (S (ticks w)) (out w)).

Definition get_fs : M (gmap (list string) Fs.node) := λ w, (Ok (fs w), w).

Definition put_fs (f : gmap (list string) Fs.node) : M unit :=
  λ w, (Ok (), mkWorld f (downloads w) (ticks w) (out w)).

Definition get_downloads : M (dict package_info) := λ w, (Ok (downloads w), w).

Definition put_downloads (d : dict package_info) : M unit :=
  λ w, (Ok (), mkWorld (fs w) d (ticks w) (out w)).

Definition mkdir_p (p : Fs.path) : M unit :=
  f ← get_fs; f' ← lift (Fs.mkdir_p f p); put_fs f'.

Definition read_file (p : Fs.path) : M string :=
  f ← get_fs; lift (Fs.read f p).

Definition write_file (p : Fs.path) (data : string) : M unit :=
  f ← get_fs; f' ← lift (Fs.write f p data); put_fs f'.

(** ** [process_package] (winget_mirror_core.py, lines 73-214) *)

(** Lines 143-153: the first installer of the wanted architecture that has
    a URL *)
Fixpoint first_installer (arch : string) (installers : list yaml)
  : result (option yaml) :=
  match installers with
  | [] => Ok None
  | inst :: rest =>
      rbind (Yaml.get inst "Architecture") (λ a,
        if Yaml.eq_str a arch then
          rbind (Yaml.get inst "InstallerUrl") (λ u,
            if Yaml.truthy u then Ok (Some inst) else first_installer arch rest)
        else first_installer arch rest)
  end.

Definition choose_installer (installers : list yaml) : result (option yaml) :=
  rbind (first_installer "x64" installers) (λ chosen,
    match chosen with
    | Some inst => Ok (Some inst)
    | None => first_installer "x86" installers
    end).

(** [m.get('Installers', [])] *)
Definition installers_of (manifest : yaml) : result yaml :=
  rbind (Yaml.get manifest "Installers") (λ v,
    Ok (match v with Some i => i | None => YList [] end)).

(** [bool(version_filter)] *)
Definition explicit (version_filter : option string) : bool :=
  match version_filter with
  | Some v => Py.truthy v
  | None => false
  end.

Definition package_path (mirror_dir : Fs.path) (pub pkg : string) : Fs.path :=
  mirror_dir // "manifests"
             // Py.lower (String.substring 0 1 pub) // pub // pkg.

(** [downloaded[package_id]['versions'][version]['files'][filename] = h] *)
Definition record_file (package_id version filename h : string)
    (d : dict package_info) : dict package_info :=
  Dict.alter (λ info,
    mkInfo (Dict.alter (λ e,
              mkEntry (git_rev e) (Dict.set filename h (files e))
                      (timestamp e) (pinned e))
              version (versions info))
           (pkg_timestamp info)) package_id d.

(** [downloaded[package_id]['versions'][version]['files']] *)
Definition recorded_files (package_id version : string) (d : dict package_info)
  : dict string :=
  match Dict.get d package_id with
  | Some info =>
      match Dict.get (versions info) version with
      | Some e => files e
      | None => []
      end
  | None => []
  end.

(** [downloaded[package_id]['versions'][version] = e] *)
Definition record_entry (package_id version : string) (e : entry)
    (d : dict package_info) : dict package_info :=
  Dict.alter (λ info,
    mkInfo (Dict.set version e (versions info)) (pkg_timestamp info))
    package_id d.

(** Lines 75-124: from the package identity to the target version and the
    list of its installers.  [None] is the plain [return False]. *)
Definition locate_installers (env : Env) (package_id : string)
    (mirror_dir : Fs.path) (version_filter : option string)
  : M (option (string * string * string * yaml)) :=
  match Py.split_once "." package_id with
  | None => print (Warn_invalid_package_id package_id);; mret None
  | Some (pub, pkg) =>
      (if Py.truthy pub then skip else raise IndexError);;
      let package_path := package_path mirror_dir pub pkg in
      f ← get_fs;
      if negb (Fs.is_dir f package_path) then
        print (Warn_package_dir_not_found package_id);; mret None
      else
        entries ← lift (Fs.iterdir f package_path);
        let versions :=
          omap (λ e : string * Fs.node,
                  match e.2 with Fs.Dir => Some e.1 | _ => None end) entries in
        let valid_versions := valid_versions versions in
        match valid_versions with
        | [] => mret None
        | _ =>
            target ←
              (if explicit version_filter then
                 let wanted := default "" version_filter in
                 if bool_decide (wanted ∈ valid_versions) then mret (Some wanted)
                 else print (Requested_version_not_found wanted package_id);;
                      mret None
               else v ← lift (max_by_version valid_versions); mret (Some v));
            match target with
            | None => mret None
            | Some target_version =>
                let yaml_path :=
                  package_path // target_version
                               // (pub +:+ "." +:+ pkg +:+ ".yaml") in
                if negb (Fs.exists_ f yaml_path) then mret None
                else
                  text ← read_file yaml_path;
                  manifest ← lift (yaml_safe_load env text);
                  let installer_yaml_path :=
                    package_path // target_version
                                 // (pub +:+ "." +:+ pkg +:+ ".installer.yaml") in
                  installers ←
                    (if Fs.exists_ f installer_yaml_path then
                       text' ← read_file installer_yaml_path;
                       installer_manifest ← lift (yaml_safe_load env text');
                       lift (installers_of installer_manifest)
                     else lift (installers_of manifest));
                  mret (Some (pub, pkg, target_version, installers))
            end
        end
  end.

(** Lines 126-214: the entry is written, an installer chosen, its file
    taken from the disk or fetched, and its hash recorded. *)
Definition download_and_record (env : Env) (package_id : string)
    (downloads_dir : Fs.path) (repo : option string)
    (version_filter : option string)
    (pub pkg target_version : string) (installers : yaml) : M bool :=
  let download_dir := downloads_dir // pub // pkg // target_version in
  mkdir_p download_dir;;
  d ← get_downloads;
  (if Dict.mem package_id d then skip
   else put_downloads (Dict.set package_id (mkInfo [] None) d));;
  hexsha ← (match repo with Some h => mret h | None => raise AttributeError end);
  ts ← now env;
  d ← get_downloads;
  put_downloads
    (record_entry package_id target_version
       (mkEntry hexsha [] ts (explicit version_filter)) d);;
  items ← lift (Yaml.iter installers);
  chosen_installer ← lift (choose_installer items);
  match chosen_installer with
  | None => print (Skipping_no_installer package_id);; mret false
  | Some inst =>
      u ← lift (Yaml.get inst "InstallerUrl");
      sha256 ← lift (Yaml.get inst "InstallerSha256");
      match u with
      | Some (YStr url) =>
          let filename := Fs.name url in
          let filepath := download_dir // filename in
          f ← get_fs;
          downloaded_new ←
            ((if Fs.exists_ f filepath then
               d ← get_downloads;
               (if Dict.mem filename (recorded_files package_id target_version d)
                then skip
                else
                  data ← read_file filepath;
                  put_downloads
                    (record_file package_id target_version filename
                       (sha256_hex env data) d));;
               mret (Some false)
             else
               print (Downloading url filepath);;
               match http_get env url with
               | HTTPError =>
                   print (Skipping_http_error package_id);; mret None
               | RequestException =>
                   print (Skipping_request_failed package_id);; mret None
               | Body body =>
                   write_file filepath body;;
                   data ← read_file filepath;
                   let computed_hash := sha256_hex env data in
                   (if Yaml.truthy sha256 then
                      match sha256 with
                      | Some (YStr expected) =>
                          if negb (String.eqb computed_hash (Py.lower expected))
                          then print (Warn_hash_mismatch filepath expected
                                        computed_hash)
                          else skip
                      | _ => raise AttributeError
                      end
                    else skip);;
                   d ← get_downloads;
                   put_downloads
                     (record_file package_id target_version filename
                        computed_hash d);;
                   mret (Some true)
               end) : M (option bool));
          match downloaded_new : option bool with
          | None => mret false
          | Some downloaded_new =>
              d ← get_downloads;
              if negb (Dict.is_empty
                         (recorded_files package_id target_version d)) then
                t ← now env;
                put_downloads
                  (Dict.alter (λ info, mkInfo (versions info) (Some t))
                     package_id d);;
                (if downloaded_new then skip
                 else print (Already_up_to_date package_id));;
                mret true
              else mret false
          end
      | _ => raise TypeError
      end
  end.

Definition process_package (env : Env) (package_id : string)
    (mirror_dir downloads_dir : Fs.path) (repo : option string)
    (version_filter : option string) : M bool :=
  located ← locate_installers env package_id mirror_dir version_filter;
  match located with
  | None => mret false
  | Some (pub, pkg, target_version, installers) =>
      download_and_record env package_id downloads_dir repo version_filter
        pub pkg target_version installers
  end.

(** ** [WingetMirrorManager] and [WingetPackage] *)

(** The fields of a manager that the operations read: the paths of
    [__init__], the head revision of the repository when there is one, and
    the configuration. *)
Record Manager : Type := mkManager {
  cwd : Fs.path;
  mirror_dir : Fs.path;
  downloads_dir : Fs.path;
  repo : option string;
  cfg_server_url : option string;
  cfg_patch_dir : option string
}.

Record WingetPackage : Type := mkPackage {
  manager : Manager;
  package_id : string;
  pub : string;
  pkg : string
}.

(** [manager.get_package(package_id)]: the constructor unpacks
    [package_id.split('.', 1)] and raises when there is no dot. *)
Definition get_package (mgr : Manager) (package_id : string)
  : result WingetPackage :=
  match Py.split_once "." package_id with
  | Some (pub, pkg) => Ok (mkPackage mgr package_id pub pkg)
  | None => Raise ValueError
  end.

(** [WingetPackage.get_latest_version] (lines 418-440) *)
Definition get_latest_version (self : WingetPackage)
    (f : gmap (list string) Fs.node) : result (option string) :=
  if negb (Py.truthy (pub self)) then Raise IndexError
  else
    let package_path := package_path (mirror_dir (manager self))
                          (pub self) (pkg self) in
    if negb (Fs.is_dir f package_path) then Ok None
    else
      rbind (Fs.iterdir f package_path) (λ entries,
        let versions :=
          omap (λ e : string * Fs.node,
                  match e.2 with Fs.Dir => Some e.1 | _ => None end) entries in
        match valid_versions versions with
        | [] => Ok None
        | valid => rbind (max_by_version valid) (λ v, Ok (Some v))
        end).

(** [WingetPackage.download] (lines 442-445) *)
Definition download (env : Env) (self : WingetPackage)
    (version : option string) : M bool :=
  process_package env (package_id self) (mirror_dir (manager self))
    (downloads_dir (manager self)) (repo (manager self)) version.

(** *** [WingetPackage.validate_hashes] (lines 447-507) *)

Inductive status : Set := MATCH | MISMATCH.

Record file_result : Type := mkFileResult {
  f_status : status;
  f_expected : string;
  f_computed : string
}.

Record version_result : Type := mkVersionResult {
  v_valid : bool;
  v_files : dict file_result;
  missing_files : list string;
  unexpected_files : list string
}.

(** The report: [{"valid", "error"}] or [{"valid", "versions"}] *)
Record report : Type := mkReport {
  valid : bool;
  error : option string;
  r_versions : option (dict version_result)
}.

(** Lines 477-495: one recorded file against the files on the disk *)
Definition check_file (env : Env) (actual_files : dict string)
    (vr : version_result) (expected : string * string) : version_result :=
  let '(filename, expected_hash) := expected in
  match Dict.get actual_files filename with
  | None =>
      mkVersionResult false (v_files vr) (missing_files vr ++ [filename])
        (unexpected_files vr)
  | Some data =>
      let computed_hash := sha256_hex env data in
      let matches := String.eqb computed_hash expected_hash in
      mkVersionResult (v_valid vr && matches)
        (Dict.set filename
           (mkFileResult (if matches then MATCH else MISMATCH)
              expected_hash computed_hash) (v_files vr))
        (missing_files vr) (unexpected_files vr)
  end.

(** [{f.name: f for f in download_dir.iterdir() if f.is_file()}], each
    file with the content a later [open] reads *)
Definition actual_files_of (entries : list (string * Fs.node)) : dict string :=
  fold_left (λ acc e,
    match e.2 with
    | Fs.File data => Dict.set e.1 data acc
    | Fs.Dir => acc
    end) entries [].

(** Lines 455-505: the result for one version; the boolean tells whether
    the version leaves the report valid. *)
Definition validate_version (env : Env) (self : WingetPackage)
    (f : gmap (list string) Fs.node) (version : string) (vdata : entry)
  : result version_result :=
  let expected_files := files vdata in
  let version_results := mkVersionResult true [] [] [] in
  if Dict.is_empty expected_files then Ok version_results
  else
    let download_dir :=
      downloads_dir (manager self) // pub self // pkg self // version in
    if negb (Fs.exists_ f download_dir) then
      Ok (mkVersionResult false [] [] [])
    else
      rbind (Fs.iterdir f download_dir) (λ entries,
        let actual_files := actual_files_of entries in
        let vr := fold_left (check_file env actual_files) expected_files
                    version_results in
        let unexpected :=
          filter (λ n, Dict.mem n expected_files = false)
                 (Dict.keys actual_files) in
        Ok (mkVersionResult (v_valid vr) (v_files vr) (missing_files vr)
              unexpected)).

Fixpoint validate_versions (env : Env) (self : WingetPackage)
    (f : gmap (list string) Fs.node) (items : list (string * entry))
    (results : report) : result report :=
  match items with
  | [] => Ok results
  | (version, vdata) :: items' =>
      rbind (validate_version env self f version vdata) (λ vr,
        validate_versions env self f items'
          (mkReport (valid results && v_valid vr) (error results)
             (Some (Dict.set version vr (default [] (r_versions results))))))
  end.

Definition validate_hashes (env : Env) (self : WingetPackage) (w : World)
  : result report :=
  match Dict.get (downloads w) (package_id self) with
  | None => Ok (mkReport false (Some "Package not in state") None)
  | Some package_info =>
      validate_versions env self (fs w) (versions package_info)
        (mkReport true None (Some []))
  end.

(** *** [WingetMirrorManager.patch_repo] (lines 350-410) *)

(** [needle in hay] for two strings *)
Fixpoint contains (needle hay : string) : bool :=
  String.prefix needle hay ||
  match hay with
  | "" => false
  | String _ hay' => contains needle hay'
  end.

(** Line 399 *)
Definition new_url (server_url pub pkg version filename : string) : string :=
  Py.rstrip (Py.char_eqb "/") server_url +:+ "/downloads/" +:+ pub +:+ "/"
    +:+ pkg +:+ "/" +:+ version +:+ "/" +:+ filename.

(** Lines 396-401 for one item of [manifest["Installers"]]: the item with
    its URL rewritten, and the line printed if it was. *)
Definition patch_installer (server_url package_id pub pkg version : string)
    (installer : yaml) : result (yaml * list message) :=
  match installer with
  | YMap d =>
      match Dict.get d "InstallerUrl" with
      | None => Ok (installer, [])
      | Some (YStr original_url) =>
          let new := new_url server_url pub pkg version (Fs.name original_url) in
          Ok (YMap (Dict.set "InstallerUrl" (YStr new) d),
              [Patched package_id version original_url new])
      | Some _ => Raise TypeError
      end
  | YStr s => if contains "InstallerUrl" s then Raise TypeError
              else Ok (installer, [])
  | YList l => if existsb (λ x, Yaml.eq_str (Some x) "InstallerUrl") l
               then Raise TypeError else Ok (installer, [])
  | _ => Raise TypeError
  end.

Fixpoint patch_installers (server_url package_id pub pkg version : string)
    (l : list yaml) : result (list yaml * list message) :=
  match l with
  | [] => Ok ([], [])
  | i :: l' =>
      rbind (patch_installer server_url package_id pub pkg version i) (λ r,
        rbind (patch_installers server_url package_id pub pkg version l') (λ rs,
          Ok (r.1 :: rs.1, r.2 ++ rs.2)))
  end.

(** Lines 394-401.  The loop rewrites the items of a list in place; over a
    mapping or a string it visits keys or characters, which it can only
    leave alone. *)
Definition patch_manifest (server_url package_id pub pkg version : string)
    (manifest : yaml) : result (yaml * list message) :=
  match manifest with
  | YMap d =>
      if Yaml.eq_str (Dict.get d "ManifestType") "installer" then
        match Dict.get d "Installers" with
        | None => Ok (manifest, [])
        | Some (YList l) =>
            rbind (patch_installers server_url package_id pub pkg version l)
              (λ r, Ok (YMap (Dict.set "Installers" (YList r.1) d), r.2))
        | Some v =>
            rbind (Yaml.iter v) (λ items,
              rbind (patch_installers server_url package_id pub pkg version
                       items) (λ _, Ok (manifest, [])))
        end
      else Ok (manifest, [])
  | _ => Raise AttributeError
  end.

Fixpoint prints (l : list message) : M unit :=
  match l with
  | [] => skip
  | m :: l' => print m;; prints l'
  end.

(** Lines 390-404: one manifest file of the source directory *)
Definition patch_file (env : Env) (server_url package_id pub pkg version : string)
    (source_manifest_dir target_manifest_dir : Fs.path) (file_name : string)
  : M unit :=
  let target_file := target_manifest_dir // file_name in
  text ← read_file (source_manifest_dir // file_name);
  manifest ← lift (yaml_safe_load env text);
  r ← lift (patch_manifest server_url package_id pub pkg version manifest);
  prints r.2;;
  write_file target_file (yaml_dump env r.1).

Fixpoint for_each {A} (body : A → M unit) (l : list A) : M unit :=
  match l with
  | [] => skip
  | a :: l' => body a;; for_each body l'
  end.

Definition ends_with (suffix s : string) : bool :=
  String.prefix (String.rev suffix) (String.rev s).

(** [d.glob("*.yaml")]: the names of the entries of [d] that end in
    [.yaml]; nothing when [d] is not a directory. *)
Definition glob_yaml (f : gmap (list string) Fs.node) (d : Fs.path)
  : list string :=
  match Fs.iterdir f d with
  | Ok entries => filter (λ n, ends_with ".yaml" n = true) (map fst entries)
  | Raise _ => []
  end.

(** Lines 375-407: one version of one package; [true] when the version was
    patched and counts. *)
Definition patch_version (env : Env) (self : Manager)
    (server_url : string) (output_path : Fs.path)
    (package_id pub pkg version : string) : M bool :=
  (if Py.truthy pub then skip else raise IndexError);;
  let first_letter := Py.lower (String.substring 0 1 pub) in
  let source_manifest_dir :=
    mirror_dir self // "manifests" // first_letter // pub // pkg // version in
  f ← get_fs;
  if negb (Fs.exists_ f source_manifest_dir) then
    print (Warn_source_manifest_not_found package_id version);; mret false
  else
    let target_manifest_dir :=
      output_path // "manifests" // first_letter // pub // pkg // version in
    mkdir_p target_manifest_dir;;
    f ← get_fs;
    for_each (patch_file env server_url package_id pub pkg version
                source_manifest_dir target_manifest_dir)
             (glob_yaml f source_manifest_dir);;
    print (Patched_manifests package_id version);;
    mret true.

Fixpoint patch_versions (env : Env) (self : Manager)
    (server_url : string) (output_path : Fs.path)
    (package_id pub pkg : string) (versions : list string) (count : nat)
  : M nat :=
  match versions with
  | [] => mret count
  | version :: rest =>
      patched ← patch_version env self server_url output_path
                  package_id pub pkg version;
      patch_versions env self server_url output_path package_id pub pkg rest
        (if patched : bool then S count else count)
  end.

Fixpoint patch_packages (env : Env) (self : Manager)
    (server_url : string) (output_path : Fs.path)
    (items : list (string * package_info)) (count : nat) : M nat :=
  match items with
  | [] => mret count
  | (package_id, package_info) :: rest =>
      match Py.split_once "." package_id with
      | None => raise ValueError
      | Some (pub, pkg) =>
          count' ← patch_versions env self server_url output_path
                     package_id pub pkg (Dict.keys (versions package_info))
                     count;
          patch_packages env self server_url output_path rest count'
      end
  end.

(** [a or b] for two optional strings *)
Definition or_else (a b : option string) : option string :=
  match a with
  | Some s => if Py.truthy s then a else b
  | None => b
  end.

Definition patch_repo (env : Env) (self : Manager)
    (server_url patch_dir : option string) : M nat :=
  d ← get_downloads;
  if Dict.is_empty d then print No_downloads_in_state;; mret 0
  else
    match or_else server_url (cfg_server_url self),
          or_else patch_dir (cfg_patch_dir self) with
    | Some server_url, Some patch_dir =>
        if Py.truthy server_url && Py.truthy patch_dir then
          let output_path := cwd self // patch_dir in
          mkdir_p output_path;;
          patched_count ← patch_packages env self server_url output_path d 0;
          print (Successfully_patched patched_count);;
          mret patched_count
        else print Error_server_url_or_patch_dir_unset;; mret 0
    | _, _ => print Error_server_url_or_patch_dir_unset;; mret 0
    end.

(** ** The selection of the [cleanup] task (tasks.py, lines 481-497) *)

#[global] Instance datetime_eq_dec : EqDecision datetime.
Proof. solve_decision. Defined.
#[global] Instance entry_eq_dec : EqDecision entry.
Proof. solve_decision. Defined.

(** [l[:stop]] *)
Definition slice_to {A} (stop : Z) (l : list A) : list A :=
  let len := Z.of_nat (length l) in
  take (Z.to_nat (if (stop <? 0)%Z then Z.max 0 (len + stop) else Z.min stop len)) l.

(** Line 495 *)
Definition age_months (now ts : datetime) : Z :=
  (year now - year ts) * 12 + (month now - month ts).

(** Lines 493-497 *)
Definition age_rule (now : datetime) (max_age_months : Z)
    (unpinned to_delete : list (string * entry)) : list (string * entry) :=
  fold_left (λ to_delete item,
    if (age_months now (timestamp item.2) >? max_age_months)%Z
       && negb (bool_decide (item ∈ to_delete))
    then to_delete ++ [item] else to_delete) unpinned to_delete.

(** Lines 481-497: the versions of one package that [cleanup] goes on to
    purge, [to_delete].  A package without unpinned versions is passed
    over. *)
Definition to_delete (now : datetime) (max_versions max_age_months : Z)
    (versions : dict entry) : result (list (string * entry)) :=
  let unpinned := filter (λ item, pinned item.2 = false) versions in
  match unpinned with
  | [] => Ok []
  | _ =>
      rbind (rmapM (λ item : string * entry,
                      rbind (parse_version_safe item.1) (λ k, Ok (k, item)))
                   unpinned) (λ keyed,
        let unpinned :=
          map snd (sort_by (λ a b : Packaging.Version * (string * entry),
                              Packaging.lt a.1 b.1) keyed) in
        let to_delete :=
          if (Z.of_nat (length unpinned) >? max_versions)%Z
          then slice_to (- max_versions) unpinned else [] in
        Ok (age_rule now max_age_months unpinned to_delete))
  end.

(** ** [get_matching_publishers] (winget_mirror_core.py, lines 59-71) *)

Definition get_matching_publishers (f : gmap (list string) Fs.node)
    (mirror_dir : Fs.path) (publisher : string) : result (list string) :=
  if negb (Py.truthy publisher) then Raise IndexError
  else
    let first_letter := Py.lower (String.substring 0 1 publisher) in
    let publisher_dir := mirror_dir // "manifests" // first_letter in
    if Fs.exists_ f publisher_dir then
      rbind (Fs.iterdir f publisher_dir) (λ entries,
        Ok (omap (λ e : string * Fs.node,
                    match e.2 with
                    | Fs.Dir =>
                        if String.prefix (Py.lower publisher) (Py.lower e.1)
                        then Some e.1 else None
                    | _ => None
                    end) entries))
    else Ok [].

(** ** Removing: [shutil.rmtree] and [del] *)

Module Shutil.

(** [shutil.rmtree(p)]: a directory goes with all that is below it; for a
    path that is no directory the call raises ([NotADirectoryError],
    [FileNotFoundError]). *)
Definition rmtree (f : gmap (list string) Fs.node) (p : Fs.path)
  : result (gmap (list string) Fs.node) :=
  match Fs.stat f p with
  | Some Fs.Dir =>
      Ok (filter (λ kn : list string * Fs.node, ¬ Fs.norm p `prefix_of` kn.1) f)
  | _ => Raise OSError
  end.

End Shutil.

(** [del d[k]], for a key that [d] has *)
Fixpoint dict_del {V} (k : string) (d : dict V) : dict V :=
  match d with
  | [] => []
  | (k', v) :: d' =>
      if String.eqb k k' then dict_del k d' else (k', v) :: dict_del k d'
  end.

(** [del downloaded[package_id]['versions'][version]] *)
Definition delete_version (package_id version : string)
    (d : dict package_info) : dict package_info :=
  Dict.alter (λ info,
    mkInfo (dict_del version (versions info)) (pkg_timestamp info))
    package_id d.

(** ** The tasks and the operations they save the state with

    The tasks of [tasks.py] are modelled from the point where they hold their
    manager: how [config.json] and [state.json] are read is not.  Of the
    configuration the thresholds of [cleanup] are integers, as the default
    configuration has them. *)

Module Task.

(** The lines that these operations print, and among them, each in its
    place, those of the operations above *)
Inductive line : Type :=
| Core (m : message)
| Removed_patched_manifests (package_id version : string)
| Purged (package_id version : string)
| Dry_run_would_clean (package_id version : string)
| Cleanup_removed (count : nat)
| Dry_run_complete.

(** What a task may change: the world of the operations above, the
    [last_sync] of the state document, and its output. *)
Record Session : Type := mkSession {
  world : World;
  last_sync : option datetime;
  said : list line
}.

Definition T (A : Type) : Type := Session → result A * Session.

#[export] Instance T_ret : MRet T := λ A a s, (Ok a, s).
#[export] Instance T_bind : MBind T := λ A B f m s,
  match m s with
  | (Ok a, s') => f a s'
  | (Raise e, s') => (Raise e, s')
  end.

Definition fail {A} (e : exn) : T A := λ s, (Raise e, s).

Definition pass : T unit := mret ().

Definition of_result {A} (r : result A) : T A := λ s, (r, s).

Definition say (l : line) : T unit :=
  λ s, (Ok (), mkSession (world s) (last_sync s) (said s ++ [l])).

(** An operation of the core within a task: the lines it prints are part of
    the output of the task. *)
Definition in_world {A} (m : M A) : T A := λ s,
  let r := m (world s) in
  (r.1, mkSession r.2 (last_sync s)
          (said s ++ map Core (drop (length (out (world s))) (out r.2)))).

Definition get_last_sync : T (option datetime) := λ s, (Ok (last_sync s), s).

(** The fields of a manager that the operations above do not read *)
Record Project : Type := mkProject {
  base : Manager;
  path : Fs.path;
  cfg_patched_dir : option string;
  cfg_max_unpinned_versions : option Z;
  cfg_max_unpinned_age_months : option Z
}.

(** The collaborators: those of the core, and [json.dump] of the state
    document, of which [last_sync] and [downloads] are the parts that
    change.  (A document without [downloads] and one in which it is empty
    are not told apart.) *)
Record Tools : Type := mkTools {
  tool_env : Env;
  json_dump : option datetime → dict package_info → string
}.

(** [WingetMirrorManager.save_state] (winget_mirror_core.py, lines 301-303) *)
Definition save_state (t : Tools) (proj : Project) : T unit :=
  ls ← get_last_sync;
  in_world (d ← get_downloads;
            write_file (path proj // "state.json") (json_dump t ls d)).

Definition rmtree (p : Fs.path) : M unit :=
  f ← get_fs; f' ← lift (Shutil.rmtree f p); put_fs f'.

(** *** [WingetPackage.purge] (winget_mirror_core.py, lines 509-551)

    [proj] is [self.manager] for the fields that [Manager] does not have. *)

(** Lines 528-543: one version *)
Definition purge_version (proj : Project) (self : WingetPackage) (v : string)
  : T unit :=
  let package_dir :=
    downloads_dir (manager self) // pub self // pkg self // v in
  f ← in_world get_fs;
  (if Fs.exists_ f package_dir then in_world (rmtree package_dir) else pass);;
  let patched_root :=
    cwd (manager self) // default "patched-manifests" (cfg_patched_dir proj) in
  (if Py.truthy (pub self) then pass else fail IndexError);;
  let patched_dir :=
    patched_root // "manifests" // Py.lower (String.substring 0 1 (pub self))
                 // pub self // pkg self // v in
  f ← in_world get_fs;
  (if Fs.exists_ f patched_dir then
     in_world (rmtree patched_dir);;
     say (Removed_patched_manifests (package_id self) v)
   else pass);;
  in_world (d ← get_downloads;
            put_downloads (delete_version (package_id self) v d));;
  say (Purged (package_id self) v).

(** Lines 524-543: the loop over the versions that the entry had *)
Fixpoint purge_versions (proj : Project) (self : WingetPackage)
    (version : option string) (vs : list string) (purged_any : bool) : T bool :=
  match vs with
  | [] => mret purged_any
  | v :: vs' =>
      if explicit version && negb (String.eqb v (default "" version)) then
        purge_versions proj self version vs' purged_any
      else
        purge_version proj self v;;
        purge_versions proj self version vs' true
  end.

Definition purge (t : Tools) (proj : Project) (self : WingetPackage)
    (version : option string) : T bool :=
  d ← in_world get_downloads;
  match Dict.get d (package_id self) with
  | None => mret false
  | Some package_info =>
      if Dict.is_empty (versions package_info) then mret false
      else
        purged_any ← purge_versions proj self version
                       (Dict.keys (versions package_info)) false;
        d ← in_world get_downloads;
        (match Dict.get d (package_id self) with
         | Some info =>
             if Dict.is_empty (versions info) then
               in_world (put_downloads (dict_del (package_id self) d))
             else pass
         | None => pass
         end);;
        (if purged_any : bool then save_state t proj else pass);;
        mret purged_any
  end.

(** *** The [cleanup] task (tasks.py, lines 466-512) *)

(** Lines 501-506 *)
Fixpoint purge_selected (t : Tools) (proj : Project) (pkg : WingetPackage)
    (dry_run : bool) (to_delete : list (string * entry)) (cleaned_count : nat)
  : T nat :=
  match to_delete with
  | [] => mret cleaned_count
  | (v, _) :: rest =>
      if dry_run then
        say (Dry_run_would_clean (package_id pkg) v);;
        purge_selected t proj pkg dry_run rest cleaned_count
      else
        purged ← purge t proj pkg (Some v);
        purge_selected t proj pkg dry_run rest
          (if purged : bool then S cleaned_count else cleaned_count)
  end.

(** Lines 477-506: one package of the state *)
Definition cleanup_package (t : Tools) (proj : Project) (dry_run : bool)
    (now : datetime) (max_versions max_age_months : Z)
    (item : string * package_info) (cleaned_count : nat) : T nat :=
  let versions := versions item.2 in
  if Dict.is_empty versions then mret cleaned_count
  else
    match filter (λ i : string * entry, pinned i.2 = false) versions with
    | [] => mret cleaned_count
    | _ =>
        to_delete ← of_result (to_delete now max_versions max_age_months
                                 versions);
        pkg ← of_result (get_package (base proj) item.1);
        purge_selected t proj pkg dry_run to_delete cleaned_count
    end.

Fixpoint cleanup_packages (t : Tools) (proj : Project) (dry_run : bool)
    (now : datetime) (max_versions max_age_months : Z)
    (items : list (string * package_info)) (cleaned_count : nat) : T nat :=
  match items with
  | [] => mret cleaned_count
  | item :: rest =>
      n ← cleanup_package t proj dry_run now max_versions max_age_months item
            cleaned_count;
      cleanup_packages t proj dry_run now max_versions max_age_months rest n
  end.

Definition cleanup (t : Tools) (proj : Project) (dry_run : bool) : T unit :=
  let max_versions := default 3%Z (cfg_max_unpinned_versions proj) in
  let max_age_months := default 6%Z (cfg_max_unpinned_age_months proj) in
  now ← in_world (now (tool_env t));
  d ← in_world get_downloads;
  cleaned_count ← cleanup_packages t proj dry_run now max_versions
                    max_age_months d 0;
  if negb dry_run then say (Cleanup_removed cleaned_count)
  else say Dry_run_complete.

End Task.

(** ** A concrete project

    One package, [Foo.Bar], with the version [1.2.3] in the checked-out
    repository; the manifests are the texts below, and [yaml_safe_load] and
    [yaml_dump] are given on these texts by what PyYAML makes of them.  The
    digest is a stand-in: no property depends on which function it is. *)

Module Example.

Definition nl : string := String (ascii_of_nat 10) "".

Definition version_text : string :=
  "# Created with YamlCreate.ps1" +:+ nl +:+
  "PackageIdentifier: Foo.Bar" +:+ nl +:+
  "PackageVersion: 1.2.3" +:+ nl +:+
  "ManifestType: version" +:+ nl.

Definition version_yaml : yaml :=
  YMap [("PackageIdentifier", YStr "Foo.Bar");
        ("PackageVersion", YStr "1.2.3");
        ("ManifestType", YStr "version")].

(** [yaml.dump(version_yaml, default_flow_style=False, sort_keys=False)]:
    the text without its comment *)
Definition version_dumped : string :=
  "PackageIdentifier: Foo.Bar" +:+ nl +:+
  "PackageVersion: 1.2.3" +:+ nl +:+
  "ManifestType: version" +:+ nl.

Definition installer_text : string :=
  "PackageIdentifier: Foo.Bar" +:+ nl +:+
  "Installers:" +:+ nl +:+
  "- Architecture: x64" +:+ nl +:+
  "  InstallerUrl: https://example.com/foo/Bar-1.2.3.exe" +:+ nl +:+
  "  InstallerSha256: ABCDEF" +:+ nl +:+
  "ManifestType: installer" +:+ nl.

Definition installer_yaml : yaml :=
  YMap [("PackageIdentifier", YStr "Foo.Bar");
        ("Installers",
         YList [YMap [("Architecture", YStr "x64");
                      ("InstallerUrl",
                       YStr "https://example.com/foo/Bar-1.2.3.exe");
                      ("InstallerSha256", YStr "ABCDEF")]]);
        ("ManifestType", YStr "installer")].

Definition patched_yaml : yaml :=
  YMap [("PackageIdentifier", YStr "Foo.Bar");
        ("Installers",
         YList [YMap [("Architecture", YStr "x64");
                      ("InstallerUrl",
                       YStr "https://mirror.local/downloads/Foo/Bar/1.2.3/Bar-1.2.3.exe");
                      ("InstallerSha256", YStr "ABCDEF")]]);
        ("ManifestType", YStr "installer")].

Definition patched_dumped : string :=
  "PackageIdentifier: Foo.Bar" +:+ nl +:+
  "Installers:" +:+ nl +:+
  "- Architecture: x64" +:+ nl +:+
  "  InstallerUrl: https://mirror.local/downloads/Foo/Bar/1.2.3/Bar-1.2.3.exe"
    +:+ nl +:+
  "  InstallerSha256: ABCDEF" +:+ nl +:+
  "ManifestType: installer" +:+ nl.

Definition env (net : string → response) : Env :=
  {| http_get := net;
     sha256_hex := λ data, "sha256(" +:+ data +:+ ")";
     yaml_safe_load := λ text,
       if String.eqb text version_text then Ok version_yaml
       else if String.eqb text installer_text then Ok installer_yaml
       else Raise YAMLError;
     yaml_dump := λ v,
       if Yaml.eqb v version_yaml then version_dumped
       else if Yaml.eqb v installer_yaml then installer_text
       else if Yaml.eqb v patched_yaml then patched_dumped
       else "";
     clock := λ t, mkDatetime 2026 1 (N.of_nat t) |}.

Definition unreachable : string → response := λ _, HTTPError.
Definition serving (body : string) : string → response := λ _, Body body.

Definition version_dir : list string :=
  ["proj"; "mirror"; "manifests"; "f"; "Foo"; "Bar"; "1.2.3"].

Definition disk : gmap (list string) Fs.node :=
  list_to_map
    [(["proj"], Fs.Dir); (["proj"; "mirror"], Fs.Dir);
     (["proj"; "mirror"; "manifests"], Fs.Dir);
     (["proj"; "mirror"; "manifests"; "f"], Fs.Dir);
     (["proj"; "mirror"; "manifests"; "f"; "Foo"], Fs.Dir);
     (["proj"; "mirror"; "manifests"; "f"; "Foo"; "Bar"], Fs.Dir);
     (version_dir, Fs.Dir);
     (version_dir ++ ["Foo.Bar.yaml"], Fs.File version_text);
     (version_dir ++ ["Foo.Bar.installer.yaml"], Fs.File installer_text)].

(** A fresh project: nothing downloaded yet *)
Definition fresh : World := mkWorld disk [] 0 [].

Definition mgr : Manager :=
  mkManager ["proj"] ["proj"; "mirror"] ["proj"; "downloads"] (Some "c0ffee")
    (Some "https://mirror.local/") (Some "patched").

Definition foo_bar : WingetPackage := mkPackage mgr "Foo.Bar" "Foo" "Bar".

(** [foo_bar.download(version)] *)
Definition run (net : string → response) (version : option string) (w : World)
  : result bool * World :=
  process_package (env net) "Foo.Bar" (mirror_dir mgr) (downloads_dir mgr)
    (repo mgr) version w.

(** The project after [1.2.3] was downloaded on explicit request *)
Definition pinned_world : World :=
  (run (serving "installer bytes") (Some "1.2.3") fresh).2.

(** The project after a later download without a version *)
Definition refreshed_world : World :=
  (run (serving "installer bytes") None pinned_world).2.

(** A fresh project after a download whose fetch failed *)
Definition failed_world : World := (run unreachable None fresh).2.

(** The file that the download of [1.2.3] leaves on the disk *)
Definition installer_file : list string :=
  ["proj"; "downloads"; "Foo"; "Bar"; "1.2.3"; "Bar-1.2.3.exe"].

(** The same project after the downloaded file was removed from the disk *)
Definition lost_file_world : World :=
  mkWorld (delete installer_file (fs pinned_world)) (downloads pinned_world)
    (ticks pinned_world) (out pinned_world).

(** A project in which the fetch of [1.2.3] failed, so that the entry
    records no file, and whose download directory holds a file of unknown
    origin *)
Definition stray_file : list string :=
  ["proj"; "downloads"; "Foo"; "Bar"; "1.2.3"; "leftover.exe"].

Definition stray_world : World :=
  mkWorld (<[stray_file := Fs.File "left over"]> (fs failed_world))
    (downloads failed_world) (ticks failed_world) (out failed_world).

(** The project after [patch_repo] with the server [https://mirror.local] *)
Definition patch_run : result nat * World :=
  patch_repo (env unreachable) mgr (Some "https://mirror.local") None
    pinned_world.

Definition patched_dir : list string :=
  ["proj"; "patched"; "manifests"; "f"; "Foo"; "Bar"; "1.2.3"].

(** The world after the one installer manifest was patched into a
    prepared directory *)
Definition patch_file_world : World :=
  (patch_file (env unreachable) "https://mirror.local" "Foo.Bar" "Foo" "Bar"
     "1.2.3" version_dir patched_dir "Foo.Bar.installer.yaml"
     (mkWorld (<[patched_dir := Fs.Dir]> disk) [] 0 [])).2.

End Example.

(** ** Examples for the tasks *)

Module TaskExample.
Import Example.

Definition tools : Task.Tools :=
  Task.mkTools (env (serving "installer bytes"))
    (λ _ d, Py.join ";"
              (map (λ item : string * package_info,
                      item.1 +:+ ":" +:+
                      Py.join "," (Dict.keys (versions item.2))) d)).

Definition project : Task.Project := Task.mkProject mgr ["proj"] None None None.

(** A task in the project after [1.2.3] was downloaded on explicit request *)
Definition session : Task.Session := Task.mkSession pinned_world None [].

(** [foo_bar.purge()] there *)
Definition purged : result bool * Task.Session :=
  Task.purge tools project foo_bar None session.

(** The same project when the state also records an old version [1.0],
    not pinned *)
Definition old_entry : entry :=
  mkEntry "c0ffee" [] (mkDatetime 2025 1 0) false.

Definition stocked : Task.Session :=
  Task.mkSession
    (mkWorld (fs pinned_world)
       (Dict.alter (λ info, mkInfo (versions info ++ [("1.0", old_entry)])
                              (pkg_timestamp info))
          "Foo.Bar" (downloads pinned_world))
       (ticks pinned_world) (out pinned_world))
    None [].

Definition stocked_info : package_info :=
  Eval vm_compute in
    default (mkInfo [] None)
      (Dict.get (downloads (Task.world stocked)) "Foo.Bar").

Definition pinned_entry : entry :=
  Eval vm_compute in
    default old_entry (Dict.get (versions stocked_info) "1.2.3").

(** [cleanup] there, and its dry run *)
Definition cleaned : result () * Task.Session :=
  Task.cleanup tools project false stocked.

Definition dry : result () * Task.Session :=
  Task.cleanup tools project true stocked.

End TaskExample.


(** ** Vocabulary of the statements *)

(** [post m w Q]: whatever the call [m] returns from the world [w], and in
    whatever world it leaves, [Q] holds of them. *)
Definition post {A} (m : M A) (w : World) (Q : result A → World → Prop) : Prop :=
  ∀ r w', m w = (r, w') → Q r w'.

(** The Version Entry of a version of a package, when the state has one *)
Definition lookup_entry (package_id version : string) (d : dict package_info)
  : option entry :=
  match Dict.get d package_id with
  | Some info => Dict.get (versions info) version
  | None => None
  end.

(** The state holds an entry for the version, with this [pinned] flag. *)
Definition entry_pinned (package_id version : string) (b : bool)
    (d : dict package_info) : Prop :=
  ∃ e, lookup_entry package_id version d = Some e ∧ pinned e = b.

(** The one line that [locate_installers] may print *)
Definition locate_message (package_id : string) (m : message) : Prop :=
  m = Warn_invalid_package_id package_id ∨
  m = Warn_package_dir_not_found package_id ∨
  ∃ v, m = Requested_version_not_found v package_id.

(** The lines a call added to the output end with one of the two lines
    that lines 177-182 print when [requests] raises. *)
Definition fetch_failed (package_id : string) (before after : list message)
  : Prop :=
  ∃ msgs, after = before ++ msgs ∧
          (last msgs = Some (Skipping_http_error package_id) ∨
           last msgs = Some (Skipping_request_failed package_id)).

(** [if package_id not in downloaded: downloaded[package_id] = {...}] *)
Definition with_package (package_id : string) (d : dict package_info)
  : dict package_info :=
  if Dict.mem package_id d then d
  else Dict.set package_id (mkInfo [] None) d.

(** A name without a slash: one component of a path *)
Definition no_slash (s : string) : Prop :=
  Py.all_chars (λ c, negb (Py.char_eqb c "/")) s = true.

(** What [patch_repo] makes of one item of [Installers]: an item with a URL
    gets the URL of the mirror, any other item stays. *)
Definition rewritten_installer (server_url pub pkg version : string)
    (installer : yaml) : yaml :=
  match installer with
  | YMap d =>
      match Dict.get d "InstallerUrl" with
      | Some (YStr u) =>
          YMap (Dict.set "InstallerUrl"
                  (YStr (new_url server_url pub pkg version (Fs.name u))) d)
      | _ => installer
      end
  | _ => installer
  end.

(** The manifest whose type is [installer] *)
Definition is_installer_manifest (manifest : yaml) : bool :=
  match manifest with
  | YMap d => Yaml.eq_str (Dict.get d "ManifestType") "installer"
  | _ => false
  end.

(** What [patch_repo] makes of a manifest *)
Definition patched_manifest (server_url pub pkg version : string)
    (manifest : yaml) : yaml :=
  match manifest with
  | YMap d =>
      if is_installer_manifest manifest then
        match Dict.get d "Installers" with
        | Some (YList l) =>
            YMap (Dict.set "Installers"
                    (YList (map (rewritten_installer server_url pub pkg version)
                              l)) d)
        | _ => manifest
        end
      else manifest
  | _ => manifest
  end.

(** The URL as the specification words it:
    [{server_base_url}/downloads/{publisher}/{package}/{version}/{filename}] *)
Definition spec_url (server_base_url publisher package version filename : string)
  : string :=
  server_base_url +:+ "/downloads/" +:+ publisher +:+ "/" +:+ package
    +:+ "/" +:+ version +:+ "/" +:+ filename.

(** The last character of a string *)
Fixpoint last_char (s : string) : option ascii :=
  match s with
  | "" => None
  | String c "" => Some c
  | String _ s' => last_char s'
  end.

(** [parse_version_safe(a) < parse_version_safe(b)] for two labels on which
    [parse_version_safe] returns *)
Definition label_lt (a b : string) : bool :=
  match parse_version_safe a, parse_version_safe b with
  | Ok ka, Ok kb => Packaging.lt ka kb
  | _, _ => false
  end.

(** A non-empty string of decimal digits *)
Definition digit_string (s : string) : Prop :=
  Py.truthy s = true ∧ Py.all_chars Py.is_digit s = true.

(** The parts [ps], each after a dot *)
Fixpoint dotted (ps : list string) : string :=
  match ps with
  | [] => ""
  | d :: ps' => "." +:+ d +:+ dotted ps'
  end.

(** The first character of a string satisfies [p] *)
Definition starts_with (p : ascii → bool) (s : string) : bool :=
  match s with
  | "" => false
  | String a _ => p a
  end.

(** [s'] is [s] without some leading characters, all of which satisfy [p] *)
Inductive drops (p : ascii → bool) : string → string → Prop :=
| drops_here (s : string) : drops p s s
| drops_next (a : ascii) (s s' : string) :
    p a = true → drops p s s' → drops p (String a s) s'.

(** ** Vocabulary of the further properties *)

(** A comparison that orders its arguments: swapped arguments give the
    opposite answer, arguments that compare equal compare alike with any
    third, and [Lt] is transitive. *)
Record ordering {A} (cmp : A → A → comparison) : Prop := mkOrdering {
  ordering_opp : ∀ a b, cmp b a = CompOpp (cmp a b);
  ordering_eq : ∀ a b c, cmp a b = Eq → cmp a c = cmp b c;
  ordering_lt : ∀ a b c, cmp a b = Lt → cmp b c = Lt → cmp a c = Lt
}.

(** The comparison of two [Version] objects, by their keys *)
Definition version_compare (a b : Packaging.Version) : comparison :=
  Packaging.key_compare (Packaging._cmpkey a) (Packaging._cmpkey b).

(** A string without a dot *)
Definition no_dot (s : string) : Prop :=
  Py.all_chars (λ c, negb (Py.char_eqb c ".")) s = true.

(** Every version label of the state is one on which [parse_version_safe]
    returns. *)
Definition labels_valid (d : dict package_info) : Prop :=
  ∀ pid v e, lookup_entry pid v d = Some e →
             is_ok (parse_version_safe v) = true.

(** The disk [f'] holds whatever the disk [f] holds. *)
Definition disk_kept (f f' : gmap (list string) Fs.node) : Prop :=
  ∀ k n, f !! k = Some n → f' !! k = Some n.

(** The state [d'] differs from [d] at most in the entry of one version of
    one package. *)
Definition one_entry_apart (pid target : string) (d d' : dict package_info)
  : Prop :=
  (∀ pid', pid' ≠ pid → Dict.get d' pid' = Dict.get d pid') ∧
  (∀ v, v ≠ target → lookup_entry pid v d' = lookup_entry pid v d).

(** The versions of a package have distinct labels, as the keys of a
    [dict] do. *)
Definition distinct_labels (pid : string) (d : dict package_info) : Prop :=
  ∀ info, Dict.get d pid = Some info → NoDup (Dict.keys (versions info)).

(** A list in which no item is followed by one that [R] forbids after it *)
Fixpoint ascending {A} (R : A → A → Prop) (l : list A) : Prop :=
  match l with
  | [] => True
  | x :: l' => Forall (R x) l' ∧ ascending R l'
  end.

(** The number of versions that the state records, over all packages *)
Definition total_versions (d : dict package_info) : nat :=
  sum_list (map (λ item : string * package_info,
                   List.length (versions item.2)) d).

(** [self.config.get(...)] gives nothing usable for this setting. *)
Definition unset (setting : option string) : Prop :=
  setting = None ∨ setting = Some "".

(** The state and the clock of [w] are those of [w0]. *)
Definition state_kept (w0 w : World) : Prop :=
  downloads w = downloads w0 ∧ ticks w = ticks w0.

(** [postT m s Q]: whatever the task [m] returns from the session [s], and
    in whatever session it leaves, [Q] holds of them. *)
Definition postT {A} (m : Task.T A) (s : Task.Session)
    (Q : result A → Task.Session → Prop) : Prop :=
  ∀ r s', m s = (r, s') → Q r s'.

(** The state [d'] has no entry that [d] has not. *)
Definition only_removed (d d' : dict package_info) : Prop :=
  ∀ pid v e, lookup_entry pid v d' = Some e → lookup_entry pid v d = Some e.

(** The disk [f'] holds nothing that the disk [f] has not, but for the path
    [k]. *)
Definition nothing_new_but (k : list string)
    (f f' : gmap (list string) Fs.node) : Prop :=
  ∀ k' n, f' !! k' = Some n → k' = k ∨ f !! k' = Some n.

(** The download directory of a version of a package, and the directory of
    its patched manifests as [purge] computes it *)
Definition download_dir_of (self : WingetPackage) (v : string) : Fs.path :=
  downloads_dir (manager self) // pub self // pkg self // v.

Definition patched_dir_of (proj : Task.Project) (self : WingetPackage)
    (v : string) : Fs.path :=
  cwd (manager self) // default "patched-manifests" (Task.cfg_patched_dir proj)
    // "manifests" // Py.lower (String.substring 0 1 (pub self))
    // pub self // pkg self // v.

(** The state [d'] is [d] without some entries of the package [pid], all of
    them of versions that [selected] holds of. *)
Definition purged_from (pid : string) (selected : string → Prop)
    (d d' : dict package_info) : Prop :=
  ∀ pid' v',
    lookup_entry pid' v' d' = lookup_entry pid' v' d ∨
    pid' = pid ∧ selected v' ∧ lookup_entry pid' v' d' = None.

(** The version [v] is one that [purge(version)] takes. *)
Definition taken (version : option string) (v : string) : Prop :=
  explicit version = true → version = Some v.

(** The disk [f'] is [f] without some directories and all that was below
    them. *)
Definition subtrees_removed (f f' : gmap (list string) Fs.node) : Prop :=
  disk_kept f' f ∧
  ∀ k k', f' !! k = None → f !! k ≠ None → k `prefix_of` k' → f' !! k' = None.

#[global] Instance taken_dec version v : Decision (taken version v).
Proof. unfold taken. apply _. Defined.

(** Of the directory [p] the disk [f'] has nothing left: not the directory
    itself and, if the disk [f] had it, nothing below it; the path [but]
    apart. *)
Definition nothing_left_of (p but : Fs.path)
    (f f' : gmap (list string) Fs.node) : Prop :=
  ∀ k, Fs.norm p `prefix_of` k → k ≠ Fs.norm but →
       k = Fs.norm p ∨ f !! Fs.norm p ≠ None → f' !! k = None.

(** The version [v] of the package [pid] is one that [cleanup] selects
    among the packages [items], at the time [now] and with these
    thresholds. *)
Definition selected (now : datetime) (max_versions max_age_months : Z)
    (items : dict package_info) (pid v : string) : Prop :=
  ∃ info l e, (pid, info) ∈ items ∧
    to_delete now max_versions max_age_months (versions info) = Ok l ∧
    (v, e) ∈ l.

(** The version [v'] is one that the purge of a selected version takes. *)
Definition swept (now : datetime) (max_versions max_age_months : Z)
    (items : dict package_info) (pid v' : string) : Prop :=
  ∃ v, selected now max_versions max_age_months items pid v ∧
       taken (Some v) v'.

(** The lines with which a dry run of [cleanup] announces the versions that
    it selects *)
Definition announced (now : datetime) (max_versions max_age_months : Z)
    (items : dict package_info) : list Task.line :=
  flat_map (λ item : string * package_info,
    match to_delete now max_versions max_age_months (versions item.2) with
    | Ok l => map (λ i : string * entry, Task.Dry_run_would_clean item.1 i.1) l
    | Raise _ => []
    end) items.

(** The thresholds of [cleanup] and the time at which a run that starts in
    the session [s] reads the clock *)
Definition max_versions_of (proj : Task.Project) : Z :=
  default 3%Z (Task.cfg_max_unpinned_versions proj).

Definition max_age_months_of (proj : Task.Project) : Z :=
  default 6%Z (Task.cfg_max_unpinned_age_months proj).

Definition time_of (t : Task.Tools) (s : Task.Session) : datetime :=
  clock (Task.tool_env t) (ticks (Task.world s)).

(** No version of the state has the empty label. *)
Definition no_empty_label (d : dict package_info) : Prop :=
  ∀ pid info, (pid, info) ∈ d → "" ∉ Dict.keys (versions info).

(** The directory in which [get_matching_publishers] looks for the
    publishers that match a filter *)
Definition letter_dir (mirror_dir : Fs.path) (publisher : string) : Fs.path :=
  mirror_dir // "manifests" // Py.lower (String.substring 0 1 publisher).

(** * Properties *)

Import Example.

Lemma pair_eq {A B} (x : A * B) (a : A) (b : B) :
  x.1 = a → x.2 = b → x = (a, b).
Proof. destruct x. simpl. by intros -> ->. Qed.

(** ** Dictionaries *)

Section dict_facts.
Context {V : Type}.
Implicit Types (d : dict V) (k : string) (v : V).

Lemma get_set_eq d k v : Dict.get (Dict.set k v d) k = Some v.
Proof.
  induction d as [|[k' v'] d IH]; simpl.
  - by rewrite String.eqb_refl.
  - destruct (String.eqb k k') eqn:E; simpl; rewrite ?String.eqb_refl, ?E; done.
Qed.

Lemma get_set_ne d k k' v : k ≠ k' → Dict.get (Dict.set k v d) k' = Dict.get d k'.
Proof.
  intros Hne. induction d as [|[k0 v0] d IH]; simpl.
  - destruct (String.eqb_spec k' k); congruence.
  - destruct (String.eqb_spec k k0) as [->|]; simpl.
    + destruct (String.eqb_spec k' k0); congruence.
    + by rewrite IH.
Qed.

Lemma get_alter_eq (f : V → V) d k :
  Dict.get (Dict.alter f k d) k = f <$> Dict.get d k.
Proof.
  induction d as [|[k0 v0] d IH]; simpl; [done|].
  destruct (String.eqb k k0) eqn:E; simpl; rewrite E; done.
Qed.

Lemma get_alter_ne (f : V → V) d k k' :
  k ≠ k' → Dict.get (Dict.alter f k d) k' = Dict.get d k'.
Proof.
  intros Hne. induction d as [|[k0 v0] d IH]; simpl; [done|].
  destruct (String.eqb_spec k k0) as [->|]; simpl.
  - destruct (String.eqb_spec k' k0); congruence.
  - by rewrite IH.
Qed.

Lemma keys_alter (f : V → V) d k : Dict.keys (Dict.alter f k d) = Dict.keys d.
Proof.
  induction d as [|[k0 v0] d IH]; simpl; [done|].
  destruct (String.eqb k k0); simpl; [done|]. by f_equal.
Qed.

Lemma keys_set_mem d k v :
  Dict.mem k d = true → Dict.keys (Dict.set k v d) = Dict.keys d.
Proof.
  unfold Dict.mem. induction d as [|[k0 v0] d IH]; simpl; [done|].
  destruct (String.eqb_spec k k0) as [->|]; simpl; [done|].
  intros H. f_equal. by apply IH.
Qed.

Lemma keys_set_new d k v :
  Dict.mem k d = false → Dict.keys (Dict.set k v d) = Dict.keys d ++ [k].
Proof.
  unfold Dict.mem. induction d as [|[k0 v0] d IH]; simpl; [done|].
  destruct (String.eqb_spec k k0) as [->|]; simpl; [done|].
  intros H. f_equal. by apply IH.
Qed.

Lemma mem_get d k : Dict.mem k d = true ↔ is_Some (Dict.get d k).
Proof.
  unfold Dict.mem. destruct (Dict.get d k); split; done.
Qed.

Lemma get_elem_of d k v : Dict.get d k = Some v → (k, v) ∈ d.
Proof.
  induction d as [|[k0 v0] d IH]; simpl; [done|].
  destruct (String.eqb_spec k k0) as [->|].
  - intros [= ->]. left.
  - intros H. right. by apply IH.
Qed.

Lemma elem_of_get d k v : NoDup (Dict.keys d) → (k, v) ∈ d → Dict.get d k = Some v.
Proof.
  induction d as [|[k0 v0] d IH]; simpl.
  - by intros _ ?%elem_of_nil.
  - intros [Hk0 Hd]%NoDup_cons [[= -> ->]|Hin]%elem_of_cons.
    + by rewrite String.eqb_refl.
    + destruct (String.eqb_spec k k0) as [->|]; [|by apply IH].
      exfalso. apply Hk0. apply list_elem_of_fmap. by exists (k0, v).
Qed.

Lemma get_None_keys d k : Dict.get d k = None ↔ k ∉ Dict.keys d.
Proof.
  induction d as [|[k0 v0] d IH]; simpl.
  - split; [intros _ ?%elem_of_nil|]; done.
  - rewrite not_elem_of_cons. destruct (String.eqb_spec k k0) as [->|]; [|tauto].
    split; [done|]. by intros [? _].
Qed.

Lemma nodup_keys_set d k v : NoDup (Dict.keys d) → NoDup (Dict.keys (Dict.set k v d)).
Proof.
  intros Hd. destruct (Dict.mem k d) eqn:E.
  - by rewrite keys_set_mem.
  - rewrite keys_set_new by done. apply NoDup_app. split_and!; [done| |apply NoDup_singleton].
    intros x Hx Hk. apply list_elem_of_singleton in Hk. subst x.
    revert Hx. apply get_None_keys.
    unfold Dict.mem in E. by destruct (Dict.get d k).
Qed.

Lemma nodup_keys_alter (f : V → V) d k :
  NoDup (Dict.keys d) → NoDup (Dict.keys (Dict.alter f k d)).
Proof. by rewrite keys_alter. Qed.
End dict_facts.

(** ** Reasoning about a call: postconditions *)

Section post_rules.
Context {A B : Type}.
Implicit Types (w : World).

Lemma post_bind (m : M A) (f : A → M B) w (Q : result B → World → Prop) :
  post m w (λ r w1, match r with
                    | Ok a => post (f a) w1 Q
                    | Raise e => Q (Raise e) w1
                    end) →
  post (m ≫= f) w Q.
Proof.
  intros Hm r w' Hrun. unfold mbind, M_bind in Hrun.
  destruct (m w) as [[a|e] w1] eqn:E.
  - by apply (Hm _ _ E).
  - injection Hrun as <- <-. apply (Hm _ _ E).
Qed.

Lemma post_ret (a : A) w (Q : result A → World → Prop) :
  Q (Ok a) w → post (mret a) w Q.
Proof. intros HQ r w' [= <- <-]. done. Qed.

Lemma post_raise e w (Q : result A → World → Prop) :
  Q (Raise e) w → post (raise e) w Q.
Proof. intros HQ r w' [= <- <-]. done. Qed.

Lemma post_lift (x : result A) w (Q : result A → World → Prop) :
  Q x w → post (lift x) w Q.
Proof. intros HQ r w' [= <- <-]. done. Qed.
End post_rules.

Lemma post_skip (w : World) (Q : result () → World → Prop) : Q (Ok ()) w → post skip w Q.
Proof. apply post_ret. Qed.

Lemma post_print m (w : World) (Q : result () → World → Prop) :
  Q (Ok ()) (mkWorld (fs w) (downloads w) (ticks w) (out w ++ [m])) →
  post (print m) w Q.
Proof. intros HQ r w' [= <- <-]. done. Qed.

Lemma post_now env (w : World) (Q : result datetime → World → Prop) :
  Q (Ok (clock env (ticks w))) (mkWorld (fs w) (downloads w) (S (ticks w)) (out w)) →
  post (now env) w Q.
Proof. intros HQ r w' [= <- <-]. done. Qed.

Lemma post_get_fs (w : World) (Q : result (gmap (list string) Fs.node) → World → Prop) :
  Q (Ok (fs w)) w → post get_fs w Q.
Proof. intros HQ r w' [= <- <-]. done. Qed.

Lemma post_put_fs f (w : World) (Q : result () → World → Prop) :
  Q (Ok ()) (mkWorld f (downloads w) (ticks w) (out w)) → post (put_fs f) w Q.
Proof. intros HQ r w' [= <- <-]. done. Qed.

Lemma post_get_downloads (w : World) (Q : result (dict package_info) → World → Prop) :
  Q (Ok (downloads w)) w → post get_downloads w Q.
Proof. intros HQ r w' [= <- <-]. done. Qed.

Lemma post_put_downloads d (w : World) (Q : result () → World → Prop) :
  Q (Ok ()) (mkWorld (fs w) d (ticks w) (out w)) → post (put_downloads d) w Q.
Proof. intros HQ r w' [= <- <-]. done. Qed.

Lemma post_mkdir_p p (w : World) (Q : result () → World → Prop) :
  match Fs.mkdir_p (fs w) p with
  | Ok f' => Q (Ok ()) (mkWorld f' (downloads w) (ticks w) (out w))
  | Raise e => Q (Raise e) w
  end → post (mkdir_p p) w Q.
Proof.
  intros HQ. unfold mkdir_p. apply post_bind, post_get_fs, post_bind, post_lift.
  destruct (Fs.mkdir_p (fs w) p); [by apply post_put_fs|done].
Qed.

Lemma post_read_file p (w : World) (Q : result string → World → Prop) :
  Q (Fs.read (fs w) p) w → post (read_file p) w Q.
Proof.
  intros HQ. unfold read_file. apply post_bind, post_get_fs, post_lift. done.
Qed.

Lemma post_write_file p data (w : World) (Q : result () → World → Prop) :
  match Fs.write (fs w) p data with
  | Ok f' => Q (Ok ()) (mkWorld f' (downloads w) (ticks w) (out w))
  | Raise e => Q (Raise e) w
  end → post (write_file p data) w Q.
Proof.
  intros HQ. unfold write_file. apply post_bind, post_get_fs, post_bind, post_lift.
  destruct (Fs.write (fs w) p data); [by apply post_put_fs|done].
Qed.

Ltac post_step :=
  lazymatch goal with
  | |- post (mbind _ _) _ _ => apply post_bind
  | |- post (mret _) _ _ => apply post_ret
  | |- post skip _ _ => apply post_skip
  | |- post (raise _) _ _ => apply post_raise
  | |- post (lift _) _ _ => apply post_lift
  | |- post (print _) _ _ => apply post_print
  | |- post (now _) _ _ => apply post_now
  | |- post get_fs _ _ => apply post_get_fs
  | |- post (put_fs _) _ _ => apply post_put_fs
  | |- post get_downloads _ _ => apply post_get_downloads
  | |- post (put_downloads _) _ _ => apply post_put_downloads
  | |- post (mkdir_p _) _ _ => apply post_mkdir_p
  | |- post (read_file _) _ _ => apply post_read_file
  | |- post (write_file _ _) _ _ => apply post_write_file
  | |- post (if ?c then _ else _) _ _ => destruct c eqn:?
  | |- post (match ?x with _ => _ end) _ _ => destruct x eqn:?
  | |- match ?x with Ok _ => _ | Raise _ => _ end => destruct x eqn:?
  | |- post (let '(_, _) := ?x in _) _ _ => destruct x eqn:?
  end; cbn [fs downloads ticks out].

Ltac post_run := repeat post_step.


(** ** What a call records *)

Lemma entry_pinned_record_entry pid v e d :
  Dict.mem pid d = true → entry_pinned pid v (pinned e) (record_entry pid v e d).
Proof.
  intros [info Hinfo]%mem_get. unfold entry_pinned, lookup_entry, record_entry.
  exists e. rewrite get_alter_eq, Hinfo. simpl. split; [apply get_set_eq|done].
Qed.

Lemma entry_pinned_record_file pid v b pid' v' fn h d :
  entry_pinned pid v b d → entry_pinned pid v b (record_file pid' v' fn h d).
Proof.
  intros (e & He & Hb). unfold entry_pinned, lookup_entry, record_file in *.
  destruct (decide (pid' = pid)) as [->|Hpid].
  - rewrite get_alter_eq. destruct (Dict.get d pid) as [info|]; [simpl|done].
    destruct (decide (v' = v)) as [->|Hv].
    + eexists (mkEntry _ _ _ _). rewrite get_alter_eq, He. simpl.
      split; [reflexivity|done].
    + exists e. by rewrite get_alter_ne.
  - rewrite get_alter_ne by done. eauto.
Qed.

Lemma entry_pinned_stamp pid v b pid' t d :
  entry_pinned pid v b d →
  entry_pinned pid v b
    (Dict.alter (λ info, mkInfo (versions info) (Some t)) pid' d).
Proof.
  intros (e & He & Hb). unfold entry_pinned, lookup_entry in *.
  destruct (decide (pid' = pid)) as [->|Hpid].
  - rewrite get_alter_eq. destruct (Dict.get d pid) as [info|]; [simpl|done].
    eauto.
  - rewrite get_alter_ne by done. eauto.
Qed.

Lemma mem_set_eq {V} (d : dict V) k v : Dict.mem k (Dict.set k v d) = true.
Proof. unfold Dict.mem. by rewrite get_set_eq. Qed.

Lemma download_and_record_pinned env pid dd repo vf (w : World) pub pkg target
    installers :
  post (download_and_record env pid dd repo vf pub pkg target installers) w
    (λ r w', ∀ b : bool, r = Ok b →
       entry_pinned pid target (explicit vf) (downloads w')).
Proof.
  unfold download_and_record. post_run; intros b' [=];
    repeat first
      [ apply entry_pinned_stamp | apply entry_pinned_record_file ];
    apply (entry_pinned_record_entry pid target (mkEntry _ _ _ _));
    first [ done | apply mem_set_eq ].
Qed.

(** [locate_installers] reads the disk and prints at most one line, after
    which it returns [None]. *)

Lemma locate_installers_post env pid md vf (w : World) :
  post (locate_installers env pid md vf) w (λ r w',
    fs w' = fs w ∧ downloads w' = downloads w ∧ ticks w' = ticks w ∧
    (out w' = out w ∨
     r = Ok None ∧ ∃ m, out w' = out w ++ [m] ∧ locate_message pid m) ∧
    ∀ pub pkg target installers,
      r = Ok (Some (pub, pkg, target, installers)) →
      out w' = out w ∧ Py.split_once "." pid = Some (pub, pkg) ∧
      (explicit vf = true → vf = Some target)).
Proof.
  unfold locate_installers. post_run;
    (split_and!; [done|done|done| |]);
    try (by left); try (right; split; [done|]; eexists; split; [done|]);
    unfold locate_message; eauto; try (intros ???? [=]); subst.
  all: split_and!; try done.
  all: destruct vf as [v|]; [|done]; simpl in *; by simplify_eq.
Qed.

Lemma world_eq (w w' : World) :
  fs w' = fs w → downloads w' = downloads w → ticks w' = ticks w →
  out w' = out w → w' = w.
Proof. destruct w, w'; simpl; by intros -> -> -> ->. Qed.

Lemma locate_installers_found env pid md vf (w : World) x :
  (locate_installers env pid md vf w).1 = Ok (Some x) →
  locate_installers env pid md vf w = (Ok (Some x), w).
Proof.
  destruct (locate_installers env pid md vf w) as [r w'] eqn:E. simpl.
  intros ->. destruct x as [[[pub pkg] target] installers].
  destruct (locate_installers_post env pid md vf w _ _ E)
    as (Hfs & Hd & Ht & _ & Hfound).
  destruct (Hfound _ _ _ _ eq_refl) as (Hout & _).
  f_equal. by apply world_eq.
Qed.

Lemma process_package_found env pid md dd repo vf (w : World)
    pub pkg target installers :
  (locate_installers env pid md vf w).1 = Ok (Some (pub, pkg, target, installers)) →
  process_package env pid md dd repo vf w
  = download_and_record env pid dd repo vf pub pkg target installers w.
Proof.
  intros H%locate_installers_found. unfold process_package, mbind, M_bind.
  by rewrite H.
Qed.

(** ** A fetch that fails *)

Lemma app_self_nil {A} (l k : list A) : l = l ++ k → k = [].
Proof. intros H. apply (app_inv_head l). by rewrite app_nil_r. Qed.

Ltac added_lines H :=
  let msgs := fresh "msgs" in
  let Hout := fresh "Hout" in
  let Hlast := fresh "Hlast" in
  destruct H as (msgs & Hout & Hlast);
  rewrite <- ?(assoc_L (++)) in Hout;
  first [ apply app_inv_head in Hout | apply app_self_nil in Hout ];
  subst msgs; simpl in Hlast;
  try (destruct Hlast as [[=]|[=]]).

Lemma download_and_record_failed_fetch env pid dd repo vf (w : World)
    pub pkg target installers :
  post (download_and_record env pid dd repo vf pub pkg target installers) w
    (λ r w', fetch_failed pid (out w) (out w') →
       r = Ok false ∧
       Fs.mkdir_p (fs w) (dd // pub // pkg // target) = Ok (fs w') ∧
       ∃ rev ts,
         downloads w'
         = record_entry pid target (mkEntry rev [] ts (explicit vf))
             (with_package pid (downloads w))).
Proof.
  unfold download_and_record, with_package. post_run; intros Hf; added_lines Hf.
  all: split_and!; [done|done|]; eexists _, _; simplify_eq/=; try done.
  all: by match goal with H : Dict.mem _ _ = _ |- _ => rewrite H end.
Qed.

(** ** Candidate filtering and the choice of the target version *)

Lemma elem_of_valid_versions (l : list string) (v : string) :
  v ∈ valid_versions l ↔ v ∈ l ∧ is_ok (parse_version_safe v) = true.
Proof. unfold valid_versions. rewrite list_elem_of_filter. tauto. Qed.

Lemma max_from_elem (l : list string) best kbest v :
  max_from best kbest l = Ok v → v = best ∨ v ∈ l.
Proof.
  revert best kbest. induction l as [|x l IH]; simpl; intros best kbest H.
  - left. congruence.
  - destruct (parse_version_safe x) as [kx|]; simpl in H; [|done].
    destruct (Packaging.gt kx kbest); apply IH in H as [->|H];
      auto using list_elem_of_here, list_elem_of_further.
Qed.

Lemma max_by_version_elem (l : list string) v :
  max_by_version l = Ok v → v ∈ l.
Proof.
  destruct l as [|x l]; simpl; [done|].
  destruct (parse_version_safe x) as [kx|]; simpl; [|done].
  intros [->|H]%max_from_elem; auto using list_elem_of_here, list_elem_of_further.
Qed.

Lemma parse_version_safe_empty :
  parse_version_safe "" = Ok (Packaging.mkVersion 0 [0; 0; 0]%N None None None None).
Proof. reflexivity. Qed.




(** ** Verification *)

(** C10: a package that the state store does not hold fails verification:
    the report has [valid] false and an [error], and no versions. *)
Theorem validate_hashes_unknown_package (env : Env) (self : WingetPackage)
    (w : World) :
  Dict.get (downloads w) (package_id self) = None →
  validate_hashes env self w
  = Ok (mkReport false (Some "Package not in state") None).
Proof. intros H. unfold validate_hashes. by rewrite H. Qed.

Lemma validate_hashes_unknown_package_witness :
  Dict.get (downloads fresh) (package_id foo_bar) = None ∧
  validate_hashes (env unreachable) foo_bar fresh
  = Ok (mkReport false (Some "Package not in state") None).
Proof.
  split; [reflexivity|].
  apply (validate_hashes_unknown_package (env unreachable) foo_bar fresh).
  reflexivity.
Defined.

(** ** The file system *)

Lemma mkdir_from_lookup (pre rest : list string) (f f' : gmap (list string) Fs.node) k :
  Fs.mkdir_from pre rest f = Ok f' →
  f' !! k = f !! k ∨ (f !! k = None ∧ f' !! k = Some Fs.Dir).
Proof.
  revert pre f. induction rest as [|c rest IH]; simpl; intros pre f H.
  - left. congruence.
  - destruct (f !! (pre ++ [c])) as [[data|]|] eqn:E; [done|by eapply IH|].
    apply IH in H as [H|[H1 H2]].
    + destruct (decide (pre ++ [c] = k)) as [<-|Hne].
      * right. by rewrite H, lookup_insert_eq.
      * left. by rewrite H, lookup_insert_ne.
    + right. split; [|done].
      destruct (decide (pre ++ [c] = k)) as [<-|Hne].
      * by rewrite lookup_insert_eq in H1.
      * by rewrite lookup_insert_ne in H1.
Qed.

Lemma mkdir_from_dirs (pre rest : list string) (f f' : gmap (list string) Fs.node) i :
  Fs.mkdir_from pre rest f = Ok f' →
  0 < i ≤ length rest → f' !! (pre ++ take i rest) = Some Fs.Dir.
Proof.
  revert pre f i. induction rest as [|c rest IH]; simpl; intros pre f i H Hi.
  - lia.
  - destruct i as [|i]; [lia|]. simpl.
    assert (∀ g, Fs.mkdir_from (pre ++ [c]) rest g = Ok f' →
                 g !! (pre ++ [c]) = Some Fs.Dir →
                 f' !! (pre ++ c :: take i rest) = Some Fs.Dir) as Hstep.
    { intros g Hg Hdir. destruct (decide (i = 0)) as [->|].
      - rewrite take_0.
        destruct (mkdir_from_lookup _ _ _ _ (pre ++ [c]) Hg) as [->|[? _]];
          congruence.
      - rewrite (cons_middle c), (assoc_L (++)). eapply IH; [done|lia]. }
    destruct (f !! (pre ++ [c])) as [[data|]|] eqn:E; [done|by eapply Hstep|].
    eapply Hstep; [done|]. apply lookup_insert_eq.
Qed.

Lemma mkdir_from_again (pre rest : list string) (f : gmap (list string) Fs.node) :
  (∀ i, 0 < i ≤ length rest → f !! (pre ++ take i rest) = Some Fs.Dir) →
  Fs.mkdir_from pre rest f = Ok f.
Proof.
  revert pre. induction rest as [|c rest IH]; simpl; intros pre H; [done|].
  pose proof (H 1) as H1. simpl in H1. rewrite take_0 in H1.
  rewrite H1 by lia. apply IH. intros i Hi.
  rewrite <- (assoc_L (++)). apply (H (S i)). simpl. lia.
Qed.

(** [mkdir] creates directories where there was nothing, and touches
    nothing else. *)
Lemma mkdir_p_lookup (f f' : gmap (list string) Fs.node) p k :
  Fs.mkdir_p f p = Ok f' →
  f' !! k = f !! k ∨ (f !! k = None ∧ f' !! k = Some Fs.Dir).
Proof. apply mkdir_from_lookup. Qed.

Lemma mkdir_p_files (f f' : gmap (list string) Fs.node) p k data :
  Fs.mkdir_p f p = Ok f' →
  f' !! k = Some (Fs.File data) ↔ f !! k = Some (Fs.File data).
Proof.
  intros H. destruct (mkdir_p_lookup _ _ _ k H) as [->|[H1 H2]]; [done|].
  rewrite H1, H2. split; done.
Qed.

(** *** Names and paths *)

Lemma split_parts (sep : ascii) (s : string) :
  Forall (λ w, Py.all_chars (λ c, negb (Py.char_eqb c sep)) w = true)
         (Py.split sep s).
Proof.
  induction s as [|c s IH]; simpl.
  - by repeat constructor.
  - destruct (Py.char_eqb c sep) eqn:E.
    + by constructor.
    + destruct (Py.split sep s) as [|w ws]; inversion IH; subst;
        constructor; simpl; rewrite ?E; done.
Qed.

Lemma split_whole (sep : ascii) (s : string) :
  Py.all_chars (λ c, negb (Py.char_eqb c sep)) s = true → Py.split sep s = [s].
Proof.
  induction s as [|c s IH]; simpl; [done|].
  intros [Hc Hs]%andb_true_iff. apply negb_true_iff in Hc. rewrite Hc.
  by rewrite (IH Hs).
Qed.

Lemma name_no_slash (url : string) : no_slash (Fs.name url).
Proof.
  unfold Fs.name, no_slash.
  pose proof (split_parts "/" url) as H.
  assert (Forall (λ w, Py.all_chars (λ c, negb (Py.char_eqb c "/")) w = true)
            (filter (λ c, Fs.proper c = true) (Py.split "/" url))) as H'.
  { apply Forall_forall. intros x [_ Hx]%list_elem_of_filter.
    by apply (proj1 (Forall_forall _ _) H). }
  clear H. induction H' as [|w ws Hw Hws IH]; simpl; [done|].
  destruct ws; [done|]. apply IH.
Qed.

Lemma name_proper (url : string) :
  Fs.name url = "" ∨ Fs.proper (Fs.name url) = true.
Proof.
  unfold Fs.name.
  assert (Forall (λ c, Fs.proper c = true)
            (filter (λ c, Fs.proper c = true) (Py.split "/" url))) as H.
  { apply Forall_forall. by intros x [? _]%list_elem_of_filter. }
  induction H as [|w ws Hw Hws IH]; simpl; [by left|].
  destruct ws; [by right|]. apply IH.
Qed.

Lemma join_no_slash (p : Fs.path) (s : string) : no_slash s → p // s = p ++ [s].
Proof.
  intros Hs. unfold Fs.join. rewrite (split_whole _ _ Hs).
  destruct s as [|c s]; [done|]. unfold no_slash in Hs. simpl in Hs.
  apply andb_true_iff in Hs as [Hc _].
  destruct c as [[] [] [] [] [] [] [] []]; try done.
Qed.

Lemma norm_acc_app (acc : list string) (p q : Fs.path) :
  Fs.norm_acc acc (p ++ q) = Fs.norm_acc (rev (Fs.norm_acc acc p)) q.
Proof.
  revert acc. induction p as [|c p IH]; simpl; intros acc.
  - by rewrite rev_involutive.
  - destruct (negb (Fs.proper c)); [apply IH|].
    destruct (String.eqb c ".."); apply IH.
Qed.

Lemma norm_snoc (p : Fs.path) (c : string) :
  Fs.norm (p ++ [c])
  = if negb (Fs.proper c) then Fs.norm p
    else if String.eqb c ".." then removelast (Fs.norm p)
    else Fs.norm p ++ [c].
Proof.
  unfold Fs.norm. rewrite norm_acc_app. simpl.
  destruct (negb (Fs.proper c)); [by rewrite rev_involutive|].
  destruct (String.eqb c "..").
  - generalize (Fs.norm_acc [] p). intros l.
    induction l as [|x l IH] using rev_ind; [done|].
    rewrite rev_app_distr. simpl. rewrite rev_involutive.
    by rewrite removelast_last.
  - simpl. by rewrite rev_involutive.
Qed.

(** *** Writing *)

Lemma write_inv (f f' : gmap (list string) Fs.node) p data :
  Fs.write f p data = Ok f' →
  Fs.norm p ≠ [] ∧ f !! Fs.norm p ≠ Some Fs.Dir ∧
  Fs.lookup_norm f (removelast (Fs.norm p)) = Some Fs.Dir ∧
  f' = <[Fs.norm p := Fs.File data]> f.
Proof.
  unfold Fs.write. destruct (Fs.norm p) as [|c k] eqn:E; [done|].
  destruct (f !! (c :: k)) as [[d|]|] eqn:E1;
    destruct (Fs.lookup_norm f (removelast (c :: k))) as [[d'|]|] eqn:E2;
    try done; intros [= <-]; done.
Qed.

Lemma read_stat (f : gmap (list string) Fs.node) p data :
  Fs.read f p = Ok data ↔ Fs.stat f p = Some (Fs.File data).
Proof.
  unfold Fs.read. destruct (Fs.stat f p) as [[d|]|]; split; intros; simplify_eq; done.
Qed.

Lemma read_exists (f : gmap (list string) Fs.node) p data :
  Fs.read f p = Ok data → Fs.exists_ f p = true.
Proof. intros H%read_stat. unfold Fs.exists_. by rewrite H. Qed.

Lemma mkdir_p_dirs (f f' : gmap (list string) Fs.node) p i :
  Fs.mkdir_p f p = Ok f' →
  0 < i ≤ length (Fs.norm p) → f' !! take i (Fs.norm p) = Some Fs.Dir.
Proof. intros H Hi. by apply (mkdir_from_dirs [] _ _ _ _ H). Qed.

Lemma mkdir_p_again (f : gmap (list string) Fs.node) p :
  (∀ i, 0 < i ≤ length (Fs.norm p) → f !! take i (Fs.norm p) = Some Fs.Dir) →
  Fs.mkdir_p f p = Ok f.
Proof. intros H. by apply mkdir_from_again. Qed.

Lemma mkdir_p_stat (f f' : gmap (list string) Fs.node) p :
  Fs.mkdir_p f p = Ok f' → Fs.stat f' p = Some Fs.Dir.
Proof.
  intros H. unfold Fs.stat, Fs.lookup_norm.
  destruct (Fs.norm p) as [|c k] eqn:E; [done|].
  rewrite <- (firstn_all (c :: k)), <- E. apply (mkdir_p_dirs _ _ _ _ H).
  rewrite E. simpl. lia.
Qed.

(** A file written below a directory that [mkdir] made leaves the
    directory and its ancestors in place. *)
Lemma write_keeps_dirs (f f' : gmap (list string) Fs.node) q data k :
  Fs.write f q data = Ok f' → f !! k = Some Fs.Dir → f' !! k = Some Fs.Dir.
Proof.
  intros (_ & Hnd & _ & ->)%write_inv Hk.
  rewrite lookup_insert_ne; [done|]. intros Heq. by rewrite Heq in Hnd.
Qed.

Lemma write_read (f f' : gmap (list string) Fs.node) q data :
  Fs.write f q data = Ok f' → Fs.read f' q = Ok data.
Proof.
  intros (Hne & _ & _ & ->)%write_inv. apply read_stat.
  unfold Fs.stat, Fs.lookup_norm. destruct (Fs.norm q) eqn:E; [done|].
  apply lookup_insert_eq.
Qed.

(** ** The entry that a call writes *)

Lemma mem_with_package pid (d : dict package_info) :
  Dict.mem pid (with_package pid d) = true.
Proof.
  unfold with_package. destruct (Dict.mem pid d) eqn:E; [done|apply mem_set_eq].
Qed.

Lemma lookup_with_package pid pid' v (d : dict package_info) :
  lookup_entry pid' v (with_package pid d) = lookup_entry pid' v d.
Proof.
  unfold with_package, lookup_entry, Dict.mem.
  destruct (Dict.get d pid) eqn:E; [done|].
  destruct (decide (pid = pid')) as [<-|Hne].
  - by rewrite get_set_eq, E.
  - by rewrite get_set_ne.
Qed.

Lemma lookup_record_entry_eq pid v e (d : dict package_info) :
  Dict.mem pid d = true → lookup_entry pid v (record_entry pid v e d) = Some e.
Proof.
  intros [info Hinfo]%mem_get. unfold lookup_entry, record_entry.
  rewrite get_alter_eq, Hinfo. simpl. apply get_set_eq.
Qed.

Lemma lookup_record_entry_ne pid v v' e (d : dict package_info) :
  v ≠ v' → lookup_entry pid v' (record_entry pid v e d) = lookup_entry pid v' d.
Proof.
  intros Hne. unfold lookup_entry, record_entry. rewrite get_alter_eq.
  destruct (Dict.get d pid); simpl; [|done]. by apply get_set_ne.
Qed.

Lemma get_record_entry_ne pid pid' v e (d : dict package_info) :
  pid ≠ pid' → Dict.get (record_entry pid v e d) pid' = Dict.get d pid'.
Proof. intros Hne. unfold record_entry. by apply get_alter_ne. Qed.

Lemma get_with_package_ne pid pid' (d : dict package_info) :
  pid ≠ pid' → Dict.get (with_package pid d) pid' = Dict.get d pid'.
Proof.
  intros Hne. unfold with_package. destruct (Dict.mem pid d); [done|].
  by apply get_set_ne.
Qed.




(** C3, as stated, fails: [1.2.3] is pinned, a download without a version
    resolves to [1.2.3] again, and afterwards the entry is no longer
    pinned. *)
Lemma unpinned_download_clears_pin :
  entry_pinned "Foo.Bar" "1.2.3" true (downloads pinned_world) ∧
  (run (serving "installer bytes") None pinned_world).1 = Ok true ∧
  entry_pinned "Foo.Bar" "1.2.3" false (downloads refreshed_world).
Proof.
  split_and!.
  - exists (mkEntry "c0ffee" [("Bar-1.2.3.exe", "sha256(installer bytes)")]
              (mkDatetime 2026 1 0) true).
    split; vm_compute; reflexivity.
  - vm_compute; reflexivity.
  - exists (mkEntry "c0ffee" [("Bar-1.2.3.exe", "sha256(installer bytes)")]
              (mkDatetime 2026 1 2) false).
    split; vm_compute; reflexivity.
Qed.

(** C3, amended: a call that finds the manifest of its target version
    writes the entry of that version anew whatever was recorded, with
    [pinned] true exactly when the call itself names a version.  A download
    without a version therefore leaves its target unpinned, also when the
    entry was pinned before. *)
Theorem recorded_pin_is_that_of_the_call (env : Env) (pid : string)
    (md dd : Fs.path) (repo vf : option string) (w w' : World) (b : bool)
    (pub pkg target : string) (installers : yaml) :
  (locate_installers env pid md vf w).1
  = Ok (Some (pub, pkg, target, installers)) →
  process_package env pid md dd repo vf w = (Ok b, w') →
  entry_pinned pid target (explicit vf) (downloads w').
Proof.
  intros Hloc Hrun. rewrite (process_package_found _ _ _ _ _ _ _ _ _ _ _ Hloc) in Hrun.
  by eapply download_and_record_pinned.
Qed.

Lemma recorded_pin_is_that_of_the_call_witness :
  (locate_installers (env (serving "installer bytes")) "Foo.Bar"
     (mirror_dir mgr) None pinned_world).1
  = Ok (Some ("Foo", "Bar", "1.2.3",
              YList [YMap [("Architecture", YStr "x64");
                           ("InstallerUrl",
                            YStr "https://example.com/foo/Bar-1.2.3.exe");
                           ("InstallerSha256", YStr "ABCDEF")]])) ∧
  run (serving "installer bytes") None pinned_world
  = (Ok true, refreshed_world) ∧
  entry_pinned "Foo.Bar" "1.2.3" (explicit None) (downloads refreshed_world).
Proof.
  assert (run (serving "installer bytes") None pinned_world
          = (Ok true, refreshed_world)) as Hrun
    by (apply pair_eq; [vm_compute; reflexivity|reflexivity]).
  assert ((locate_installers (env (serving "installer bytes")) "Foo.Bar"
             (mirror_dir mgr) None pinned_world).1
          = Ok (Some ("Foo", "Bar", "1.2.3",
                      YList [YMap [("Architecture", YStr "x64");
                                   ("InstallerUrl",
                                    YStr "https://example.com/foo/Bar-1.2.3.exe");
                                   ("InstallerSha256", YStr "ABCDEF")]])))
    as Hloc by (vm_compute; reflexivity).
  split_and!; [exact Hloc|exact Hrun|].
  exact (recorded_pin_is_that_of_the_call (env (serving "installer bytes"))
           "Foo.Bar" (mirror_dir mgr) (downloads_dir mgr) (repo mgr) None
           pinned_world refreshed_world true "Foo" "Bar" "1.2.3" _ Hloc Hrun).
Defined.

(** ** The report of [validate_hashes], version by version *)

Lemma validate_versions_versions env self f items res rep :
  validate_versions env self f items res = Ok rep →
  is_Some (r_versions res) → is_Some (r_versions rep).
Proof.
  revert res. induction items as [|[v e] items IH]; simpl; intros res H Hres.
  - by injection H as <-.
  - destruct (validate_version env self f v e) as [vr|]; simpl in H; [|done].
    apply IH in H; [done|]. simpl. by eexists.
Qed.

Lemma validate_versions_other env self f items res rep v :
  validate_versions env self f items res = Ok rep →
  v ∉ Dict.keys items →
  Dict.get (default [] (r_versions rep)) v
  = Dict.get (default [] (r_versions res)) v.
Proof.
  revert res. induction items as [|[v' e] items IH]; simpl; intros res H Hv.
  - by injection H as <-.
  - apply not_elem_of_cons in Hv as [Hne Hv].
    destruct (validate_version env self f v' e) as [vr|]; simpl in H; [|done].
    rewrite (IH _ H Hv). simpl. by apply get_set_ne.
Qed.

(** The report holds, for each version of the package, what
    [validate_version] makes of it. *)
Lemma validate_versions_lookup env self f items res rep v e :
  validate_versions env self f items res = Ok rep →
  NoDup (Dict.keys items) → (v, e) ∈ items →
  ∃ vr, validate_version env self f v e = Ok vr ∧
        Dict.get (default [] (r_versions rep)) v = Some vr.
Proof.
  revert res. induction items as [|[v' e'] items IH]; simpl; intros res H Hnd Hin.
  - by apply elem_of_nil in Hin.
  - apply NoDup_cons in Hnd as [Hv' Hnd].
    destruct (validate_version env self f v' e') as [vr|] eqn:E; simpl in H; [|done].
    apply elem_of_cons in Hin as [[= -> ->]|Hin].
    + exists vr. split; [done|].
      rewrite (validate_versions_other _ _ _ _ _ _ _ H Hv'). simpl.
      apply get_set_eq.
    + by eapply IH.
Qed.

Lemma validate_versions_valid_start env self f items res rep :
  validate_versions env self f items res = Ok rep →
  valid rep = true → valid res = true.
Proof.
  revert res. induction items as [|[v e] items IH]; simpl; intros res H Hv.
  - by injection H as <-.
  - destruct (validate_version env self f v e) as [vr|]; simpl in H; [|done].
    apply IH in H; [|done]. simpl in H. by apply andb_true_iff in H as [? _].
Qed.

Lemma validate_versions_valid env self f items res rep v e vr :
  validate_versions env self f items res = Ok rep →
  (v, e) ∈ items → validate_version env self f v e = Ok vr →
  valid rep = true → v_valid vr = true.
Proof.
  revert res. induction items as [|[v' e'] items IH]; simpl; intros res H Hin Hvr Hv.
  - by apply elem_of_nil in Hin.
  - destruct (validate_version env self f v' e') as [vr'|] eqn:E; simpl in H; [|done].
    apply elem_of_cons in Hin as [Heq|Hin]; [|by eapply IH].
    injection Heq as <- <-. rewrite E in Hvr. injection Hvr as <-.
    apply validate_versions_valid_start in H; [|done]. simpl in H.
    by apply andb_true_iff in H as [_ ?].
Qed.

(** C8, as stated, fails: the entry of [1.2.3] records no file, its
    download directory holds [leftover.exe], and the report lists nothing
    as unexpected. *)
Lemma stray_file_is_not_reported :
  lookup_entry "Foo.Bar" "1.2.3" (downloads stray_world)
  = Some (mkEntry "c0ffee" [] (mkDatetime 2026 1 0) false) ∧
  Fs.iterdir (fs stray_world) (downloads_dir mgr // "Foo" // "Bar" // "1.2.3")
  = Ok [("leftover.exe", Fs.File "left over")] ∧
  validate_hashes (env unreachable) foo_bar stray_world
  = Ok (mkReport true None
          (Some [("1.2.3", mkVersionResult true [] [] [])])).
Proof. split_and!; vm_compute; reflexivity. Qed.

(** C8, amended: a version whose entry records no file is passed over
    before its download directory is looked at.  Its result is the initial
    one, valid and with three empty lists, whatever the directory holds, and
    this is what the report gives for the version. *)
Theorem version_without_files_is_passed_over (env : Env)
    (self : WingetPackage) (w : World) (info : package_info)
    (version : string) (vdata : entry) :
  Dict.get (downloads w) (package_id self) = Some info →
  NoDup (Dict.keys (versions info)) →
  Dict.get (versions info) version = Some vdata →
  files vdata = [] →
  validate_version env self (fs w) version vdata
  = Ok (mkVersionResult true [] [] []) ∧
  ∀ rep, validate_hashes env self w = Ok rep →
         ∃ vs, r_versions rep = Some vs ∧
               Dict.get vs version = Some (mkVersionResult true [] [] []).
Proof.
  intros Hinfo Hnd Hv Hfiles.
  assert (validate_version env self (fs w) version vdata
          = Ok (mkVersionResult true [] [] [])) as Hvr.
  { unfold validate_version. by rewrite Hfiles. }
  split; [done|]. intros rep Hrep. unfold validate_hashes in Hrep.
  rewrite Hinfo in Hrep.
  destruct (validate_versions_versions _ _ _ _ _ _ Hrep) as [vs Hvs];
    [by eexists|].
  exists vs. split; [done|].
  destruct (validate_versions_lookup _ _ _ _ _ _ version vdata Hrep Hnd)
    as (vr & Hvr' & Hget); [by apply get_elem_of|].
  rewrite Hvs in Hget. simpl in Hget. congruence.
Qed.

Lemma version_without_files_is_passed_over_witness :
  Dict.get (downloads stray_world) (package_id foo_bar)
  = Some (mkInfo [("1.2.3", mkEntry "c0ffee" [] (mkDatetime 2026 1 0) false)]
            None) ∧
  NoDup (Dict.keys [("1.2.3", mkEntry "c0ffee" [] (mkDatetime 2026 1 0) false)]) ∧
  Dict.get [("1.2.3", mkEntry "c0ffee" [] (mkDatetime 2026 1 0) false)] "1.2.3"
  = Some (mkEntry "c0ffee" [] (mkDatetime 2026 1 0) false) ∧
  files (mkEntry "c0ffee" [] (mkDatetime 2026 1 0) false) = [] ∧
  validate_version (env unreachable) foo_bar (fs stray_world) "1.2.3"
    (mkEntry "c0ffee" [] (mkDatetime 2026 1 0) false)
  = Ok (mkVersionResult true [] [] []) ∧
  ∀ rep, validate_hashes (env unreachable) foo_bar stray_world = Ok rep →
         ∃ vs, r_versions rep = Some vs ∧
               Dict.get vs "1.2.3" = Some (mkVersionResult true [] [] []).
Proof.
  assert (Dict.get (downloads stray_world) (package_id foo_bar)
          = Some (mkInfo [("1.2.3", mkEntry "c0ffee" []
                                      (mkDatetime 2026 1 0) false)] None))
    as Hinfo by (vm_compute; reflexivity).
  assert (NoDup (Dict.keys [("1.2.3", mkEntry "c0ffee" []
                                        (mkDatetime 2026 1 0) false)]))
    as Hnd by (apply NoDup_singleton).
  split_and!; [exact Hinfo|exact Hnd|reflexivity|reflexivity|..];
    apply (version_without_files_is_passed_over (env unreachable) foo_bar
             stray_world _ "1.2.3" _ Hinfo Hnd eq_refl eq_refl).
Defined.

(** ** A download that succeeds, and the same download again *)

Lemma mem_alter {V} (f : V → V) (d : dict V) k k' :
  Dict.mem k (Dict.alter f k' d) = Dict.mem k d.
Proof.
  unfold Dict.mem. destruct (decide (k' = k)) as [->|Hne].
  - rewrite get_alter_eq. by destruct (Dict.get d k).
  - by rewrite get_alter_ne.
Qed.

Lemma recorded_files_lookup pid v (d : dict package_info) :
  recorded_files pid v d
  = match lookup_entry pid v d with Some e => files e | None => [] end.
Proof. unfold recorded_files, lookup_entry. by destruct (Dict.get d pid). Qed.

Lemma recorded_files_record_entry pid v e (d : dict package_info) :
  Dict.mem pid d = true → recorded_files pid v (record_entry pid v e d) = files e.
Proof.
  intros H. by rewrite recorded_files_lookup, lookup_record_entry_eq.
Qed.

Lemma recorded_files_record_file pid v fn h (d : dict package_info) :
  is_Some (lookup_entry pid v d) →
  recorded_files pid v (record_file pid v fn h d)
  = Dict.set fn h (recorded_files pid v d).
Proof.
  unfold recorded_files, lookup_entry, record_file. intros [e He].
  rewrite get_alter_eq. destruct (Dict.get d pid) as [info|]; [simpl|done].
  rewrite get_alter_eq, He. done.
Qed.

Lemma recorded_files_stamp pid pid' v t (d : dict package_info) :
  recorded_files pid v
    (Dict.alter (λ info, mkInfo (versions info) (Some t)) pid' d)
  = recorded_files pid v d.
Proof.
  unfold recorded_files. destruct (decide (pid' = pid)) as [->|Hne].
  - rewrite get_alter_eq. by destruct (Dict.get d pid).
  - by rewrite get_alter_ne.
Qed.

Lemma mem_record_entry pid pid' v e (d : dict package_info) :
  Dict.mem pid (record_entry pid' v e d) = Dict.mem pid d.
Proof. apply mem_alter. Qed.

Lemma mem_record_file pid pid' v fn h (d : dict package_info) :
  Dict.mem pid (record_file pid' v fn h d) = Dict.mem pid d.
Proof. apply mem_alter. Qed.

Lemma mkdir_p_twice (f f' : gmap (list string) Fs.node) p :
  Fs.mkdir_p f p = Ok f' → Fs.mkdir_p f' p = Ok f'.
Proof. intros H. apply mkdir_p_again. intros i Hi. by eapply mkdir_p_dirs. Qed.

Lemma mkdir_p_after_write (f f1 f2 : gmap (list string) Fs.node) p q data :
  Fs.mkdir_p f p = Ok f1 → Fs.write f1 q data = Ok f2 →
  Fs.mkdir_p f2 p = Ok f2.
Proof.
  intros H Hw. apply mkdir_p_again. intros i Hi.
  eapply write_keeps_dirs; [done|]. by eapply mkdir_p_dirs.
Qed.

Lemma recorded_files_recorded pid v fn h e (d : dict package_info) :
  Dict.mem pid d = true →
  recorded_files pid v (record_file pid v fn h (record_entry pid v e d))
  = Dict.set fn h (files e).
Proof.
  intros Hmem. rewrite recorded_files_record_file.
  - by rewrite recorded_files_record_entry.
  - rewrite lookup_record_entry_eq by done. by eexists.
Qed.

Lemma recorded_files_final pid v fn h e t (d : dict package_info) :
  Dict.mem pid d = true → files e = [] →
  recorded_files pid v
    (Dict.alter (λ info, mkInfo (versions info) (Some t)) pid
       (record_file pid v fn h (record_entry pid v e d)))
  = [(fn, h)].
Proof.
  intros Hmem He. rewrite recorded_files_stamp, recorded_files_record_file.
  - by rewrite recorded_files_record_entry, He.
  - rewrite lookup_record_entry_eq by done. by eexists.
Qed.

Lemma mem_final pid v fn h e t (d : dict package_info) :
  Dict.mem pid
    (Dict.alter (λ info, mkInfo (versions info) (Some t)) pid
       (record_file pid v fn h (record_entry pid v e d)))
  = Dict.mem pid d.
Proof. by rewrite mem_alter, mem_record_file, mem_record_entry. Qed.

Lemma download_and_record_success env pid dd repo vf (w : World)
    pub pkg target installers :
  post (download_and_record env pid dd repo vf pub pkg target installers) w
    (λ r w1, r = Ok true →
       ∃ hexsha items inst url sha data,
         repo = Some hexsha ∧ Yaml.iter installers = Ok items ∧
         choose_installer items = Ok (Some inst) ∧
         Yaml.get inst "InstallerUrl" = Ok (Some (YStr url)) ∧
         Yaml.get inst "InstallerSha256" = Ok sha ∧
         Fs.mkdir_p (fs w1) (dd // pub // pkg // target) = Ok (fs w1) ∧
         Fs.read (fs w1) (dd // pub // pkg // target // Fs.name url) = Ok data ∧
         recorded_files pid target (downloads w1)
         = [(Fs.name url, sha256_hex env data)] ∧
         Dict.mem pid (downloads w1) = true).
Proof.
  unfold download_and_record. post_run; intros [=].
  all: rewrite ?recorded_files_record_entry in * by first [done|apply mem_set_eq].
  all: try done.
  all: eexists _, _, _, _, _, _; split_and!; try done.
  all: try (rewrite mem_final; first [done|apply mem_set_eq]).
  all: try (apply recorded_files_final; first [done|apply mem_set_eq]).
  all: eauto using mkdir_p_twice, mkdir_p_after_write.
Qed.

(** Two equations for the value of one expression: keep one. *)
Ltac known_results :=
  repeat (simplify_eq;
          match goal with
          | H1 : ?x = _, H2 : ?x = _ |- _ => rewrite H1 in H2
          end);
  simplify_eq.

Lemma download_and_record_again env pid dd repo vf (w1 : World)
    pub pkg target installers hexsha items inst url sha data :
  repo = Some hexsha → Yaml.iter installers = Ok items →
  choose_installer items = Ok (Some inst) →
  Yaml.get inst "InstallerUrl" = Ok (Some (YStr url)) →
  Yaml.get inst "InstallerSha256" = Ok sha →
  Fs.mkdir_p (fs w1) (dd // pub // pkg // target) = Ok (fs w1) →
  Fs.read (fs w1) (dd // pub // pkg // target // Fs.name url) = Ok data →
  Dict.mem pid (downloads w1) = true →
  post (download_and_record env pid dd repo vf pub pkg target installers) w1
    (λ r w2, r = Ok true ∧ fs w2 = fs w1 ∧ ticks w2 = S (S (ticks w1)) ∧
             out w2 = out w1 ++ [Already_up_to_date pid] ∧
             recorded_files pid target (downloads w2)
             = [(Fs.name url, sha256_hex env data)]).
Proof.
  intros Hrepo Hiter Hchoose Hurl Hsha Hmk Hread Hmem.
  pose proof (read_exists _ _ _ Hread) as Hex.
  unfold download_and_record. post_run; known_results.
  all: rewrite ?recorded_files_recorded, ?recorded_files_record_entry in *
    by done.
  all: try done.
  all: split_and!; try done.
  all: apply recorded_files_final; done.
Qed.

Lemma process_package_true env pid md dd repo vf (w w1 : World) :
  process_package env pid md dd repo vf w = (Ok true, w1) →
  ∃ pub pkg target installers,
    (locate_installers env pid md vf w).1
    = Ok (Some (pub, pkg, target, installers)).
Proof.
  unfold process_package, mbind, M_bind.
  destruct (locate_installers env pid md vf w) as [[[[[[pub pkg] target] i]|]|e] wl];
    simpl; [by eauto|by intros [=]..].
Qed.

(** C2, as stated, fails: the second download of [1.2.3] on explicit
    request fetches nothing and says that the package is up to date, and
    returns [True] as the first did. *)
Lemma second_download_returns_true :
  (run (serving "installer bytes") (Some "1.2.3") fresh).1 = Ok true ∧
  (run (serving "installer bytes") (Some "1.2.3") pinned_world).1 = Ok true ∧
  out (run (serving "installer bytes") (Some "1.2.3") pinned_world).2
  = out pinned_world ++ [Already_up_to_date "Foo.Bar"].
Proof. split_and!; vm_compute; reflexivity. Qed.

(** C2, amended: when a download of an explicit version has returned
    [True] and the repository still gives the same installers for that
    version, the same download again fetches nothing, writes nothing to the
    disk, records the same checksums, and returns [True] again: the value
    returned tells that the version has a recorded file, not that one was
    newly fetched. *)
Theorem second_download_records_the_same (env : Env) (pid : string)
    (md dd : Fs.path) (repo : option string) (v : string) (w w1 : World) :
  Py.truthy v = true →
  process_package env pid md dd repo (Some v) w = (Ok true, w1) →
  (locate_installers env pid md (Some v) w1).1
  = (locate_installers env pid md (Some v) w).1 →
  ∃ w2,
    process_package env pid md dd repo (Some v) w1 = (Ok true, w2) ∧
    recorded_files pid v (downloads w2) = recorded_files pid v (downloads w1) ∧
    recorded_files pid v (downloads w1) ≠ [] ∧
    fs w2 = fs w1 ∧
    out w2 = out w1 ++ [Already_up_to_date pid].
Proof.
  intros Hv Hrun Hsame.
  destruct (process_package_true _ _ _ _ _ _ _ _ Hrun)
    as (pub & pkg & target & installers & Hloc).
  assert (target = v) as ->.
  { destruct (locate_installers env pid md (Some v) w) as [rl wl] eqn:El.
    simpl in Hloc. subst rl.
    destruct (locate_installers_post _ _ _ _ _ _ _ El) as (_ & _ & _ & _ & Hf).
    destruct (Hf _ _ _ _ eq_refl) as (_ & _ & Ht). by injection (Ht Hv). }
  rewrite (process_package_found _ _ _ _ _ _ _ _ _ _ _ Hloc) in Hrun.
  destruct (download_and_record_success _ _ _ _ _ _ _ _ _ _ _ _ Hrun eq_refl)
    as (hexsha & items & inst & url & sha & data & Hrepo & Hiter & Hchoose
        & Hurl & Hsha & Hmk & Hread & Hfiles & Hmem).
  rewrite <- Hsame in Hloc.
  rewrite (process_package_found _ _ _ _ _ _ _ _ _ _ _ Hloc).
  destruct (download_and_record env pid dd repo (Some v) pub pkg v installers w1)
    as [r2 w2] eqn:E2.
  destruct (download_and_record_again _ _ _ _ (Some v) _ _ _ _ _ _ _ _ _ _ _
              Hrepo Hiter Hchoose Hurl Hsha Hmk Hread Hmem _ _ E2)
    as (-> & Hfs & _ & Hout & Hfiles2).
  exists w2. split_and!; try done; by rewrite ?Hfiles2, Hfiles.
Qed.

Lemma second_download_records_the_same_witness :
  Py.truthy "1.2.3" = true ∧
  run (serving "installer bytes") (Some "1.2.3") fresh = (Ok true, pinned_world) ∧
  (locate_installers (env (serving "installer bytes")) "Foo.Bar"
     (mirror_dir mgr) (Some "1.2.3") pinned_world).1
  = (locate_installers (env (serving "installer bytes")) "Foo.Bar"
       (mirror_dir mgr) (Some "1.2.3") fresh).1 ∧
  ∃ w2,
    run (serving "installer bytes") (Some "1.2.3") pinned_world = (Ok true, w2) ∧
    recorded_files "Foo.Bar" "1.2.3" (downloads w2)
    = recorded_files "Foo.Bar" "1.2.3" (downloads pinned_world) ∧
    recorded_files "Foo.Bar" "1.2.3" (downloads pinned_world) ≠ [] ∧
    fs w2 = fs pinned_world ∧
    out w2 = out pinned_world ++ [Already_up_to_date "Foo.Bar"].
Proof.
  assert (run (serving "installer bytes") (Some "1.2.3") fresh
          = (Ok true, pinned_world)) as Hrun
    by (apply pair_eq; [vm_compute; reflexivity|reflexivity]).
  assert ((locate_installers (env (serving "installer bytes")) "Foo.Bar"
             (mirror_dir mgr) (Some "1.2.3") pinned_world).1
          = (locate_installers (env (serving "installer bytes")) "Foo.Bar"
               (mirror_dir mgr) (Some "1.2.3") fresh).1) as Hsame
    by (vm_compute; reflexivity).
  split_and!; [reflexivity|exact Hrun|exact Hsame|].
  exact (second_download_records_the_same (env (serving "installer bytes"))
           "Foo.Bar" (mirror_dir mgr) (downloads_dir mgr) (repo mgr) "1.2.3"
           fresh pinned_world eq_refl Hrun Hsame).
Defined.

(** ** A download whose hash differs from the manifest's, then verified *)

Lemma written_name (f f1 f2 : gmap (list string) Fs.node) (d : Fs.path)
    (url body : string) :
  Fs.mkdir_p f d = Ok f1 → Fs.write f1 (d // Fs.name url) body = Ok f2 →
  Fs.norm (d // Fs.name url) = Fs.norm d ++ [Fs.name url].
Proof.
  intros Hmk (Hne & Hnd & _ & _)%write_inv.
  rewrite (join_no_slash _ _ (name_no_slash url)) in *.
  rewrite norm_snoc in *.
  destruct (negb (Fs.proper (Fs.name url))).
  { exfalso. apply Hnd. rewrite <- (firstn_all (Fs.norm d)).
    apply (mkdir_p_dirs _ _ _ _ Hmk). destruct (Fs.norm d); simpl; [done|lia]. }
  destruct (String.eqb (Fs.name url) ".."); [|done].
  exfalso. apply Hnd. rewrite removelast_firstn_len in *.
  apply (mkdir_p_dirs _ _ _ _ Hmk).
  destruct (Fs.norm d) as [|c [|c' k]]; simpl in *; [done|done|lia].
Qed.

Lemma write_keeps_stat_dir (f f' : gmap (list string) Fs.node) q data p :
  Fs.write f q data = Ok f' → Fs.stat f p = Some Fs.Dir →
  Fs.stat f' p = Some Fs.Dir.
Proof.
  unfold Fs.stat, Fs.lookup_norm. intros Hw.
  destruct (Fs.norm p); [done|]. by apply (write_keeps_dirs _ _ _ _ _ Hw).
Qed.

Lemma child_of_snoc (d : list string) (c : string) (n : Fs.node) :
  Fs.child_of d (d ++ [c], n) = Some (c, n).
Proof.
  unfold Fs.child_of. simpl. rewrite map_app. simpl. rewrite last_last.
  by rewrite decide_True.
Qed.

Lemma child_of_inv (d k : list string) (c : string) (n n' : Fs.node) :
  Fs.child_of d (k, n) = Some (c, n') → k = d ++ [c] ∧ n' = n.
Proof.
  unfold Fs.child_of. simpl.
  destruct (List.last (map Some k) None) as [c'|]; [|done].
  case_decide; [|done]. by intros [= <- <-].
Qed.

Lemma actual_files_of_acc (entries : list (string * Fs.node)) acc c :
  (∀ n, (c, n) ∉ entries) →
  Dict.get (fold_left (λ acc e,
              match e.2 with
              | Fs.File data => Dict.set e.1 data acc
              | Fs.Dir => acc
              end) entries acc) c
  = Dict.get acc c.
Proof.
  revert acc. induction entries as [|[c' n] entries IH]; simpl; intros acc H; [done|].
  rewrite IH.
  - destruct n as [data|]; simpl; [|done]. apply get_set_ne. intros ->.
    apply (H (Fs.File data)). left.
  - intros n' Hin. apply (H n'). by right.
Qed.

Lemma actual_files_of_get (entries : list (string * Fs.node)) c data :
  (c, Fs.File data) ∈ entries →
  (∀ n, (c, n) ∈ entries → n = Fs.File data) →
  Dict.get (actual_files_of entries) c = Some data.
Proof.
  unfold actual_files_of. generalize (@nil (string * string)).
  induction entries as [|[c' n] entries IH]; simpl; intros acc Hin Huniq.
  - by apply elem_of_nil in Hin.
  - destruct (decide (c ∈ entries.*1)) as [Hyes|Hno].
    + apply list_elem_of_fmap in Hyes as [[c0 n'] [-> Hn']]. simpl in *.
      apply IH.
      * by rewrite <- (Huniq n') by by right.
      * intros n'' H. apply Huniq. by right.
    + assert (∀ n', (c, n') ∉ entries) as Hno'.
      { intros n' H. apply Hno. apply list_elem_of_fmap. by exists (c, n'). }
      rewrite actual_files_of_acc by done.
      apply elem_of_cons in Hin as [[= <- <-]|Hin]; [|by apply Hno' in Hin].
      simpl. apply get_set_eq.
Qed.

Lemma iterdir_file (f : gmap (list string) Fs.node) (d : Fs.path)
    (c data : string) entries :
  Fs.iterdir f d = Ok entries →
  f !! (Fs.norm d ++ [c]) = Some (Fs.File data) →
  Dict.get (actual_files_of entries) c = Some data.
Proof.
  unfold Fs.iterdir. destruct (Fs.stat f d) as [[?|]|]; try done.
  intros [= <-] Hc. apply actual_files_of_get.
  - apply list_elem_of_omap. exists (Fs.norm d ++ [c], Fs.File data).
    split; [by apply elem_of_map_to_list|apply child_of_snoc].
  - intros n ([k n'] & Hk & Hch)%list_elem_of_omap.
    apply child_of_inv in Hch as [-> ->].
    apply elem_of_map_to_list in Hk. congruence.
Qed.

(** What [validate_version] makes of a version whose one recorded file is
    on the disk with the recorded hash *)
Lemma validate_version_one_file (env : Env) (self : WingetPackage)
    (f : gmap (list string) Fs.node) (version : string) (e : entry)
    (name data : string) :
  files e = [(name, sha256_hex env data)] →
  Fs.stat f (downloads_dir (manager self) // pub self // pkg self // version)
  = Some Fs.Dir →
  f !! (Fs.norm (downloads_dir (manager self) // pub self // pkg self // version)
        ++ [name]) = Some (Fs.File data) →
  ∃ unexpected,
    validate_version env self f version e
    = Ok (mkVersionResult true
            [(name, mkFileResult MATCH (sha256_hex env data)
                      (sha256_hex env data))]
            [] unexpected).
Proof.
  intros Hfiles Hdir Hfile. unfold validate_version. rewrite Hfiles. simpl.
  unfold Fs.exists_. rewrite Hdir. simpl.
  destruct (Fs.iterdir f _) as [entries|] eqn:E.
  - simpl. rewrite (iterdir_file _ _ _ _ _ E Hfile). simpl.
    rewrite String.eqb_refl. simpl. by eexists.
  - unfold Fs.iterdir in E. by rewrite Hdir in E.
Qed.

Ltac lines_equal H :=
  rewrite <- ?(assoc_L (++)) in H;
  first [ apply app_inv_head in H | apply app_self_nil in H ];
  simplify_eq/=.

Lemma download_and_record_mismatch env pid dd repo vf (w : World)
    pub pkg target installers url filepath expected computed :
  post (download_and_record env pid dd repo vf pub pkg target installers) w
    (λ r w',
       out w' = out w ++ [Downloading url filepath;
                          Warn_hash_mismatch filepath expected computed] →
       r = Ok true ∧ computed ≠ Py.lower expected ∧
       ∃ f1 body e0 t,
         Fs.mkdir_p (fs w) (dd // pub // pkg // target) = Ok f1 ∧
         Fs.write f1 (dd // pub // pkg // target // Fs.name url) body
         = Ok (fs w') ∧
         http_get env url = Body body ∧ computed = sha256_hex env body ∧
         files e0 = [] ∧
         downloads w'
         = Dict.alter (λ info, mkInfo (versions info) (Some t)) pid
             (record_file pid target (Fs.name url) computed
                (record_entry pid target e0 (with_package pid (downloads w))))).
Proof.
  unfold download_and_record, with_package. post_run; intros Hout; lines_equal Hout.
  all: rewrite ?recorded_files_recorded in * by first [done|apply mem_set_eq].
  all: try done.
  all: match goal with
       | Hw : Fs.write _ _ _ = Ok _, Hr : Fs.read _ _ = Ok _ |- _ =>
           rewrite (write_read _ _ _ _ Hw) in Hr; injection Hr as <-
       end.
  all: split_and!; [done|by apply String.eqb_neq, negb_true_iff|].
  all: eexists _, _, (mkEntry _ [] _ _), _; split_and!; try done.
  all: by match goal with H : Dict.mem _ _ = _ |- _ => rewrite H end.
Qed.

Lemma get_final pid v fn h e t (d : dict package_info) info0 :
  Dict.get d pid = Some info0 →
  Dict.get
    (Dict.alter (λ info, mkInfo (versions info) (Some t)) pid
       (record_file pid v fn h (record_entry pid v e d))) pid
  = Some (mkInfo
            (Dict.alter (λ e, mkEntry (git_rev e) (Dict.set fn h (files e))
                                (timestamp e) (pinned e)) v
               (Dict.set v e (versions info0)))
            (Some t)).
Proof.
  intros H. unfold record_file, record_entry.
  rewrite !get_alter_eq, H. done.
Qed.

Lemma get_with_package pid (d : dict package_info) :
  ∃ info0, Dict.get (with_package pid d) pid = Some info0 ∧
           (Dict.get d pid = Some info0 ∨ versions info0 = []).
Proof.
  unfold with_package, Dict.mem. destruct (Dict.get d pid) as [info|] eqn:E.
  - exists info. auto.
  - eexists. rewrite get_set_eq. split; [done|by right].
Qed.

(** C4, as stated, fails: the installer of [1.2.3] does not have the hash
    that the manifest declares; the download warns and records the file, and
    the verification that follows reports the file as [MATCH] and the package
    as valid. *)
Lemma mismatch_verifies_as_match :
  run (serving "installer bytes") (Some "1.2.3") fresh = (Ok true, pinned_world) ∧
  out pinned_world
  = [Downloading "https://example.com/foo/Bar-1.2.3.exe" installer_file;
     Warn_hash_mismatch installer_file "ABCDEF" "sha256(installer bytes)"] ∧
  validate_hashes (env unreachable) foo_bar pinned_world
  = Ok (mkReport true None
          (Some [("1.2.3",
                  mkVersionResult true
                    [("Bar-1.2.3.exe",
                      mkFileResult MATCH "sha256(installer bytes)"
                        "sha256(installer bytes)")] [] [])])).
Proof.
  split_and!; [|vm_compute; reflexivity..].
  apply pair_eq; [vm_compute; reflexivity|reflexivity].
Qed.

(** C4, amended: a fetched file whose hash differs from the one the
    manifest declares is recorded all the same, under the hash computed from
    its content, and the download returns [True] after a warning.
    Verification compares the file with the recorded hash, not with the
    manifest's: it reports the file as [MATCH], with no file missing, and
    the version as valid. *)
Theorem mismatch_is_recorded_and_verifies (env : Env) (self : WingetPackage)
    (vf : option string) (w w' : World) (r : result bool)
    (url : string) (filepath : Fs.path) (expected computed : string) :
  get_package (manager self) (package_id self) = Ok self →
  (∀ info, Dict.get (downloads w) (package_id self) = Some info →
           NoDup (Dict.keys (versions info))) →
  download env self vf w = (r, w') →
  out w' = out w ++ [Downloading url filepath;
                     Warn_hash_mismatch filepath expected computed] →
  r = Ok true ∧ computed ≠ Py.lower expected ∧
  ∃ target e unexpected,
    lookup_entry (package_id self) target (downloads w') = Some e ∧
    files e = [(Fs.name url, computed)] ∧
    validate_version env self (fs w') target e
    = Ok (mkVersionResult true
            [(Fs.name url, mkFileResult MATCH computed computed)]
            [] unexpected) ∧
    ∀ rep, validate_hashes env self w' = Ok rep →
           ∃ vs, r_versions rep = Some vs ∧
                 Dict.get vs target
                 = Some (mkVersionResult true
                           [(Fs.name url, mkFileResult MATCH computed computed)]
                           [] unexpected).
Proof.
  intros Hself Hnd Hrun Hout. unfold download, process_package, mbind, M_bind in Hrun.
  destruct (locate_installers env (package_id self) (mirror_dir (manager self))
              vf w) as [rl wl] eqn:El.
  destruct (locate_installers_post _ _ _ _ _ _ _ El)
    as (Hfs & Hd & Ht & Hout' & Hfound).
  destruct rl as [[[[[pub0 pkg0] target] installers]|]|err].
  2: { injection Hrun as <- <-. exfalso.
       destruct Hout' as [Ho|(_ & m & Ho & _)]; rewrite Ho in Hout;
         lines_equal Hout. }
  2: { injection Hrun as <- <-. exfalso.
       destruct Hout' as [Ho|([=] & _)]. rewrite Ho in Hout. lines_equal Hout. }
  destruct (Hfound _ _ _ _ eq_refl) as (Ho & Hsplit & _).
  assert (wl = w) as -> by by apply world_eq.
  unfold get_package in Hself. rewrite Hsplit in Hself.
  assert (pub self = pub0 ∧ pkg self = pkg0) as [Hpub Hpkg].
  { injection Hself as Hself. by rewrite <- Hself. }
  destruct (download_and_record_mismatch _ _ _ _ _ _ _ _ _ _ _ _ _ _ _ _ Hrun Hout)
    as (-> & Hne & f1 & body & e0 & t & Hmk & Hw & _ & -> & He0 & Hdl).
  split; [done|]. split; [done|].
  destruct (get_with_package (package_id self) (downloads w))
    as (info0 & Hinfo0 & Horig).
  pose proof (get_final _ target (Fs.name url) (sha256_hex env body) e0 t _ _
                Hinfo0) as Hget.
  rewrite <- Hdl in Hget.
  set (e' := mkEntry (git_rev e0)
               (Dict.set (Fs.name url) (sha256_hex env body) (files e0))
               (timestamp e0) (pinned e0)).
  assert (lookup_entry (package_id self) target (downloads w') = Some e') as He'.
  { unfold lookup_entry. rewrite Hget. simpl.
    by rewrite get_alter_eq, get_set_eq. }
  assert (files e' = [(Fs.name url, sha256_hex env body)]) as Hfiles.
  { unfold e'. simpl. by rewrite He0. }
  destruct (validate_version_one_file env self (fs w') target e' (Fs.name url)
              body Hfiles) as [unexpected Hvv].
  { rewrite Hpub, Hpkg. eapply write_keeps_stat_dir; [done|].
    by eapply mkdir_p_stat. }
  { rewrite Hpub, Hpkg. rewrite <- (written_name _ _ _ _ _ _ Hmk Hw).
    apply write_inv in Hw as (_ & _ & _ & ->). apply lookup_insert_eq. }
  exists target, e', unexpected. split_and!; try done.
  intros rep Hrep. unfold validate_hashes in Hrep. rewrite Hget in Hrep.
  simpl in Hrep.
  destruct (validate_versions_versions _ _ _ _ _ _ Hrep) as [vs Hvs];
    [by eexists|].
  exists vs. split; [done|].
  destruct (validate_versions_lookup _ _ _ _ _ _ target e' Hrep)
    as (vr & Hvr & Hgetv).
  - apply nodup_keys_alter, nodup_keys_set.
    destruct Horig as [Horig| ->]; [by eapply Hnd|constructor].
  - apply get_elem_of. by rewrite get_alter_eq, get_set_eq.
  - rewrite Hvs in Hgetv. simpl in Hgetv. congruence.
Qed.

Lemma mismatch_is_recorded_and_verifies_witness :
  get_package (manager foo_bar) (package_id foo_bar) = Ok foo_bar ∧
  (∀ info, Dict.get (downloads fresh) (package_id foo_bar) = Some info →
           NoDup (Dict.keys (versions info))) ∧
  download (env (serving "installer bytes")) foo_bar (Some "1.2.3") fresh
  = (Ok true, pinned_world) ∧
  out pinned_world
  = out fresh ++ [Downloading "https://example.com/foo/Bar-1.2.3.exe"
                    installer_file;
                  Warn_hash_mismatch installer_file "ABCDEF"
                    "sha256(installer bytes)"] ∧
  Ok true = Ok true ∧ "sha256(installer bytes)" ≠ Py.lower "ABCDEF" ∧
  ∃ target e unexpected,
    lookup_entry (package_id foo_bar) target (downloads pinned_world) = Some e ∧
    files e = [(Fs.name "https://example.com/foo/Bar-1.2.3.exe",
                "sha256(installer bytes)")] ∧
    validate_version (env (serving "installer bytes")) foo_bar
      (fs pinned_world) target e
    = Ok (mkVersionResult true
            [(Fs.name "https://example.com/foo/Bar-1.2.3.exe",
              mkFileResult MATCH "sha256(installer bytes)"
                "sha256(installer bytes)")]
            [] unexpected) ∧
    ∀ rep, validate_hashes (env (serving "installer bytes")) foo_bar
             pinned_world = Ok rep →
           ∃ vs, r_versions rep = Some vs ∧
                 Dict.get vs target
                 = Some (mkVersionResult true
                           [(Fs.name "https://example.com/foo/Bar-1.2.3.exe",
                             mkFileResult MATCH "sha256(installer bytes)"
                               "sha256(installer bytes)")]
                           [] unexpected).
Proof.
  assert (get_package (manager foo_bar) (package_id foo_bar) = Ok foo_bar)
    as Hself by reflexivity.
  assert (∀ info, Dict.get (downloads fresh) (package_id foo_bar) = Some info →
                  NoDup (Dict.keys (versions info))) as Hnd
    by (intros info [=]).
  assert (download (env (serving "installer bytes")) foo_bar (Some "1.2.3") fresh
          = (Ok true, pinned_world)) as Hrun
    by (apply pair_eq; [vm_compute; reflexivity|reflexivity]).
  assert (out pinned_world
          = out fresh ++ [Downloading "https://example.com/foo/Bar-1.2.3.exe"
                            installer_file;
                          Warn_hash_mismatch installer_file "ABCDEF"
                            "sha256(installer bytes)"]) as Hout
    by (vm_compute; reflexivity).
  split_and!; [exact Hself|exact Hnd|exact Hrun|exact Hout|..];
    apply (mismatch_is_recorded_and_verifies (env (serving "installer bytes"))
             foo_bar (Some "1.2.3") fresh pinned_world (Ok true) _ _ _ _
             Hself Hnd Hrun Hout).
Defined.

(** ** Patched manifests *)

Lemma patch_installer_rewritten server_url pid pub pkg version installer r :
  patch_installer server_url pid pub pkg version installer = Ok r →
  r.1 = rewritten_installer server_url pub pkg version installer.
Proof.
  unfold patch_installer, rewritten_installer.
  destruct installer as [| | | |l|d]; try done.
  - by destruct (contains _ _); intros [= <-].
  - by destruct (existsb _ _); intros [= <-].
  - destruct (Dict.get d "InstallerUrl") as [[]|]; try done; by intros [= <-].
Qed.

Lemma patch_installers_rewritten server_url pid pub pkg version l r :
  patch_installers server_url pid pub pkg version l = Ok r →
  r.1 = map (rewritten_installer server_url pub pkg version) l.
Proof.
  revert r. induction l as [|i l IH]; simpl; intros r.
  - by intros [= <-].
  - destruct (patch_installer server_url pid pub pkg version i) as [ri|] eqn:Ei;
      simpl; [|done].
    destruct (patch_installers server_url pid pub pkg version l) as [rl|];
      simpl; [|done].
    intros [= <-]. simpl. f_equal; [by eapply patch_installer_rewritten|by apply IH].
Qed.

Lemma patch_manifest_patched server_url pid pub pkg version manifest r :
  patch_manifest server_url pid pub pkg version manifest = Ok r →
  r.1 = patched_manifest server_url pub pkg version manifest.
Proof.
  unfold patch_manifest, patched_manifest, is_installer_manifest.
  destruct manifest as [| | | |l|d]; try done.
  destruct (Yaml.eq_str (Dict.get d "ManifestType") "installer");
    [|by intros [= <-]].
  destruct (Dict.get d "Installers") as [v|]; [|by intros [= <-]].
  destruct v as [| | | |l|d'].
  1-4,6: by (unfold rbind; intros H; repeat case_match; simplify_eq).
  destruct (patch_installers server_url pid pub pkg version l) as [rl|] eqn:E;
    simpl; [|done].
  intros [= <-]. simpl. by rewrite (patch_installers_rewritten _ _ _ _ _ _ _ E).
Qed.

Lemma post_prints (l : list message) (w : World) (Q : result () → World → Prop) :
  Q (Ok ()) (mkWorld (fs w) (downloads w) (ticks w) (out w ++ l)) →
  post (prints l) w Q.
Proof.
  revert w. induction l as [|m l IH]; simpl; intros w HQ.
  - apply post_skip. rewrite app_nil_r in HQ. by destruct w.
  - apply post_bind, post_print, IH. simpl.
    by rewrite <- (assoc_L (++)).
Qed.

Lemma rstrip_id (p : ascii → bool) (s : string) :
  (∀ c, last_char s = Some c → p c = false) → Py.rstrip p s = s.
Proof.
  induction s as [|c s IH]; simpl; [done|]. intros H.
  rewrite IH.
  - destruct s; [|done]. by rewrite (H c).
  - intros c' Hc'. apply H. destruct s; [done|]. done.
Qed.

Lemma patch_file_post env server_url pid pub pkg version src tgt name (w : World) :
  post (patch_file env server_url pid pub pkg version src tgt name) w
    (λ r w', r = Ok () →
       ∃ text manifest,
         Fs.read (fs w) (src // name) = Ok text ∧
         yaml_safe_load env text = Ok manifest ∧
         Fs.read (fs w') (tgt // name)
         = Ok (yaml_dump env
                 (patched_manifest server_url pub pkg version manifest))).
Proof.
  unfold patch_file. repeat post_step; try done.
  apply post_prints. cbn [fs downloads ticks out].
  repeat post_step; try done. intros _.
  eexists _, _. split_and!; try done.
  erewrite <- patch_manifest_patched by done. by eapply write_read.
Qed.


(** In the same run the installer manifest of [Foo.Bar 1.2.3] is written
    with the URL of the mirror. *)
Lemma patch_run_rewrites_the_installer_manifest :
  Fs.read (fs patch_run.2) (patched_dir ++ ["Foo.Bar.installer.yaml"])
  = Ok patched_dumped.
Proof. vm_compute; reflexivity. Qed.



(** ** Retention *)

Lemma insert_by_elem {A} (ltb : A → A → bool) (x y : A) (l : list A) :
  y ∈ insert_by ltb x l ↔ y = x ∨ y ∈ l.
Proof.
  induction l as [|z l IH]; simpl.
  - rewrite list_elem_of_singleton, elem_of_nil. tauto.
  - destruct (ltb z x); rewrite !elem_of_cons, ?IH; tauto.
Qed.

Lemma sort_by_elem {A} (ltb : A → A → bool) (y : A) (l : list A) :
  y ∈ sort_by ltb l ↔ y ∈ l.
Proof.
  induction l as [|x l IH]; simpl; [done|].
  rewrite insert_by_elem, elem_of_cons, IH. tauto.
Qed.

Lemma insert_by_length {A} (ltb : A → A → bool) (x : A) (l : list A) :
  length (insert_by ltb x l) = S (length l).
Proof.
  induction l as [|z l IH]; simpl; [done|].
  destruct (ltb z x); simpl; by rewrite ?IH.
Qed.

Lemma sort_by_length {A} (ltb : A → A → bool) (l : list A) :
  length (sort_by ltb l) = length l.
Proof.
  induction l as [|x l IH]; simpl; [done|]. by rewrite insert_by_length, IH.
Qed.

(** Sorting by a key does not look at what else an item carries. *)
Lemma insert_by_map {A B} (g : A → B) (ltA : A → A → bool) (ltB : B → B → bool)
    (x : A) (l : list A) :
  (∀ a, a ∈ l → ltA a x = ltB (g a) (g x)) →
  map g (insert_by ltA x l) = insert_by ltB (g x) (map g l).
Proof.
  induction l as [|z l IH]; simpl; intros H; [done|].
  rewrite H by left. destruct (ltB (g z) (g x)); simpl; [|done].
  rewrite IH; [done|]. intros a Ha. apply H. by right.
Qed.

Lemma sort_by_map {A B} (g : A → B) (ltA : A → A → bool) (ltB : B → B → bool)
    (l : list A) :
  (∀ a b, a ∈ l → b ∈ l → ltA a b = ltB (g a) (g b)) →
  map g (sort_by ltA l) = sort_by ltB (map g l).
Proof.
  induction l as [|x l IH]; simpl; intros H; [done|].
  rewrite (insert_by_map g ltA ltB).
  - rewrite IH; [done|]. intros a b Ha Hb. apply H; by right.
  - intros a Ha%sort_by_elem. apply H; [by right|left].
Qed.

Lemma keyed_items (items : list (string * entry)) keyed :
  rmapM (λ item : string * entry,
           rbind (parse_version_safe item.1) (λ k, Ok (k, item))) items
  = Ok keyed →
  map snd keyed = items ∧
  Forall (λ ki, parse_version_safe ki.2.1 = Ok ki.1) keyed.
Proof.
  revert keyed. induction items as [|item items IH]; simpl; intros keyed.
  - intros [= <-]. by split.
  - destruct (parse_version_safe item.1) as [k|] eqn:E; simpl; [|done].
    destruct (rmapM _ items) as [keyed'|]; simpl; [|done].
    intros [= <-]. destruct (IH _ eq_refl) as [Hs Hf]. simpl.
    split; [by rewrite Hs|by constructor].
Qed.

Lemma keyed_items_ok (items : list (string * entry)) :
  Forall (λ item, is_ok (parse_version_safe item.1) = true) items →
  ∃ keyed,
    rmapM (λ item : string * entry,
             rbind (parse_version_safe item.1) (λ k, Ok (k, item))) items
    = Ok keyed.
Proof.
  induction 1 as [|item items Hi Hitems [keyed IH]]; simpl; [by eexists|].
  destruct (parse_version_safe item.1) as [k|]; [|done]. simpl.
  rewrite IH. simpl. by eexists.
Qed.

Lemma age_rule_elem now ma (unpinned td : list (string * entry)) item :
  item ∈ age_rule now ma unpinned td → item ∈ td ∨ item ∈ unpinned.
Proof.
  unfold age_rule. revert td.
  induction unpinned as [|x l IH]; simpl; intros td H; [by left|].
  apply IH in H as [H|H]; [|by right; right].
  destruct (_ && _); [|by left].
  apply elem_of_app in H as [H|H%list_elem_of_singleton]; [by left|].
  right. rewrite H. left.
Qed.

Lemma age_rule_none now ma (unpinned td : list (string * entry)) :
  Forall (λ item, (age_months now (timestamp item.2) ≤ ma)%Z) unpinned →
  age_rule now ma unpinned td = td.
Proof.
  unfold age_rule. induction 1 as [|x l Hx Hl IH]; simpl; [done|].
  assert ((age_months now (timestamp x.2) >? ma)%Z = false) as ->; [|done].
  rewrite Z.gtb_ltb. by apply Z.ltb_ge.
Qed.

Lemma slice_to_elem {A} (stop : Z) (l : list A) (x : A) :
  x ∈ slice_to stop l → x ∈ l.
Proof.
  unfold slice_to. intros (i & Hi & _)%elem_of_take.
  by eapply list_elem_of_lookup_2.
Qed.

(** What [cleanup] selects is among the unpinned entries of the state. *)
Lemma to_delete_unpinned now mv ma (versions : dict entry) l item :
  to_delete now mv ma versions = Ok l → item ∈ l →
  item ∈ versions ∧ pinned item.2 = false.
Proof.
  unfold to_delete.
  destruct (filter _ versions) as [|u us] eqn:Ef.
  { intros [= <-] H. by apply elem_of_nil in H. }
  rewrite <- Ef. clear u us Ef.
  destruct (rmapM _ _) as [keyed|] eqn:Ek; simpl; [|done].
  apply keyed_items in Ek as [Hitems _].
  intros [= <-] Hin.
  assert (item ∈ filter (λ item, pinned item.2 = false) versions) as H.
  { rewrite <- Hitems.
    apply age_rule_elem in Hin as [Hin|Hin].
    - destruct (_ >? _)%Z; [|by apply elem_of_nil in Hin].
      apply slice_to_elem in Hin.
      apply list_elem_of_fmap in Hin as [ki [-> Hki]].
      apply sort_by_elem in Hki. apply list_elem_of_fmap. eauto.
    - apply list_elem_of_fmap in Hin as [ki [-> Hki]].
      apply sort_by_elem in Hki. apply list_elem_of_fmap. eauto. }
  apply list_elem_of_filter in H. tauto.
Qed.

Lemma filter_all {A} (P : A → Prop) `{∀ x, Decision (P x)} (l : list A) :
  Forall P l → filter P l = l.
Proof.
  induction 1 as [|x l Hx Hl IH]; [done|].
  rewrite filter_cons_True by done. by rewrite IH.
Qed.

(** Whatever the order in which the state holds them, the four labels of
    the example sort as [1.0], [1.1], [1.2], [1.3]. *)
Lemma four_labels_sorted (keys : list string) :
  keys ≡ₚ ["1.0"; "1.1"; "1.2"; "1.3"] →
  sort_by label_lt keys = ["1.0"; "1.1"; "1.2"; "1.3"].
Proof.
  intros Hp.
  assert (NoDup keys) as Hnd.
  { rewrite Hp. apply (bool_decide_unpack _). by vm_compute. }
  assert (∀ k, k ∈ keys → k ∈ ["1.0"; "1.1"; "1.2"; "1.3"]) as Hin.
  { intros k. by rewrite Hp. }
  pose proof (Permutation_length Hp) as Hlen.
  destruct keys as [|k1 [|k2 [|k3 [|k4 [|]]]]]; try done.
  pose proof (Hin k1 ltac:(repeat constructor)) as H1.
  pose proof (Hin k2 ltac:(repeat constructor)) as H2.
  pose proof (Hin k3 ltac:(repeat constructor)) as H3.
  pose proof (Hin k4 ltac:(repeat constructor)) as H4.
  clear Hin Hp Hlen.
  repeat match goal with
         | H : _ ∈ _ :: _ |- _ => apply elem_of_cons in H as [->|H]
         | H : _ ∈ [] |- _ => by apply elem_of_nil in H
         end.
  all: try (exfalso; revert Hnd; apply (bool_decide_eq_false_1 _);
            vm_compute; reflexivity).
  all: vm_compute; reflexivity.
Qed.

Lemma four_labels_parse (k : string) :
  k ∈ ["1.0"; "1.1"; "1.2"; "1.3"] → is_ok (parse_version_safe k) = true.
Proof.
  intros H.
  repeat (apply elem_of_cons in H as [->|H]; [vm_compute; reflexivity|]).
  by apply elem_of_nil in H.
Qed.

(** C5: over a state that holds exactly the unpinned versions [1.0], [1.1],
    [1.2] and [1.3], none older than the age threshold, [cleanup] with a cap
    of two selects [1.0] and [1.1], everything but the two highest; and over
    any state, whatever the cap and the ages, every version it selects is an
    unpinned entry of the state, so that a pinned version is never
    selected. *)
Theorem cleanup_selects_beyond_the_cap_and_never_the_pinned :
  (∀ (now : datetime) (max_age_months : Z) (versions : dict entry),
     Dict.keys versions ≡ₚ ["1.0"; "1.1"; "1.2"; "1.3"] →
     (∀ item, item ∈ versions →
        pinned item.2 = false ∧
        (age_months now (timestamp item.2) ≤ max_age_months)%Z) →
     ∃ l, to_delete now 2 max_age_months versions = Ok l ∧
          map fst l = ["1.0"; "1.1"]) ∧
  (∀ (now : datetime) (max_versions max_age_months : Z) (versions : dict entry)
     (l : list (string * entry)) (item : string * entry),
     to_delete now max_versions max_age_months versions = Ok l →
     item ∈ l → item ∈ versions ∧ pinned item.2 = false).
Proof.
  split; [|intros; by eapply to_delete_unpinned].
  intros now ma versions Hkeys Hall.
  assert (Forall (λ item : string * entry, pinned item.2 = false) versions) as Hunp.
  { apply Forall_forall. intros item Hi. by apply Hall. }
  assert (∃ keyed,
            rmapM (λ item : string * entry,
                     rbind (parse_version_safe item.1) (λ k, Ok (k, item)))
                  versions = Ok keyed) as [keyed Hkeyed].
  { apply keyed_items_ok, Forall_forall. intros item Hi.
    apply four_labels_parse. rewrite <- Hkeys.
    apply list_elem_of_fmap. eauto. }
  pose proof (Permutation_length Hkeys) as Hlen.
  unfold Dict.keys in Hlen. rewrite length_map in Hlen. simpl in Hlen.
  unfold to_delete. rewrite (filter_all _ _ Hunp), Hkeyed.
  destruct versions as [|v0 vs] eqn:Ev; [done|]. rewrite <- Ev in *. simpl.
  destruct (keyed_items _ _ Hkeyed) as [Hitems Hparsed].
  set (sorted := map snd (sort_by (λ a b : Packaging.Version * (string * entry),
                                     Packaging.lt a.1 b.1) keyed)).
  assert (map fst sorted = ["1.0"; "1.1"; "1.2"; "1.3"]) as Hsorted.
  { unfold sorted. rewrite map_map.
    rewrite (sort_by_map (λ ki : Packaging.Version * (string * entry), ki.2.1)
               _ label_lt).
    - rewrite <- (map_map snd fst), Hitems. by apply four_labels_sorted.
    - intros a b Ha Hb. unfold label_lt.
      rewrite (proj1 (Forall_forall _ _) Hparsed a Ha).
      by rewrite (proj1 (Forall_forall _ _) Hparsed b Hb). }
  assert (length sorted = 4) as Hlen'.
  { by rewrite <- (length_map fst), Hsorted. }
  rewrite Hlen'. simpl. rewrite age_rule_none.
  - eexists. split; [done|]. unfold slice_to. rewrite Hlen'. simpl.
    rewrite <- firstn_map, Hsorted. done.
  - apply Forall_forall. intros item Hi. apply Hall.
    unfold sorted in Hi. apply list_elem_of_fmap in Hi as [ki [-> Hki]].
    apply sort_by_elem in Hki. rewrite <- Hitems.
    apply list_elem_of_fmap. eauto.
Qed.

Lemma cleanup_selects_beyond_the_cap_and_never_the_pinned_witness :
  ∃ l, to_delete (mkDatetime 2026 11 0) 2 6
         [("1.2", mkEntry "c0ffee" [] (mkDatetime 2026 9 0) false);
          ("1.0", mkEntry "c0ffee" [] (mkDatetime 2026 6 0) false);
          ("1.3", mkEntry "c0ffee" [] (mkDatetime 2026 10 0) false);
          ("1.1", mkEntry "c0ffee" [] (mkDatetime 2026 7 0) false)] = Ok l ∧
       map fst l = ["1.0"; "1.1"].
Proof.
  apply (proj1 cleanup_selects_beyond_the_cap_and_never_the_pinned).
  - apply (bool_decide_unpack _). by vm_compute.
  - intros item Hi.
    repeat (apply elem_of_cons in Hi as [->|Hi]; [by vm_compute|]).
    by apply elem_of_nil in Hi.
Defined.

(** ** The version pattern on dotted numbers *)

Import Re.

Section rmatch_equations.
Implicit Types (r : regex) (s : string) (c : captures) (k : cont).

Lemma rmatch_Cat r1 r2 s c k :
  rmatch (Cat r1 r2) s c k = rmatch r1 s c (λ s' c', rmatch r2 s' c' k).
Proof. reflexivity. Qed.

Lemma rmatch_Cls p a s c k :
  rmatch (Cls p) (String a s) c k = if p a then k s c else None.
Proof. reflexivity. Qed.

Lemma rmatch_Star r s c k :
  rmatch (Star r) s c k = star_loop (rmatch r) (String.length s) s c k.
Proof. reflexivity. Qed.

Lemma rmatch_Opt r s c k :
  rmatch (Opt r) s c k
  = match rmatch r s c k with Some x => Some x | None => k s c end.
Proof. reflexivity. Qed.

Lemma rmatch_Grp g r s c k :
  rmatch (Grp g r) s c k
  = rmatch r s c (λ s' c', k s' (set_group g (consumed s s') c')).
Proof. reflexivity. Qed.

Lemma star_loop_S (m : string → captures → cont → option captures)
    (fuel : nat) s c k :
  star_loop m (S fuel) s c k
  = match m s c (λ s' c',
             if (String.length s' <? String.length s)%nat
             then star_loop m fuel s' c' k else None) with
    | Some r => Some r
    | None => k s c
    end.
Proof. reflexivity. Qed.
End rmatch_equations.

Lemma star_cls_greedy (p : ascii → bool) (fuel : nat) (ds rest : string)
    (c : captures) (k : cont) (x : captures) :
  Py.all_chars p ds = true → starts_with p rest = false →
  (String.length ds ≤ fuel)%nat → k rest c = Some x →
  star_loop (rmatch (Cls p)) fuel (ds +:+ rest) c k = Some x.
Proof.
  revert fuel. induction ds as [|a ds IH]; simpl; intros fuel Hds Hrest Hfuel Hk.
  - destruct fuel as [|fuel]; simpl; [done|].
    destruct rest as [|b rest]; simpl in *; [done|]. by rewrite Hrest.
  - destruct fuel as [|fuel]; [lia|]. simpl.
    apply andb_true_iff in Hds as [Ha Hds]. rewrite Ha.
    rewrite (proj2 (Nat.ltb_lt _ _)) by lia.
    rewrite IH; [done..|lia|done].
Qed.

Lemma star_cls_none (p : ascii → bool) (fuel : nat) (s : string)
    (c : captures) (k : cont) :
  (∀ s', drops p s s' → k s' c = None) →
  star_loop (rmatch (Cls p)) fuel s c k = None.
Proof.
  revert s. induction fuel as [|fuel IH]; simpl; intros s H.
  - apply H. constructor.
  - destruct s as [|a s].
    + apply H. constructor.
    + destruct (p a) eqn:Ha; [|apply H; constructor].
      destruct (_ <? _)%nat.
      * rewrite IH; [apply H; constructor|].
        intros s' Hs'. apply H. by constructor.
      * apply H. constructor.
Qed.

Lemma digit_not_space (a : ascii) : Py.is_digit a = true → Py.is_space a = false.
Proof. destruct a as [[] [] [] [] [] [] [] []]; by vm_compute. Qed.

Lemma digit_not_v (a : ascii) :
  Py.is_digit a = true → Py.char_eqb (Py.lower_char a) "v" = false.
Proof. destruct a as [[] [] [] [] [] [] [] []]; by vm_compute. Qed.

Lemma digit_not_bang (a : ascii) :
  Py.is_digit a = true → Py.char_eqb "!" a = false.
Proof. destruct a as [[] [] [] [] [] [] [] []]; by vm_compute. Qed.

(** After any number of leading digits of a dotted number comes a digit, a
    dot or the end, never [!]. *)
Lemma drops_dotted (d : string) (ps : list string) (s' : string) :
  Py.all_chars Py.is_digit d = true →
  drops Py.is_digit (d +:+ dotted ps) s' →
  starts_with (Py.char_eqb "!") s' = false.
Proof.
  intros Hd Hdr. remember (d +:+ dotted ps) as s eqn:Es.
  revert d Hd Es. induction Hdr as [s|a s s' Ha Hdr IH]; intros d Hd Es.
  - subst s. destruct d as [|a d]; simpl in *.
    + by destruct ps.
    + apply andb_true_iff in Hd as [Ha _]. by apply digit_not_bang.
  - destruct d as [|b d]; simpl in *.
    + destruct ps as [|d' ps]; [done|]. simpl in Es. injection Es as -> _.
      done.
    + injection Es as -> ->. apply andb_true_iff in Hd as [_ Hd]. by eapply IH.
Qed.

Lemma dotted_start (ps : list string) : starts_with Py.is_digit (dotted ps) = false.
Proof. by destruct ps. Qed.

Lemma length_append (a b : string) :
  String.length (a +:+ b) = (String.length a + String.length b)%nat.
Proof. induction a as [|x a IH]; simpl; by rewrite ?IH. Qed.

Lemma dotted_length (ps : list string) :
  (length ps ≤ String.length (dotted ps))%nat.
Proof.
  induction ps as [|d ps IH]; simpl; [lia|]. rewrite !length_append. simpl. lia.
Qed.

(** [[0-9]+] takes all the digits there are. *)
Lemma digits_greedy (d rest : string) (c : captures) (k : cont) (x : captures) :
  digit_string d → starts_with Py.is_digit rest = false → k rest c = Some x →
  rmatch Packaging.digits (d +:+ rest) c k = Some x.
Proof.
  intros [Hne Hd] Hrest Hk. destruct d as [|a d]; [done|]. simpl in Hd.
  apply andb_true_iff in Hd as [Ha Hd].
  unfold Packaging.digits, Plus. rewrite rmatch_Cat.
  change (String a d +:+ rest) with (String a (d +:+ rest)).
  rewrite rmatch_Cls, Ha, rmatch_Star.
  apply star_cls_greedy; [done|done|rewrite length_append; lia|done].
Qed.

(** The iterations [(?:\.[0-9]+)*] take the dotted parts one by one. *)
Lemma star_dotted (fuel : nat) (ps : list string) (c : captures) (k : cont)
    (x : captures) :
  Forall digit_string ps → (length ps ≤ fuel)%nat → k "" c = Some x →
  star_loop (rmatch (Cat (Cls (Py.char_eqb ".")) Packaging.digits)) fuel
    (dotted ps) c k = Some x.
Proof.
  intros Hps. revert fuel. induction Hps as [|d ps Hd Hps IH];
    intros fuel Hfuel Hk.
  - destruct fuel; simpl; done.
  - destruct fuel as [|fuel]; [simpl in Hfuel; lia|].
    rewrite star_loop_S.
    match goal with
    | |- match ?t with _ => _ end = _ => assert (t = Some x) as ->; [|done]
    end.
    rewrite rmatch_Cat.
    change (dotted (d :: ps)) with (String "." (d +:+ dotted ps)).
    rewrite rmatch_Cls. change (Py.char_eqb "." ".") with true. cbv iota.
    apply digits_greedy; [done|apply dotted_start|].
    rewrite (proj2 (Nat.ltb_lt _ _)).
    + apply IH; [simpl in Hfuel; lia|done].
    + simpl. rewrite !length_append. destruct Hd as [Hne _].
      destruct d; [done|]. simpl. lia.
Qed.

Lemma consumed_all (s : string) : consumed s "" = s.
Proof.
  unfold consumed. simpl. rewrite Nat.sub_0_r.
  induction s as [|a s IH]; simpl; [done|]. by rewrite IH.
Qed.

(** The whole pattern on a dotted number: the release group takes
    everything, and no other group takes part. *)
Lemma search_dotted (d : string) (ps : list string) :
  digit_string d → Forall digit_string ps →
  search Packaging._regex (d +:+ dotted ps)
  = Some (set_group g_release (d +:+ dotted ps) no_captures).
Proof.
  intros Hdig Hps. pose proof Hdig as [Hne Hd].
  destruct d as [|a d]; [done|]. simpl in Hd.
  apply andb_true_iff in Hd as [Ha Hd].
  set (s := String a d +:+ dotted ps).
  unfold search, Packaging._regex, Packaging.VERSION_PATTERN.
  cbn [seq]. rewrite rmatch_Cat, rmatch_Star.
  apply (star_cls_greedy Py.is_space _ "" s);
    [done|by apply digit_not_space|simpl; lia|].
  rewrite !rmatch_Cat, rmatch_Opt.
  unfold chr_i at 1. unfold s at 1.
  change (String a d +:+ dotted ps) with (String a (d +:+ dotted ps)).
  rewrite rmatch_Cls, (digit_not_v _ Ha).
  unfold Packaging.epoch_re. rewrite rmatch_Cat, rmatch_Opt, rmatch_Cat, rmatch_Grp.
  unfold Packaging.digits at 1, Plus. unfold s at 1.
  change (String a d +:+ dotted ps) with (String a (d +:+ dotted ps)).
  rewrite rmatch_Cat, rmatch_Cls, Ha.
  rewrite rmatch_Star, star_cls_none.
  2: { intros s' Hs'. apply (drops_dotted d ps) in Hs'; [|done].
       destruct s' as [|b s']; [done|]. unfold starts_with in Hs'.
       rewrite rmatch_Cls. by rewrite Hs'. }
  unfold Packaging.release_re. rewrite rmatch_Cat, rmatch_Grp, rmatch_Cat.
  fold s. apply digits_greedy; [done|apply dotted_start|].
  rewrite rmatch_Star. apply star_dotted; [done|apply dotted_length|].
  rewrite consumed_all. reflexivity.
Qed.

Lemma join_dotted (d : string) (ps : list string) :
  Py.join "." (d :: ps) = d +:+ dotted ps.
Proof.
  revert d. induction ps as [|d' ps IH]; intros d.
  - simpl. induction d as [|a d IHd]; [done|].
    change (String a d +:+ "") with (String a (d +:+ "")). by f_equal.
  - change (Py.join "." (d :: d' :: ps))
      with (d +:+ "." +:+ Py.join "." (d' :: ps)).
    rewrite IH. done.
Qed.

Lemma uint_digits (u : Decimal.uint) :
  Py.all_chars Py.is_digit (NilEmpty.string_of_uint u) = true.
Proof. induction u; simpl; done. Qed.

Lemma str_digit_string (z : Z) : (0 ≤ z)%Z → digit_string (Py.str z).
Proof.
  intros Hz. unfold Py.str, Py.str_N.
  destruct z as [|p|p]; [| |lia].
  - by split.
  - unfold NilZero.string_of_uint. split.
    + by destruct (N.to_uint _).
    + destruct (N.to_uint _) eqn:E; try apply (uint_digits (_ u)); done.
Qed.

(** A string of three or more dotted numbers, none negative, is a valid
    version. *)
Lemma parse_dotted (zs : list Z) :
  zs ≠ [] → Forall (λ z, (0 ≤ z)%Z) zs →
  is_Some (Packaging.parse (Py.join "." (map Py.str zs))).
Proof.
  intros Hne Hzs. destruct zs as [|z zs]; [done|].
  apply Forall_cons in Hzs as [Hz Hzs]. simpl map. rewrite join_dotted.
  unfold Packaging.parse. rewrite search_dotted; [by eexists| |].
  - by apply str_digit_string.
  - apply Forall_fmap. eapply Forall_impl; [done|]. apply str_digit_string.
Qed.

Lemma parse_version_safe_total_on_non_negative (v : string) :
  Forall (λ z, (0 ≤ z)%Z) (leading_ints (Py.split "." v)) →
  is_ok (parse_version_safe v) = true.
Proof.
  intros H. unfold parse_version_safe.
  destruct (Packaging.parse v); [done|].
  destruct (parse_dotted (pad3 (leading_ints (Py.split "." v)))) as [ver Hver].
  - unfold pad3. destruct (leading_ints _) as [|? [|? [|]]]; done.
  - unfold pad3. apply Forall_app. split; [done|].
    apply Forall_forall. intros z Hz%elem_of_replicate. lia.
  - unfold fallback_str. by rewrite Hver.
Qed.

(** Whatever the order of the candidates, [1.10.0] is the maximum. *)
Lemma max_of_the_three (l : list string) :
  l ≡ₚ ["1.2.3"; "1.10.0"; "1.2.40.592"] → max_by_version l = Ok "1.10.0".
Proof.
  intros Hp.
  assert (NoDup l) as Hnd.
  { rewrite Hp. apply (bool_decide_unpack _). by vm_compute. }
  assert (∀ k, k ∈ l → k ∈ ["1.2.3"; "1.10.0"; "1.2.40.592"]) as Hin.
  { intros k. by rewrite Hp. }
  pose proof (Permutation_length Hp) as Hlen.
  destruct l as [|k1 [|k2 [|k3 [|]]]]; try done.
  pose proof (Hin k1 ltac:(repeat constructor)) as H1.
  pose proof (Hin k2 ltac:(repeat constructor)) as H2.
  pose proof (Hin k3 ltac:(repeat constructor)) as H3.
  clear Hin Hp Hlen.
  repeat match goal with
         | H : _ ∈ _ :: _ |- _ => apply elem_of_cons in H as [->|H]
         | H : _ ∈ [] |- _ => by apply elem_of_nil in H
         end.
  all: try (exfalso; revert Hnd; apply (bool_decide_eq_false_1 _);
            vm_compute; reflexivity).
  all: vm_compute; reflexivity.
Qed.

(** So [get_latest_version] answers [1.10.0] for a package whose version
    directories carry these three labels, in whatever order the system lists
    them. *)
Lemma get_latest_version_of_the_three (self : WingetPackage)
    (f : gmap (list string) Fs.node) (entries : list (string * Fs.node)) :
  Py.truthy (pub self) = true →
  Fs.iterdir f (package_path (mirror_dir (manager self)) (pub self) (pkg self))
    = Ok entries →
  omap (λ e : string * Fs.node,
          match e.2 with Fs.Dir => Some e.1 | _ => None end) entries
    ≡ₚ ["1.2.3"; "1.10.0"; "1.2.40.592"] →
  get_latest_version self f = Ok (Some "1.10.0").
Proof.
  intros Hpub Hit Hp. unfold get_latest_version. rewrite Hpub. cbn [negb].
  assert (Fs.is_dir f (package_path (mirror_dir (manager self)) (pub self)
                         (pkg self)) = true) as ->.
  { unfold Fs.iterdir in Hit. unfold Fs.is_dir.
    by repeat case_match; simplify_eq. }
  cbn [negb]. rewrite Hit. cbn [rbind].
  set (versions := omap _ entries) in *.
  assert (valid_versions versions = versions) as ->.
  { apply filter_all, Forall_forall. intros v Hv. rewrite Hp in Hv.
    repeat match goal with
           | H : _ ∈ _ :: _ |- _ => apply elem_of_cons in H as [->|H]
           | H : _ ∈ [] |- _ => by apply elem_of_nil in H
           end; reflexivity. }
  pose proof (max_of_the_three versions Hp) as Hmax.
  destruct versions as [|v0 vs]; [by apply Permutation_nil_l in Hp|].
  by rewrite Hmax.
Qed.



(** ** The order of versions *)

Section ordering_facts.
Context {A : Type} (cmp : A → A → comparison) (Hcmp : ordering cmp).

Lemma ordering_eq_r a b c : cmp a b = Eq → cmp c a = cmp c b.
Proof.
  intros H. rewrite (ordering_opp _ Hcmp a c), (ordering_opp _ Hcmp b c).
  f_equal. by apply (ordering_eq _ Hcmp).
Qed.

Lemma ordering_refl a : cmp a a = Eq.
Proof.
  pose proof (ordering_opp _ Hcmp a a) as H. by destruct (cmp a a).
Qed.

Lemma ordering_gt_lt a b : cmp a b = Gt ↔ cmp b a = Lt.
Proof.
  rewrite (ordering_opp _ Hcmp a b). destruct (cmp a b); simpl; split; done.
Qed.

(** Not greater, twice *)
Lemma ordering_le_trans a b c : cmp a b ≠ Gt → cmp b c ≠ Gt → cmp a c ≠ Gt.
Proof.
  intros Hab Hbc Hac. apply ordering_gt_lt in Hac.
  destruct (cmp a b) eqn:Eab; [| |done].
  - rewrite (ordering_eq_r _ _ c Eab) in Hac.
    apply ordering_gt_lt in Hac. congruence.
  - pose proof (ordering_lt _ Hcmp _ _ _ Hac Eab) as Hcb.
    apply ordering_gt_lt in Hcb. congruence.
Qed.

Lemma ordering_lt_le a b c : cmp a b = Lt → cmp b c ≠ Gt → cmp a c = Lt.
Proof.
  intros Hab Hbc. destruct (cmp b c) eqn:Ebc; [| |done].
  - by rewrite <- (ordering_eq_r _ _ a Ebc).
  - by apply (ordering_lt _ Hcmp _ b).
Qed.

Lemma ordering_pull {B} (f : B → A) : ordering (λ x y, cmp (f x) (f y)).
Proof.
  split; intros.
  - apply (ordering_opp _ Hcmp).
  - by apply (ordering_eq _ Hcmp).
  - by apply (ordering_lt _ Hcmp _ (f b)).
Qed.

Lemma ordering_lex {B} (f : B → A) (rest : B → B → comparison) :
  ordering rest → ordering (λ x y, Packaging.lex (cmp (f x) (f y)) (rest x y)).
Proof.
  intros Hrest. split.
  - intros x y. rewrite (ordering_opp _ Hcmp (f x) (f y)),
      (ordering_opp _ Hrest x y).
    by destruct (cmp (f x) (f y)).
  - intros x y z. unfold Packaging.lex.
    destruct (cmp (f x) (f y)) eqn:E; [|done..]. intros Hr.
    rewrite (ordering_eq _ Hcmp _ _ (f z) E).
    by rewrite (ordering_eq _ Hrest _ _ z Hr).
  - intros x y z. unfold Packaging.lex.
    destruct (cmp (f x) (f y)) eqn:Exy; [| |done].
    + intros Hr. rewrite (ordering_eq _ Hcmp _ _ (f z) Exy).
      destruct (cmp (f y) (f z)); [|done..].
      by apply (ordering_lt _ Hrest).
    + intros _. destruct (cmp (f y) (f z)) eqn:Eyz; [| |done]; intros Hr.
      * by rewrite <- (ordering_eq_r _ _ (f x) Eyz), Exy.
      * by rewrite (ordering_lt _ Hcmp _ _ _ Exy Eyz).
Qed.

Lemma ordering_list : ordering (Packaging.list_compare cmp).
Proof.
  split.
  - intros a. induction a as [|x a IH]; intros [|y b]; simpl; try done.
    rewrite (ordering_opp _ Hcmp x y), (IH b). by destruct (cmp x y).
  - intros a. induction a as [|x a IH]; intros [|y b] c; simpl; try done.
    unfold Packaging.lex. destruct (cmp x y) eqn:E; [|done..]. intros Hr.
    destruct c as [|z c]; simpl; [done|].
    by rewrite (ordering_eq _ Hcmp _ _ z E), (IH _ c Hr).
  - intros a. induction a as [|x a IH]; intros [|y b] [|z c]; simpl; try done.
    unfold Packaging.lex. destruct (cmp x y) eqn:Exy; [| |done].
    + intros Hr. rewrite (ordering_eq _ Hcmp _ _ z Exy).
      destruct (cmp y z); [|done..]. by apply IH.
    + intros _. destruct (cmp y z) eqn:Eyz; [| |done]; intros Hr.
      * by rewrite <- (ordering_eq_r _ _ x Eyz), Exy.
      * by rewrite (ordering_lt _ Hcmp _ _ _ Exy Eyz).
Qed.

Lemma ordering_bounded : ordering (Packaging.bounded_compare cmp).
Proof.
  split.
  - intros [|x|] [|y|]; simpl; try done. apply (ordering_opp _ Hcmp).
  - intros [|x|] [|y|] [|z|]; simpl; try done. apply (ordering_eq _ Hcmp).
  - intros [|x|] [|y|] [|z|]; simpl; try done. apply (ordering_lt _ Hcmp).
Qed.
End ordering_facts.

Lemma ordering_N : ordering N.compare.
Proof.
  split.
  - intros a b. apply N.compare_antisym.
  - by intros a b c ->%N.compare_eq.
  - intros a b c. rewrite !N.compare_lt_iff. lia.
Qed.

Lemma ordering_str : ordering Py.str_compare.
Proof.
  split.
  - intros a. induction a as [|x a IH]; intros [|y b]; simpl; try done.
    rewrite (N.compare_antisym (Py.code x)), (IH b).
    by destruct (Py.code x ?= Py.code y)%N.
  - intros a. induction a as [|x a IH]; intros [|y b] c; simpl; try done.
    destruct (Py.code x ?= Py.code y)%N eqn:E; [|done..]. intros Hr.
    destruct c as [|z c]; [done|]. apply N.compare_eq in E. rewrite E.
    by rewrite (IH _ c Hr).
  - intros a. induction a as [|x a IH]; intros [|y b] [|z c]; simpl; try done.
    destruct (Py.code x ?= Py.code y)%N eqn:Exy; [| |done].
    + apply N.compare_eq in Exy. rewrite Exy.
      destruct (Py.code y ?= Py.code z)%N; [|done..]. apply IH.
    + intros _. destruct (Py.code y ?= Py.code z)%N eqn:Eyz; [| |done]; intros Hr.
      * apply N.compare_eq in Eyz. by rewrite <- Eyz, Exy.
      * rewrite N.compare_lt_iff in Exy, Eyz.
        assert ((Py.code x ?= Py.code z)%N = Lt) as ->
          by (apply N.compare_lt_iff; lia).
        done.
Qed.

Lemma ordering_letter : ordering Packaging.letter_compare.
Proof.
  apply (ordering_lex _ ordering_str fst (λ a b, N.compare a.2 b.2)).
  apply (ordering_pull _ ordering_N).
Qed.

Lemma ordering_segment : ordering Packaging.segment_compare.
Proof.
  apply (ordering_lex _ (ordering_bounded _ ordering_N) fst
           (λ a b, Py.str_compare a.2 b.2)).
  apply (ordering_pull _ ordering_str).
Qed.

Lemma ordering_key : ordering Packaging.key_compare.
Proof.
  apply (ordering_lex _ ordering_N Packaging.k_epoch).
  apply (ordering_lex _ (ordering_list _ ordering_N) Packaging.k_release).
  apply (ordering_lex _ (ordering_bounded _ ordering_letter) Packaging.k_pre).
  apply (ordering_lex _ (ordering_bounded _ ordering_letter) Packaging.k_post).
  apply (ordering_lex _ (ordering_bounded _ ordering_letter) Packaging.k_dev).
  apply (ordering_pull _ (ordering_bounded _ (ordering_list _ ordering_segment))
           Packaging.k_local).
Qed.

Lemma ordering_version : ordering version_compare.
Proof. apply (ordering_pull _ ordering_key Packaging._cmpkey). Qed.

Lemma gt_compare a b : Packaging.gt a b = true ↔ version_compare a b = Gt.
Proof.
  unfold Packaging.gt, version_compare.
  destruct (Packaging.key_compare _ _); split; done.
Qed.

Lemma lt_compare a b : Packaging.lt a b = true ↔ version_compare a b = Lt.
Proof.
  unfold Packaging.lt, version_compare.
  destruct (Packaging.key_compare _ _); split; done.
Qed.

Lemma ordering_le_lt {A} (cmp : A → A → comparison) (Hcmp : ordering cmp) a b c :
  cmp a b ≠ Gt → cmp b c = Lt → cmp a c = Lt.
Proof.
  intros Hab Hbc. destruct (cmp a b) eqn:Eab; [| |done].
  - by rewrite (ordering_eq _ Hcmp _ _ c Eab).
  - by apply (ordering_lt _ Hcmp _ b).
Qed.

(** ** The greatest label: [max(..., key=parse_version_safe)] *)

Lemma label_lt_compare (a b : string) ka kb :
  parse_version_safe a = Ok ka → parse_version_safe b = Ok kb →
  label_lt a b = true ↔ version_compare ka kb = Lt.
Proof. intros Ha Hb. unfold label_lt. rewrite Ha, Hb. apply lt_compare. Qed.

Lemma max_from_first_greatest (l : list string) best kbest m :
  max_from best kbest l = Ok m →
  (m = best ∧
   ∀ v, v ∈ l → ∃ kv, parse_version_safe v = Ok kv ∧
                       version_compare kv kbest ≠ Gt) ∨
  ∃ l1 l2 km,
    l = l1 ++ m :: l2 ∧ parse_version_safe m = Ok km ∧
    version_compare kbest km = Lt ∧
    (∀ v, v ∈ l1 → ∃ kv, parse_version_safe v = Ok kv ∧
                          version_compare kv km = Lt) ∧
    (∀ v, v ∈ l2 → ∃ kv, parse_version_safe v = Ok kv ∧
                          version_compare kv km ≠ Gt).
Proof.
  revert best kbest. induction l as [|x l IH]; simpl; intros best kbest H.
  - left. split; [congruence|]. by intros v ?%elem_of_nil.
  - destruct (parse_version_safe x) as [kx|] eqn:Ex; simpl in H; [|done].
    destruct (Packaging.gt kx kbest) eqn:Egt.
    + apply gt_compare, (ordering_gt_lt _ ordering_version) in Egt.
      right. apply IH in H as [[-> Hall]|(l1 & l2 & km & -> & Hm & Hlt & H1 & H2)].
      * exists [], l, kx. split_and!; try done. by intros v ?%elem_of_nil.
      * exists (x :: l1), l2, km. split_and!; try done.
        -- by apply (ordering_lt _ ordering_version _ kx).
        -- intros v [->|Hv]%elem_of_cons; [by exists kx|by apply H1].
    + assert (version_compare kx kbest ≠ Gt) as Hle.
      { intros Hgt%gt_compare. congruence. }
      apply IH in H as [[-> Hall]|(l1 & l2 & km & -> & Hm & Hlt & H1 & H2)].
      * left. split; [done|].
        intros v [->|Hv]%elem_of_cons; [by exists kx|by apply Hall].
      * right. exists (x :: l1), l2, km. split_and!; try done.
        intros v [->|Hv]%elem_of_cons; [|by apply H1].
        exists kx. split; [done|].
        by apply (ordering_le_lt _ ordering_version _ kbest).
Qed.

Lemma max_from_returns (l : list string) best kbest :
  (∀ v, v ∈ l → is_ok (parse_version_safe v) = true) →
  ∃ m, max_from best kbest l = Ok m.
Proof.
  revert best kbest. induction l as [|x l IH]; simpl; intros best kbest H.
  - by eexists.
  - pose proof (H x ltac:(left)) as Hx.
    destruct (parse_version_safe x) as [kx|]; [simpl|done].
    destruct (Packaging.gt kx kbest); apply IH; intros v Hv; apply H; by right.
Qed.

Lemma max_by_version_returns (l : list string) :
  l ≠ [] → (∀ v, v ∈ l → is_ok (parse_version_safe v) = true) →
  ∃ m, max_by_version l = Ok m.
Proof.
  destruct l as [|x l]; [done|]. intros _ H. simpl.
  pose proof (H x ltac:(left)) as Hx.
  destruct (parse_version_safe x) as [kx|]; [simpl|done].
  apply max_from_returns. intros v Hv. apply H. by right.
Qed.

Lemma max_by_version_split (l : list string) (m : string) :
  max_by_version l = Ok m →
  ∃ l1 l2 km,
    l = l1 ++ m :: l2 ∧ parse_version_safe m = Ok km ∧
    (∀ v, v ∈ l1 → ∃ kv, parse_version_safe v = Ok kv ∧
                          version_compare kv km = Lt) ∧
    (∀ v, v ∈ l2 → ∃ kv, parse_version_safe v = Ok kv ∧
                          version_compare kv km ≠ Gt).
Proof.
  destruct l as [|x l]; simpl; [done|].
  destruct (parse_version_safe x) as [kx|] eqn:Ex; simpl; [|done].
  intros [[-> Hall]|(l1 & l2 & km & -> & Hm & Hlt & H1 & H2)]%max_from_first_greatest.
  - exists [], l, kx. split_and!; try done. by intros v ?%elem_of_nil.
  - exists (x :: l1), l2, km. split_and!; try done.
    intros v [->|Hv]%elem_of_cons; [by exists kx|by apply H1].
Qed.

(** X1: [max(l, key=parse_version_safe)] returns the first of the greatest
    labels: every label before it has a smaller key, no label after it has
    a greater one; it returns only if the key of every label exists, and it
    raises [ValueError] on the empty list. *)
Theorem max_by_version_is_the_first_greatest (l : list string) :
  (l = [] → max_by_version l = Raise ValueError) ∧
  ∀ m, max_by_version l = Ok m →
    ∃ l1 l2,
      l = l1 ++ m :: l2 ∧
      (∀ v, v ∈ l → is_ok (parse_version_safe v) = true) ∧
      (∀ v, v ∈ l1 → label_lt v m = true) ∧
      (∀ v, v ∈ l2 → label_lt m v = false).
Proof.
  split; [by intros ->|].
  intros m (l1 & l2 & km & -> & Hm & H1 & H2)%max_by_version_split.
  exists l1, l2. split_and!; [done| | |].
  - intros v [Hv|[->|Hv]%elem_of_cons]%elem_of_app.
    + destruct (H1 v Hv) as (kv & -> & _). done.
    + by rewrite Hm.
    + destruct (H2 v Hv) as (kv & -> & _). done.
  - intros v Hv. destruct (H1 v Hv) as (kv & Hkv & Hlt).
    by apply (label_lt_compare _ _ _ _ Hkv Hm).
  - intros v Hv. destruct (H2 v Hv) as (kv & Hkv & Hle).
    apply not_true_is_false. intros Hlt%(label_lt_compare _ _ _ _ Hm Hkv).
    apply Hle. by apply (ordering_gt_lt _ ordering_version).
Qed.

Lemma max_by_version_is_the_first_greatest_witness :
  max_by_version ["1.2.3"; "1.10"; "1.10.0"; "1.9"] = Ok "1.10" ∧
  ∃ l1 l2,
    ["1.2.3"; "1.10"; "1.10.0"; "1.9"] = l1 ++ "1.10" :: l2 ∧
    (∀ v, v ∈ ["1.2.3"; "1.10"; "1.10.0"; "1.9"] →
          is_ok (parse_version_safe v) = true) ∧
    (∀ v, v ∈ l1 → label_lt v "1.10" = true) ∧
    (∀ v, v ∈ l2 → label_lt "1.10" v = false).
Proof.
  assert (max_by_version ["1.2.3"; "1.10"; "1.10.0"; "1.9"] = Ok "1.10") as H
    by (vm_compute; reflexivity).
  split; [exact H|].
  apply (proj2 (max_by_version_is_the_first_greatest _) _ H).
Defined.

(** ** [get_latest_version] *)

Lemma elem_of_version_dirs (entries : list (string * Fs.node)) (v : string) :
  v ∈ omap (λ e : string * Fs.node,
              match e.2 with Fs.Dir => Some e.1 | _ => None end) entries
  ↔ (v, Fs.Dir) ∈ entries.
Proof.
  rewrite list_elem_of_omap. split.
  - intros ([c [data|]] & Hin & Heq); simplify_eq/=. done.
  - intros Hin. by exists (v, Fs.Dir).
Qed.

(** X2: [get_latest_version] raises [IndexError] for an empty publisher and
    never raises otherwise.  The version it returns is a directory of the
    package on whose name [parse_version_safe] returns, and no directory of
    the package has a greater key; it returns [None] only when the package
    has no directory with such a name. *)
Theorem get_latest_version_is_the_greatest_directory (self : WingetPackage)
    (f : gmap (list string) Fs.node) :
  (Py.truthy (pub self) = false → get_latest_version self f = Raise IndexError) ∧
  (Py.truthy (pub self) = true →
   ∃ r, get_latest_version self f = Ok r ∧
     match r with
     | Some m =>
         ∃ entries,
           Fs.iterdir f (package_path (mirror_dir (manager self)) (pub self)
                           (pkg self)) = Ok entries ∧
           (m, Fs.Dir) ∈ entries ∧ is_ok (parse_version_safe m) = true ∧
           ∀ v, (v, Fs.Dir) ∈ entries → label_lt m v = false
     | None =>
         ∀ entries,
           Fs.iterdir f (package_path (mirror_dir (manager self)) (pub self)
                           (pkg self)) = Ok entries →
           ∀ v, (v, Fs.Dir) ∈ entries → is_ok (parse_version_safe v) = false
     end).
Proof.
  unfold get_latest_version. split; intros ->; [done|]. cbn [negb].
  set (path := package_path _ _ _).
  destruct (Fs.is_dir f path) eqn:Edir; cbn [negb].
  - assert (∃ entries, Fs.iterdir f path = Ok entries) as [entries Hit].
    { unfold Fs.iterdir, Fs.is_dir in *.
      destruct (Fs.stat f path) as [[?|]|]; try done. by eexists. }
    rewrite Hit. cbn [rbind].
    set (versions := omap _ entries).
    destruct (valid_versions versions) as [|v0 vs] eqn:Evalid.
    + exists None. split; [done|]. intros ? [= <-] v Hv.
      apply not_true_is_false. intros Hok.
      assert (v ∈ valid_versions versions) as Hin.
      { apply elem_of_valid_versions. split; [|done].
        by apply elem_of_version_dirs. }
      rewrite Evalid in Hin. by apply elem_of_nil in Hin.
    + rewrite <- Evalid.
      destruct (max_by_version_returns (valid_versions versions)) as [m Hm].
      { by rewrite Evalid. }
      { by intros v [_ ?]%elem_of_valid_versions. }
      rewrite Hm. exists (Some m). split; [done|]. exists entries.
      pose proof (max_by_version_elem _ _ Hm) as [Hin Hok]%elem_of_valid_versions.
      split_and!; [done|by apply elem_of_version_dirs|done|].
      intros v Hv.
      destruct (parse_version_safe v) as [kv|] eqn:Ekv;
        [|by unfold label_lt; rewrite Ekv; destruct (parse_version_safe m)].
      assert (v ∈ valid_versions versions) as Hvalid.
      { apply elem_of_valid_versions. rewrite Ekv.
        split; [by apply elem_of_version_dirs|done]. }
      apply max_by_version_split in Hm as (l1 & l2 & km & Hl & Hkm & H1 & H2).
      apply not_true_is_false.
      intros Hlt%(label_lt_compare _ _ _ _ Hkm Ekv).
      rewrite Hl in Hvalid.
      apply elem_of_app in Hvalid as [Hv1|[->|Hv2]%elem_of_cons].
      * destruct (H1 v Hv1) as (kv' & Hkv' & Hlt').
        assert (kv' = kv) as -> by congruence.
        pose proof (ordering_lt _ ordering_version _ _ _ Hlt Hlt') as Hrefl.
        by rewrite (ordering_refl _ ordering_version) in Hrefl.
      * assert (km = kv) as -> by congruence.
        by rewrite (ordering_refl _ ordering_version) in Hlt.
      * destruct (H2 v Hv2) as (kv' & Hkv' & Hle).
        assert (kv' = kv) as -> by congruence.
        apply Hle. by apply (ordering_gt_lt _ ordering_version).
  - exists None. split; [done|]. intros entries Hit.
    unfold Fs.iterdir, Fs.is_dir in *.
    by destruct (Fs.stat f path) as [[?|]|].
Qed.

Lemma get_latest_version_is_the_greatest_directory_witness :
  Py.truthy (pub foo_bar) = true ∧
  ∃ r, get_latest_version foo_bar disk = Ok r ∧
    match r with
    | Some m =>
        ∃ entries,
          Fs.iterdir disk (package_path (mirror_dir (manager foo_bar))
                             (pub foo_bar) (pkg foo_bar)) = Ok entries ∧
          (m, Fs.Dir) ∈ entries ∧ is_ok (parse_version_safe m) = true ∧
          ∀ v, (v, Fs.Dir) ∈ entries → label_lt m v = false
    | None =>
        ∀ entries,
          Fs.iterdir disk (package_path (mirror_dir (manager foo_bar))
                             (pub foo_bar) (pkg foo_bar)) = Ok entries →
          ∀ v, (v, Fs.Dir) ∈ entries → is_ok (parse_version_safe v) = false
    end.
Proof.
  split; [reflexivity|].
  apply (proj2 (get_latest_version_is_the_greatest_directory foo_bar disk)).
  reflexivity.
Defined.

(** ** A download without a version takes the latest *)

Lemma locate_installers_latest env (self : WingetPackage) vf (w : World) :
  explicit vf = false →
  post (locate_installers env (package_id self) (mirror_dir (manager self)) vf) w
    (λ r w', ∀ target installers,
       r = Ok (Some (pub self, pkg self, target, installers)) →
       get_latest_version self (fs w) = Ok (Some target)).
Proof.
  intros Hvf. unfold locate_installers. rewrite Hvf.
  post_run; intros target installers [=]; subst.
  all: unfold get_latest_version.
  all: repeat match goal with
         | H : negb _ = false |- _ => apply negb_false_iff in H
         | H : Py.truthy _ = true |- _ => rewrite H
         | H : Fs.is_dir _ _ = true |- _ => rewrite H
         | H : Fs.iterdir _ _ = Ok _ |- _ => rewrite H
         end; cbn [negb rbind].
  all: match goal with H : valid_versions _ = _ :: _ |- _ => rewrite H end.
  all: cbv beta iota.
  all: by match goal with H : max_by_version _ = Ok _ |- _ => rewrite H end.
Qed.

Lemma get_package_inv (m : Manager) (pid : string) (self : WingetPackage) :
  get_package m pid = Ok self →
  manager self = m ∧ package_id self = pid ∧
  Py.split_once "." pid = Some (pub self, pkg self).
Proof.
  unfold get_package. destruct (Py.split_once "." pid) as [[a b]|]; [|done].
  by intros [= <-].
Qed.

(** X3: a download without a version (or with an empty one) that returns
    [True] has recorded a file for the version that [get_latest_version]
    names, and has recorded that version as not pinned. *)
Theorem unfiltered_download_takes_the_latest (env : Env) (self : WingetPackage)
    (vf : option string) (w w' : World) :
  get_package (manager self) (package_id self) = Ok self →
  explicit vf = false →
  download env self vf w = (Ok true, w') →
  ∃ target,
    get_latest_version self (fs w) = Ok (Some target) ∧
    recorded_files (package_id self) target (downloads w') ≠ [] ∧
    entry_pinned (package_id self) target false (downloads w').
Proof.
  intros (_ & _ & Hsplit)%get_package_inv Hvf Hrun.
  unfold download, process_package, mbind, M_bind in Hrun.
  destruct (locate_installers env (package_id self) (mirror_dir (manager self))
              vf w) as [r1 w1] eqn:E.
  destruct (locate_installers_post _ _ _ _ _ _ _ E) as (Hfs & _ & _ & _ & Hfound).
  pose proof (locate_installers_latest env self vf w Hvf _ _ E) as Hlatest.
  destruct r1 as [[[[[pub0 pkg0] target] installers]|]|e]; [|by simplify_eq..].
  destruct (Hfound _ _ _ _ eq_refl) as (_ & Hsplit' & _).
  assert (pub0 = pub self ∧ pkg0 = pkg self) as [-> ->]
    by (split; congruence).
  exists target. split_and!.
  - by apply (Hlatest target installers).
  - destruct (download_and_record_success _ _ _ _ _ _ _ _ _ _ _ _ Hrun eq_refl)
      as (? & ? & ? & ? & ? & ? & _ & _ & _ & _ & _ & _ & _ & -> & _).
    done.
  - rewrite <- Hvf.
    by apply (download_and_record_pinned _ _ _ _ _ _ _ _ _ _ _ _ Hrun true).
Qed.

Lemma unfiltered_download_takes_the_latest_witness :
  ∃ target,
    get_latest_version foo_bar (fs pinned_world) = Ok (Some target) ∧
    recorded_files (package_id foo_bar) target (downloads refreshed_world) ≠ [] ∧
    entry_pinned (package_id foo_bar) target false (downloads refreshed_world).
Proof.
  apply (unfiltered_download_takes_the_latest (env (serving "installer bytes"))
           foo_bar None pinned_world refreshed_world);
    [reflexivity|reflexivity|].
  apply pair_eq; [vm_compute; reflexivity|reflexivity].
Defined.

(** ** Package identifiers *)

Lemma split_once_None (sep : ascii) (s : string) :
  Py.split_once sep s = None ↔
  Py.all_chars (λ c, negb (Py.char_eqb c sep)) s = true.
Proof.
  induction s as [|c s IH]; simpl; [done|].
  destruct (Py.char_eqb c sep); simpl; [done|].
  destruct (Py.split_once sep s) as [[a b]|]; [|tauto].
  split; [done|]. intros H. apply IH in H. done.
Qed.

Lemma append_empty (s : string) : "" +:+ s = s.
Proof. reflexivity. Qed.

Lemma append_String (c : ascii) (a s : string) :
  String c a +:+ s = String c (a +:+ s).
Proof. reflexivity. Qed.

Lemma split_once_Some (sep : ascii) (s a b : string) :
  Py.split_once sep s = Some (a, b) ↔
  s = a +:+ String sep b ∧
  Py.all_chars (λ c, negb (Py.char_eqb c sep)) a = true.
Proof.
  revert a. induction s as [|c s IH]; simpl; intros a.
  - split; [done|]. intros [H _]. by destruct a.
  - destruct (Py.char_eqb c sep) eqn:E.
    + apply Ascii.eqb_eq in E as ->. split.
      * by intros [= <- <-].
      * intros [H Ha]. destruct a as [|c' a].
        -- rewrite append_empty in H. by simplify_eq.
        -- rewrite append_String in H. injection H as <- _. simpl in Ha.
           unfold Py.char_eqb in Ha. by rewrite Ascii.eqb_refl in Ha.
    + split.
      * destruct (Py.split_once sep s) as [[a' b']|] eqn:Es; [|done].
        intros [= <- <-]. destruct (proj1 (IH a') eq_refl) as [-> Ha'].
        rewrite append_String. simpl. by rewrite E.
      * intros [H Ha]. destruct a as [|c' a].
        -- rewrite append_empty in H. injection H as -> _.
           unfold Py.char_eqb in E. by rewrite Ascii.eqb_refl in E.
        -- rewrite append_String in H. injection H as <- Hs. simpl in Ha.
           apply andb_true_iff in Ha as [_ Ha].
           by rewrite (proj2 (IH a) (conj Hs Ha)).
Qed.

(** X4: [get_package] splits the identifier at its first dot, and raises
    [ValueError] when there is none.  The identifier [{pub}.{pkg}] that
    [sync] composes from the names of two directories is taken apart into
    the same two names exactly when the publisher has no dot in its name. *)
Theorem get_package_splits_at_the_first_dot (m : Manager) (pid : string) :
  (no_dot pid ↔ get_package m pid = Raise ValueError) ∧
  (∀ self, get_package m pid = Ok self →
     manager self = m ∧ package_id self = pid ∧
     pid = pub self +:+ "." +:+ pkg self ∧ no_dot (pub self)) ∧
  (∀ pub0 pkg0 self, pid = pub0 +:+ "." +:+ pkg0 →
     get_package m pid = Ok self →
     (pub self = pub0 ∧ pkg self = pkg0) ↔ no_dot pub0) ∧
  (∀ pub0 pkg0, pid = pub0 +:+ "." +:+ pkg0 → is_ok (get_package m pid) = true).
Proof.
  unfold get_package, no_dot. split_and!.
  - rewrite <- split_once_None.
    destruct (Py.split_once "." pid) as [[a b]|]; split; done.
  - intros self. destruct (Py.split_once "." pid) as [[a b]|] eqn:E; [|done].
    intros [= <-]. simpl. by apply split_once_Some in E as [-> Ha].
  - intros pub0 pkg0 self Hpid.
    destruct (Py.split_once "." pid) as [[a b]|] eqn:E; [|done].
    intros [= <-]. simpl. split.
    + intros [-> ->]. by apply split_once_Some in E as [_ Ha].
    + intros Hno.
      assert (Py.split_once "." pid = Some (pub0, pkg0)) as E'
        by (by apply split_once_Some).
      by simplify_eq.
  - intros pub0 pkg0 ->.
    destruct (Py.split_once "." (pub0 +:+ "." +:+ pkg0)) as [[a b]|] eqn:E;
      [done|].
    exfalso. apply split_once_None in E. clear -E.
    induction pub0 as [|c p IH].
    + rewrite append_empty in E. done.
    + rewrite append_String in E. simpl in E.
      apply andb_true_iff in E as [_ E]. by apply IH.
Qed.

Lemma get_package_splits_at_the_first_dot_witness :
  (pub foo_bar = "Foo" ∧ pkg foo_bar = "Bar") ↔ no_dot "Foo".
Proof.
  apply (proj1 (proj2 (proj2 (get_package_splits_at_the_first_dot mgr "Foo.Bar")))
           "Foo" "Bar" foo_bar); reflexivity.
Defined.

(** ** A package that the repository does not have *)



(** ** What a download leaves alone *)

Lemma one_entry_apart_refl pid target d : one_entry_apart pid target d d.
Proof. by split. Qed.

Lemma one_entry_apart_trans pid target d1 d2 d3 :
  one_entry_apart pid target d1 d2 → one_entry_apart pid target d2 d3 →
  one_entry_apart pid target d1 d3.
Proof.
  intros [H1 H1'] [H2 H2']. split.
  - intros pid' Hne. by rewrite H2, H1.
  - intros v Hne. by rewrite H2', H1'.
Qed.

Lemma one_entry_apart_new pid target (d : dict package_info) :
  Dict.mem pid d = false →
  one_entry_apart pid target d (Dict.set pid (mkInfo [] None) d).
Proof.
  intros Hmem. split.
  - intros pid' Hne. by apply get_set_ne.
  - intros v _. unfold lookup_entry, Dict.mem in *. rewrite get_set_eq.
    by destruct (Dict.get d pid).
Qed.

Lemma one_entry_apart_record_entry pid target e (d : dict package_info) :
  one_entry_apart pid target d (record_entry pid target e d).
Proof.
  split.
  - intros pid' Hne. by apply get_record_entry_ne.
  - intros v Hne. by apply lookup_record_entry_ne.
Qed.

Lemma one_entry_apart_record_file pid target fn h (d : dict package_info) :
  one_entry_apart pid target d (record_file pid target fn h d).
Proof.
  split.
  - intros pid' Hne. unfold record_file. by apply get_alter_ne.
  - intros v Hne. unfold lookup_entry, record_file. rewrite get_alter_eq.
    destruct (Dict.get d pid); simpl; [|done]. by apply get_alter_ne.
Qed.

Lemma one_entry_apart_stamp pid target t (d : dict package_info) :
  one_entry_apart pid target d
    (Dict.alter (λ info, mkInfo (versions info) (Some t)) pid d).
Proof.
  split.
  - intros pid' Hne. by apply get_alter_ne.
  - intros v Hne. unfold lookup_entry. rewrite get_alter_eq.
    by destruct (Dict.get d pid).
Qed.

Lemma disk_kept_refl f : disk_kept f f.
Proof. by intros k n. Qed.

Lemma disk_kept_trans f1 f2 f3 :
  disk_kept f1 f2 → disk_kept f2 f3 → disk_kept f1 f3.
Proof. intros H1 H2 k n Hk. by apply H2, H1. Qed.

Lemma disk_kept_mkdir_p (f f' : gmap (list string) Fs.node) p :
  Fs.mkdir_p f p = Ok f' → disk_kept f f'.
Proof.
  intros H k n Hk. destruct (mkdir_p_lookup _ _ _ k H) as [->|[Hnone _]]; congruence.
Qed.

(** A file written where nothing was *)
Lemma disk_kept_write (f f' : gmap (list string) Fs.node) p data :
  Fs.exists_ f p = false → Fs.write f p data = Ok f' → disk_kept f f'.
Proof.
  intros Hex (Hne & _ & _ & ->)%write_inv k n Hk.
  rewrite lookup_insert_ne; [done|]. intros <-.
  unfold Fs.exists_, Fs.stat, Fs.lookup_norm in Hex.
  destruct (Fs.norm p) eqn:E; [done|]. by rewrite Hk in Hex.
Qed.

Lemma disk_kept_stat (f f' : gmap (list string) Fs.node) p n :
  disk_kept f f' → Fs.stat f p = Some n → Fs.stat f' p = Some n.
Proof.
  unfold Fs.stat, Fs.lookup_norm. intros H. destruct (Fs.norm p); [done|apply H].
Qed.

Lemma download_and_record_frame env pid dd repo vf (w : World)
    pub pkg target installers :
  post (download_and_record env pid dd repo vf pub pkg target installers) w
    (λ r w', one_entry_apart pid target (downloads w) (downloads w') ∧
             disk_kept (fs w) (fs w')).
Proof.
  unfold download_and_record. post_run.
  all: split;
    [ repeat first
        [ apply one_entry_apart_refl
        | by apply one_entry_apart_new
        | eapply one_entry_apart_trans; [|apply one_entry_apart_stamp]
        | eapply one_entry_apart_trans; [|apply one_entry_apart_record_file]
        | eapply one_entry_apart_trans; [|apply one_entry_apart_record_entry] ]
    | eauto using disk_kept_refl, disk_kept_trans, disk_kept_mkdir_p,
        disk_kept_write ].
Qed.

Lemma process_package_frame env pid md dd repo vf (w w' : World) r :
  process_package env pid md dd repo vf w = (r, w') →
  ∃ target, one_entry_apart pid target (downloads w) (downloads w') ∧
            disk_kept (fs w) (fs w').
Proof.
  intros Hrun. unfold process_package, mbind, M_bind in Hrun.
  destruct (locate_installers env pid md vf w) as [r1 w1] eqn:E.
  destruct (locate_installers_post _ _ _ _ _ _ _ E) as (Hfs & Hd & _).
  destruct r1 as [[[[[pub pkg] target] installers]|]|e].
  - exists target. rewrite <- Hfs, <- Hd.
    apply (download_and_record_frame _ _ _ _ _ _ _ _ _ _ _ _ Hrun).
  - injection Hrun as <- <-. exists "". rewrite Hfs, Hd.
    split; [apply one_entry_apart_refl|apply disk_kept_refl].
  - injection Hrun as <- <-. exists "". rewrite Hfs, Hd.
    split; [apply one_entry_apart_refl|apply disk_kept_refl].
Qed.

(** X6: whatever comes of it, a call of [process_package] leaves the entries
    of the other packages as they were, and of the versions of its own
    package all but one. *)
Theorem process_package_leaves_other_entries (env : Env) (pid : string)
    (md dd : Fs.path) (repo vf : option string) (w w' : World)
    (r : result bool) :
  process_package env pid md dd repo vf w = (r, w') →
  (∀ pid', pid' ≠ pid →
           Dict.get (downloads w') pid' = Dict.get (downloads w) pid') ∧
  ∃ target, ∀ v, v ≠ target →
    lookup_entry pid v (downloads w') = lookup_entry pid v (downloads w).
Proof.
  intros (target & [H1 H2] & _)%process_package_frame. split; [done|].
  by exists target.
Qed.

Lemma process_package_leaves_other_entries_witness :
  (∀ pid', pid' ≠ "Foo.Bar" →
     Dict.get (downloads refreshed_world) pid'
     = Dict.get (downloads pinned_world) pid') ∧
  ∃ target, ∀ v, v ≠ target →
    lookup_entry "Foo.Bar" v (downloads refreshed_world)
    = lookup_entry "Foo.Bar" v (downloads pinned_world).
Proof.
  apply (process_package_leaves_other_entries (env (serving "installer bytes"))
           "Foo.Bar" (mirror_dir mgr) (downloads_dir mgr) (repo mgr) None
           pinned_world refreshed_world (Ok true)).
  apply pair_eq; [vm_compute; reflexivity|reflexivity].
Defined.

(** X7: whatever comes of it, a call of [process_package] removes nothing
    from the disk and overwrites nothing: every file is there afterwards
    with the content it had, and every directory is still a directory. *)
Theorem process_package_keeps_the_disk (env : Env) (pid : string)
    (md dd : Fs.path) (repo vf : option string) (w w' : World)
    (r : result bool) :
  process_package env pid md dd repo vf w = (r, w') →
  (∀ k n, fs w !! k = Some n → fs w' !! k = Some n) ∧
  (∀ p data, Fs.read (fs w) p = Ok data → Fs.read (fs w') p = Ok data) ∧
  (∀ p, Fs.is_dir (fs w) p = true → Fs.is_dir (fs w') p = true).
Proof.
  intros (target & _ & Hkept)%process_package_frame. split_and!.
  - done.
  - intros p data H%read_stat. by apply read_stat, (disk_kept_stat _ _ _ _ Hkept).
  - intros p. unfold Fs.is_dir.
    destruct (Fs.stat (fs w) p) as [[data|]|] eqn:E; try done.
    by rewrite (disk_kept_stat _ _ _ _ Hkept E).
Qed.

Lemma process_package_keeps_the_disk_witness :
  (∀ k n, fs fresh !! k = Some n → fs pinned_world !! k = Some n) ∧
  (∀ p data, Fs.read (fs fresh) p = Ok data →
             Fs.read (fs pinned_world) p = Ok data) ∧
  (∀ p, Fs.is_dir (fs fresh) p = true → Fs.is_dir (fs pinned_world) p = true).
Proof.
  apply (process_package_keeps_the_disk (env (serving "installer bytes"))
           "Foo.Bar" (mirror_dir mgr) (downloads_dir mgr) (repo mgr)
           (Some "1.2.3") fresh pinned_world (Ok true)).
  apply pair_eq; [vm_compute; reflexivity|reflexivity].
Defined.

(** ** The labels that a download records *)

Lemma locate_installers_target_valid env pid md vf (w : World) :
  post (locate_installers env pid md vf) w
    (λ r w', ∀ pub pkg target installers,
       r = Ok (Some (pub, pkg, target, installers)) →
       is_ok (parse_version_safe target) = true).
Proof.
  unfold locate_installers. post_run; intros ???? [=]; subst.
  all: match goal with
       | H : bool_decide (_ ∈ _) = true |- _ => apply bool_decide_eq_true in H
       | H : max_by_version _ = Ok _ |- _ => apply max_by_version_elem in H
       end.
  all: match goal with
       | H : _ ∈ _ :: _, H' : valid_versions _ = _ |- _ =>
           rewrite <- H' in H; by apply elem_of_valid_versions in H as [_ ?]
       end.
Qed.

Lemma lookup_entry_other_package (pid' v : string) (d d' : dict package_info) :
  Dict.get d' pid' = Dict.get d pid' →
  lookup_entry pid' v d' = lookup_entry pid' v d.
Proof. unfold lookup_entry. by intros ->. Qed.

(** X8: [process_package] only ever records a version under a label on which
    [parse_version_safe] returns: if that holds of every label of the state
    before a call, it holds of every label after it. *)
Theorem process_package_records_valid_labels (env : Env) (pid : string)
    (md dd : Fs.path) (repo vf : option string) (w w' : World)
    (r : result bool) :
  process_package env pid md dd repo vf w = (r, w') →
  labels_valid (downloads w) → labels_valid (downloads w').
Proof.
  intros Hrun Hvalid. unfold process_package, mbind, M_bind in Hrun.
  destruct (locate_installers env pid md vf w) as [r1 w1] eqn:E.
  destruct (locate_installers_post _ _ _ _ _ _ _ E) as (Hfs & Hd & _).
  pose proof (locate_installers_target_valid _ _ _ _ _ _ _ E) as Htarget.
  destruct r1 as [[[[[pub pkg] target] installers]|]|e];
    [|injection Hrun as <- <-; by rewrite Hd..].
  destruct (download_and_record_frame _ _ _ _ _ _ _ _ _ _ _ _ Hrun)
    as [[H1 H2] _].
  rewrite Hd in H1, H2. intros pid' v e He.
  destruct (decide (pid' = pid)) as [->|Hpid].
  - destruct (decide (v = target)) as [->|Hv].
    + by eapply Htarget.
    + rewrite H2 in He by done. by eapply Hvalid.
  - rewrite (lookup_entry_other_package pid' v _ _ (H1 _ Hpid)) in He.
    by eapply Hvalid.
Qed.

Lemma process_package_records_valid_labels_witness :
  labels_valid (downloads pinned_world).
Proof.
  apply (process_package_records_valid_labels (env (serving "installer bytes"))
           "Foo.Bar" (mirror_dir mgr) (downloads_dir mgr) (repo mgr)
           (Some "1.2.3") fresh pinned_world (Ok true)).
  - apply pair_eq; [vm_compute; reflexivity|reflexivity].
  - intros pid v e H. discriminate H.
Defined.

(** ** A download, then the verification *)

Lemma distinct_labels_new pid (d : dict package_info) :
  distinct_labels pid (Dict.set pid (mkInfo [] None) d).
Proof.
  intros info. rewrite get_set_eq. intros [= <-]. constructor.
Qed.

Lemma distinct_labels_record_entry pid pid' v e (d : dict package_info) :
  distinct_labels pid d → distinct_labels pid (record_entry pid' v e d).
Proof.
  intros H info. unfold record_entry. destruct (decide (pid' = pid)) as [->|Hne].
  - rewrite get_alter_eq. destruct (Dict.get d pid) as [info0|] eqn:E; [|done].
    intros [= <-]. simpl. by apply nodup_keys_set, H.
  - rewrite get_alter_ne by done. apply H.
Qed.

Lemma distinct_labels_record_file pid pid' v fn h (d : dict package_info) :
  distinct_labels pid d → distinct_labels pid (record_file pid' v fn h d).
Proof.
  intros H info. unfold record_file. destruct (decide (pid' = pid)) as [->|Hne].
  - rewrite get_alter_eq. destruct (Dict.get d pid) as [info0|] eqn:E; [|done].
    intros [= <-]. simpl. by apply nodup_keys_alter, H.
  - rewrite get_alter_ne by done. apply H.
Qed.

Lemma distinct_labels_stamp pid pid' t (d : dict package_info) :
  distinct_labels pid d →
  distinct_labels pid (Dict.alter (λ info, mkInfo (versions info) (Some t)) pid' d).
Proof.
  intros H info. destruct (decide (pid' = pid)) as [->|Hne].
  - rewrite get_alter_eq. destruct (Dict.get d pid) as [info0|] eqn:E; [|done].
    intros [= <-]. simpl. by apply H.
  - rewrite get_alter_ne by done. apply H.
Qed.

Lemma download_and_record_distinct_labels env pid dd repo vf (w : World)
    pub pkg target installers :
  distinct_labels pid (downloads w) →
  post (download_and_record env pid dd repo vf pub pkg target installers) w
    (λ r w', distinct_labels pid (downloads w')).
Proof.
  intros H. unfold download_and_record. post_run.
  all: repeat first
         [ assumption
         | apply distinct_labels_new
         | apply distinct_labels_stamp
         | apply distinct_labels_record_file
         | apply distinct_labels_record_entry ].
Qed.

(** A file that is read from a directory under the name of a URL is an
    entry of that directory. *)
Lemma read_name (f : gmap (list string) Fs.node) (d : Fs.path)
    (url data : string) :
  Fs.mkdir_p f d = Ok f → Fs.read f (d // Fs.name url) = Ok data →
  Fs.norm (d // Fs.name url) = Fs.norm d ++ [Fs.name url].
Proof.
  intros Hmk Hread%read_stat. unfold Fs.stat in Hread.
  rewrite (join_no_slash _ _ (name_no_slash url)) in *.
  rewrite norm_snoc in *.
  assert (Fs.lookup_norm f (Fs.norm d) = Some Fs.Dir) as Hd
    by apply (mkdir_p_stat _ _ _ Hmk).
  destruct (negb (Fs.proper (Fs.name url))); [congruence|].
  destruct (String.eqb (Fs.name url) ".."); [|done].
  exfalso. unfold Fs.lookup_norm in Hread.
  destruct (removelast (Fs.norm d)) as [|c k] eqn:E; [done|].
  rewrite <- E, removelast_firstn_len in Hread.
  rewrite (mkdir_p_dirs _ _ _ _ Hmk) in Hread; [done|].
  assert (length (removelast (Fs.norm d)) = S (length k)) as Hlen
    by (by rewrite E).
  rewrite removelast_firstn_len, length_take in Hlen. lia.
Qed.

Lemma recorded_entry (pid v : string) (d : dict package_info) fn h :
  recorded_files pid v d = [(fn, h)] →
  ∃ info e, Dict.get d pid = Some info ∧
            Dict.get (versions info) v = Some e ∧ files e = [(fn, h)].
Proof.
  unfold recorded_files. destruct (Dict.get d pid) as [info|]; [|done].
  destruct (Dict.get (versions info) v) as [e|] eqn:E; [|done].
  intros H. by exists info, e.
Qed.

(** X9: a download that returns [True] leaves its version in a state that
    the verification accepts: the entry records one file, the file is in the
    download directory of the version, and [validate_hashes] reports it as
    [MATCH], the computed hash being the recorded one, with no file
    missing. *)
Theorem download_then_validate (env : Env) (self : WingetPackage)
    (vf : option string) (w w' : World) :
  get_package (manager self) (package_id self) = Ok self →
  distinct_labels (package_id self) (downloads w) →
  download env self vf w = (Ok true, w') →
  ∃ target e name data unexpected,
    lookup_entry (package_id self) target (downloads w') = Some e ∧
    files e = [(name, sha256_hex env data)] ∧
    Fs.read (fs w')
      (downloads_dir (manager self) // pub self // pkg self // target // name)
    = Ok data ∧
    ∀ rep, validate_hashes env self w' = Ok rep →
      ∃ vs, r_versions rep = Some vs ∧
            Dict.get vs target
            = Some (mkVersionResult true
                      [(name, mkFileResult MATCH (sha256_hex env data)
                                (sha256_hex env data))]
                      [] unexpected).
Proof.
  intros (_ & _ & Hsplit)%get_package_inv Hnd Hrun.
  unfold download, process_package, mbind, M_bind in Hrun.
  destruct (locate_installers env (package_id self) (mirror_dir (manager self))
              vf w) as [r1 w1] eqn:E.
  destruct (locate_installers_post _ _ _ _ _ _ _ E) as (_ & Hd & _ & _ & Hfound).
  destruct r1 as [[[[[pub0 pkg0] target] installers]|]|e]; [|by simplify_eq..].
  destruct (Hfound _ _ _ _ eq_refl) as (_ & Hsplit' & _).
  assert (pub0 = pub self ∧ pkg0 = pkg self) as [-> ->]
    by (split; congruence).
  rewrite <- Hd in Hnd.
  pose proof (download_and_record_distinct_labels _ _ _ _ _ _ _ _ _ _ Hnd _ _ Hrun)
    as Hnd'.
  destruct (download_and_record_success _ _ _ _ _ _ _ _ _ _ _ _ Hrun eq_refl)
    as (? & ? & ? & url & ? & data & _ & _ & _ & _ & _ & Hmk & Hread & Hrec & _).
  destruct (recorded_entry _ _ _ _ _ Hrec) as (info & e & Hinfo & He & Hfiles).
  destruct (validate_version_one_file env self (fs w') target e (Fs.name url)
              data Hfiles) as [unexpected Hvv].
  { by eapply mkdir_p_stat. }
  { rewrite <- (read_name _ _ _ _ Hmk Hread). apply read_stat in Hread.
    unfold Fs.stat, Fs.lookup_norm in Hread.
    destruct (Fs.norm _) eqn:En; [done|]. done. }
  exists target, e, (Fs.name url), data, unexpected. split_and!; try done.
  { unfold lookup_entry. by rewrite Hinfo. }
  intros rep Hrep. unfold validate_hashes in Hrep. rewrite Hinfo in Hrep.
  destruct (validate_versions_versions _ _ _ _ _ _ Hrep) as [vs Hvs];
    [by eexists|].
  exists vs. split; [done|].
  destruct (validate_versions_lookup _ _ _ _ _ _ target e Hrep)
    as (vr & Hvr & Hgetv).
  - by apply Hnd'.
  - by apply get_elem_of.
  - rewrite Hvs in Hgetv. simpl in Hgetv. congruence.
Qed.

Lemma download_then_validate_witness :
  ∃ target e name data unexpected,
    lookup_entry (package_id foo_bar) target (downloads refreshed_world) = Some e ∧
    files e = [(name, sha256_hex (env (serving "installer bytes")) data)] ∧
    Fs.read (fs refreshed_world)
      (downloads_dir (manager foo_bar) // pub foo_bar // pkg foo_bar // target
       // name)
    = Ok data ∧
    ∀ rep, validate_hashes (env (serving "installer bytes")) foo_bar
             refreshed_world = Ok rep →
      ∃ vs, r_versions rep = Some vs ∧
            Dict.get vs target
            = Some (mkVersionResult true
                      [(name, mkFileResult MATCH
                                (sha256_hex (env (serving "installer bytes")) data)
                                (sha256_hex (env (serving "installer bytes")) data))]
                      [] unexpected).
Proof.
  apply (download_then_validate (env (serving "installer bytes")) foo_bar None
           pinned_world refreshed_world).
  - reflexivity.
  - intros info H. vm_compute in H. injection H as <-. vm_compute.
    apply NoDup_singleton.
  - apply pair_eq; [vm_compute; reflexivity|reflexivity].
Defined.

(** ** The verdict of [validate_hashes] *)

Lemma actual_files_of_fold_inv (entries : list (string * Fs.node)) acc c data :
  Dict.get (fold_left (λ acc e,
              match e.2 with
              | Fs.File data => Dict.set e.1 data acc
              | Fs.Dir => acc
              end) entries acc) c = Some data →
  (c, Fs.File data) ∈ entries ∨ Dict.get acc c = Some data.
Proof.
  revert acc. induction entries as [|[c' n] entries IH]; simpl; intros acc H.
  - by right.
  - apply IH in H as [H|H]; [left; by right|].
    destruct n as [data'|]; simpl in H; [|by right].
    destruct (decide (c' = c)) as [->|Hne].
    + rewrite get_set_eq in H. injection H as ->. left. left.
    + rewrite get_set_ne in H by done. by right.
Qed.

Lemma actual_files_of_inv (entries : list (string * Fs.node)) c data :
  Dict.get (actual_files_of entries) c = Some data →
  (c, Fs.File data) ∈ entries.
Proof. by intros [H|H]%actual_files_of_fold_inv. Qed.

Lemma iterdir_elem (f : gmap (list string) Fs.node) (d : Fs.path) entries c n :
  Fs.iterdir f d = Ok entries →
  (c, n) ∈ entries ↔ f !! (Fs.norm d ++ [c]) = Some n.
Proof.
  unfold Fs.iterdir. destruct (Fs.stat f d) as [[?|]|]; try done.
  intros [= <-]. rewrite list_elem_of_omap. split.
  - intros ([k n'] & Hk & [-> ->]%child_of_inv). by apply elem_of_map_to_list.
  - intros Hk. exists (Fs.norm d ++ [c], n).
    split; [by apply elem_of_map_to_list|apply child_of_snoc].
Qed.

(** The files of a directory, by name *)
Lemma actual_files_spec (f : gmap (list string) Fs.node) (d : Fs.path)
    entries c data :
  Fs.iterdir f d = Ok entries →
  Dict.get (actual_files_of entries) c = Some data ↔
  f !! (Fs.norm d ++ [c]) = Some (Fs.File data).
Proof.
  intros Hit. split.
  - intros H%actual_files_of_inv. by apply (iterdir_elem _ _ _ _ _ Hit).
  - by apply iterdir_file.
Qed.

Lemma check_file_fold_valid env actual (expected : dict string) vr :
  v_valid (fold_left (check_file env actual) expected vr) = true ↔
  v_valid vr = true ∧
  ∀ name h, (name, h) ∈ expected →
    ∃ data, Dict.get actual name = Some data ∧ sha256_hex env data = h.
Proof.
  revert vr. induction expected as [|[name h] expected IH]; simpl; intros vr.
  - split; [|tauto]. intros H. split; [done|]. by intros ?? ?%elem_of_nil.
  - rewrite IH. clear IH.
    destruct (Dict.get actual name) as [data|] eqn:E; simpl.
    + rewrite andb_true_iff, String.eqb_eq. split.
      * intros [[Hv Hh] Hall]. split; [done|].
        intros n' h' [[= -> ->]|Hin]%elem_of_cons; [by exists data|by apply Hall].
      * intros [Hv Hall]. split_and!; [done| |].
        -- destruct (Hall name h ltac:(left)) as (data' & Hd & <-). congruence.
        -- intros n' h' Hin. apply Hall. by right.
    + split; [by intros [? _]|]. intros [_ Hall].
      destruct (Hall name h ltac:(left)) as (data' & Hd & _). congruence.
Qed.

Lemma check_file_fold_missing env actual (expected : dict string) vr :
  missing_files (fold_left (check_file env actual) expected vr)
  = missing_files vr
    ++ filter (λ n, Dict.get actual n = None) (Dict.keys expected).
Proof.
  revert vr. induction expected as [|[name h] expected IH]; simpl; intros vr.
  - by rewrite app_nil_r.
  - rewrite IH. clear IH. destruct (Dict.get actual name) as [data|] eqn:E; simpl.
    + by rewrite filter_cons_False by (by rewrite E).
    + rewrite filter_cons_True by done. by rewrite <- (assoc_L (++)).
Qed.

Lemma check_file_fold_files env actual (expected : dict string) vr name :
  Dict.mem name
    (v_files (fold_left (check_file env actual) expected vr)) = true ↔
  Dict.mem name (v_files vr) = true ∨
  name ∈ Dict.keys expected ∧ is_Some (Dict.get actual name).
Proof.
  revert vr. induction expected as [|[n h] expected IH]; simpl; intros vr.
  - split; [by left|]. intros [?|[?%elem_of_nil _]]; done.
  - rewrite IH. clear IH. rewrite elem_of_cons.
    destruct (Dict.get actual n) as [data|] eqn:E; simpl.
    + destruct (decide (n = name)) as [->|Hne].
      * rewrite mem_set_eq. rewrite E. split; [|by left].
        intros _. right. split; [by left|by eexists].
      * unfold Dict.mem at 1. rewrite get_set_ne by done.
        fold (Dict.mem name (v_files vr)). split.
        -- intros [H|[H1 H2]]; [by left|right; split; [by right|done]].
        -- intros [H|[[->|H1] H2]]; [by left|done|right; by split].
    + split.
      * intros [H|[H1 H2]]; [by left|right; split; [by right|done]].
      * intros [H|[[->|H1] H2]]; [by left| |right; by split].
        rewrite E in H2. by destruct H2.
Qed.

Lemma check_file_fold_other env actual (expected : dict string) vr name :
  name ∉ Dict.keys expected →
  Dict.get (v_files (fold_left (check_file env actual) expected vr)) name
  = Dict.get (v_files vr) name.
Proof.
  revert vr. induction expected as [|[n h] expected IH]; simpl; intros vr; [done|].
  intros [Hne Hnot]%not_elem_of_cons. rewrite IH by done.
  destruct (Dict.get actual n); simpl; [|done]. by apply get_set_ne.
Qed.

Lemma check_file_fold_get env actual (expected : dict string) vr name h data :
  NoDup (Dict.keys expected) → (name, h) ∈ expected →
  Dict.get actual name = Some data →
  Dict.get (v_files (fold_left (check_file env actual) expected vr)) name
  = Some (mkFileResult
            (if String.eqb (sha256_hex env data) h then MATCH else MISMATCH)
            h (sha256_hex env data)).
Proof.
  revert vr. induction expected as [|[n h'] expected IH]; simpl; intros vr Hnd Hin Hd.
  - by apply elem_of_nil in Hin.
  - apply NoDup_cons in Hnd as [Hn Hnd].
    apply elem_of_cons in Hin as [[= -> ->]|Hin]; [|by apply IH].
    rewrite check_file_fold_other by done. rewrite Hd. simpl. apply get_set_eq.
Qed.

(** X10: for a version with recorded files, [validate_hashes] raises exactly
    when the download directory of the version is a file.  Otherwise the
    version is valid exactly when the directory exists and holds every
    recorded file with the recorded hash; the files it holds besides do not
    count. *)
Theorem version_is_valid_when_every_file_matches (env : Env)
    (self : WingetPackage) (f : gmap (list string) Fs.node) (version : string)
    (e : entry) :
  files e ≠ [] →
  (is_ok (validate_version env self f version e) = false ↔
   ∃ data, Fs.stat f (downloads_dir (manager self) // pub self // pkg self
                      // version) = Some (Fs.File data)) ∧
  ∀ vr, validate_version env self f version e = Ok vr →
    (v_valid vr = true ↔
     Fs.is_dir f (downloads_dir (manager self) // pub self // pkg self
                  // version) = true ∧
     ∀ name h, (name, h) ∈ files e →
       ∃ data,
         f !! (Fs.norm (downloads_dir (manager self) // pub self // pkg self
                        // version) ++ [name]) = Some (Fs.File data) ∧
         sha256_hex env data = h).
Proof.
  intros Hfiles. unfold validate_version, Fs.exists_, Fs.is_dir, Fs.iterdir.
  set (dir := downloads_dir (manager self) // pub self // pkg self // version).
  destruct (files e) as [|item rest] eqn:Efiles; [done|]. rewrite <- Efiles.
  assert (Dict.is_empty (files e) = false) as -> by (by rewrite Efiles).
  destruct (Fs.stat f dir) as [[data|]|] eqn:Estat; simpl.
  - split; [split; [by eexists|done]|done].
  - split; [split; [done|by intros [? ?]]|]. intros vr [= <-]. simpl.
    rewrite check_file_fold_valid. simpl.
    assert (Fs.iterdir f dir
            = Ok (omap (Fs.child_of (Fs.norm dir)) (map_to_list f))) as Hit
      by (unfold Fs.iterdir; by rewrite Estat).
    split.
    + intros [_ Hall]. split; [done|]. intros name h Hin.
      destruct (Hall name h Hin) as (data & Hd & Hh). exists data.
      split; [|done]. by apply (actual_files_spec _ _ _ _ _ Hit).
    + intros [_ Hall]. split; [done|]. intros name h Hin.
      destruct (Hall name h Hin) as (data & Hd & Hh). exists data.
      split; [|done]. by apply (actual_files_spec _ _ _ _ _ Hit).
  - split; [split; [done|by intros [? ?]]|]. intros vr [= <-]. simpl.
    split; [done|by intros [? _]].
Qed.

Lemma version_is_valid_when_every_file_matches_witness :
  validate_version (env unreachable) foo_bar (fs pinned_world) "1.2.3"
    (mkEntry "c0ffee" [("Bar-1.2.3.exe", "sha256(installer bytes)")]
       (mkDatetime 2026 1 0) true)
  = Ok (mkVersionResult true
          [("Bar-1.2.3.exe",
            mkFileResult MATCH "sha256(installer bytes)"
              "sha256(installer bytes)")] [] []) ∧
  (true = true ↔
   Fs.is_dir (fs pinned_world)
     (downloads_dir (manager foo_bar) // pub foo_bar // pkg foo_bar // "1.2.3")
   = true ∧
   ∀ name h, (name, h) ∈ [("Bar-1.2.3.exe", "sha256(installer bytes)")] →
     ∃ data,
       fs pinned_world
         !! (Fs.norm (downloads_dir (manager foo_bar) // pub foo_bar
                      // pkg foo_bar // "1.2.3") ++ [name])
       = Some (Fs.File data) ∧
       sha256_hex (env unreachable) data = h).
Proof.
  assert (validate_version (env unreachable) foo_bar (fs pinned_world) "1.2.3"
            (mkEntry "c0ffee" [("Bar-1.2.3.exe", "sha256(installer bytes)")]
               (mkDatetime 2026 1 0) true)
          = Ok (mkVersionResult true
                  [("Bar-1.2.3.exe",
                    mkFileResult MATCH "sha256(installer bytes)"
                      "sha256(installer bytes)")] [] [])) as Hvr
    by (vm_compute; reflexivity).
  split; [exact Hvr|].
  apply (proj2 (version_is_valid_when_every_file_matches (env unreachable)
                  foo_bar (fs pinned_world) "1.2.3"
                  (mkEntry "c0ffee"
                     [("Bar-1.2.3.exe", "sha256(installer bytes)")]
                     (mkDatetime 2026 1 0) true) ltac:(discriminate)) _ Hvr).
Defined.

Lemma elem_of_keys_get {V} (d : dict V) (k : string) :
  k ∈ Dict.keys d ↔ is_Some (Dict.get d k).
Proof.
  destruct (Dict.get d k) as [v|] eqn:E.
  - split; [by eexists|]. intros _. apply get_elem_of in E.
    apply list_elem_of_fmap. by exists (k, v).
  - apply get_None_keys in E. split; [done|]. by intros [? ?].
Qed.

(** X11: for a version whose download directory exists, the three lists of
    the result tell the recorded files and the files of the directory apart.
    A recorded file is listed in [files] when the directory holds it, with
    the recorded hash, the hash of its content, and [MATCH] exactly when the
    two are equal, and in [missing_files] when it does not; a file of the
    directory that is not recorded is listed in [unexpected_files], and
    nothing else is. *)
Theorem validate_version_tells_files_apart (env : Env) (self : WingetPackage)
    (f : gmap (list string) Fs.node) (version : string) (e : entry)
    (vr : version_result) :
  files e ≠ [] → NoDup (Dict.keys (files e)) →
  Fs.is_dir f (downloads_dir (manager self) // pub self // pkg self // version)
  = true →
  validate_version env self f version e = Ok vr →
  (∀ name h data, (name, h) ∈ files e →
     f !! (Fs.norm (downloads_dir (manager self) // pub self // pkg self
                    // version) ++ [name]) = Some (Fs.File data) →
     Dict.get (v_files vr) name
     = Some (mkFileResult
               (if String.eqb (sha256_hex env data) h then MATCH else MISMATCH)
               h (sha256_hex env data)) ∧
     name ∉ missing_files vr) ∧
  (∀ name, name ∈ missing_files vr ↔
     name ∈ Dict.keys (files e) ∧
     ∀ data, (f !! (Fs.norm (downloads_dir (manager self) // pub self
                             // pkg self // version) ++ [name]))
             ≠ Some (Fs.File data)) ∧
  (∀ name, name ∈ unexpected_files vr ↔
     (name ∉ Dict.keys (files e)) ∧
     ∃ data, f !! (Fs.norm (downloads_dir (manager self) // pub self
                            // pkg self // version) ++ [name])
             = Some (Fs.File data)).
Proof.
  intros Hfiles Hnd Hdir. unfold validate_version, Fs.exists_.
  set (dir := downloads_dir (manager self) // pub self // pkg self // version)
    in *.
  destruct (files e) as [|item rest] eqn:Efiles; [done|]. rewrite <- Efiles in *.
  assert (Dict.is_empty (files e) = false) as -> by (by rewrite Efiles).
  unfold Fs.is_dir in Hdir.
  destruct (Fs.stat f dir) as [[?|]|] eqn:Estat; try done. simpl.
  destruct (Fs.iterdir f dir) as [entries|] eqn:Hit;
    [|unfold Fs.iterdir in Hit; by rewrite Estat in Hit].
  simpl. intros [= <-]. simpl.
  assert (∀ name, Dict.get (actual_files_of entries) name = None ↔
                  ∀ data, (f !! (Fs.norm dir ++ [name])) ≠ Some (Fs.File data))
    as Hnone.
  { intros name. split.
    - intros Hn data Hd%(actual_files_spec _ _ _ _ _ Hit). congruence.
    - intros Hn. destruct (Dict.get _ name) as [data|] eqn:E; [|done].
      by apply (actual_files_spec _ _ _ _ _ Hit), Hn in E. }
  split_and!.
  - intros name h data Hin Hd%(actual_files_spec _ _ _ _ _ Hit). split.
    + by apply check_file_fold_get.
    + rewrite check_file_fold_missing. simpl.
      intros [Hn _]%list_elem_of_filter. congruence.
  - intros name. rewrite check_file_fold_missing. simpl.
    rewrite list_elem_of_filter, Hnone. tauto.
  - intros name. rewrite list_elem_of_filter, elem_of_keys_get.
    unfold Dict.mem. rewrite (elem_of_keys_get (files e)). split.
    + intros [Hno [data Hd]]. split.
      * intros [h Hh]. by rewrite Hh in Hno.
      * exists data. by apply (actual_files_spec _ _ _ _ _ Hit).
    + intros [Hno [data Hd]]. split.
      * destruct (Dict.get (files e) name) eqn:E; [|done].
        exfalso. apply Hno. by eexists.
      * exists data. by apply (actual_files_spec _ _ _ _ _ Hit).
Qed.

Lemma validate_version_tells_files_apart_witness :
  validate_version (env unreachable) foo_bar (fs pinned_world) "1.2.3"
    (mkEntry "c0ffee" [("Bar-1.2.3.exe", "sha256(installer bytes)")]
       (mkDatetime 2026 1 0) true)
  = Ok (mkVersionResult true
          [("Bar-1.2.3.exe",
            mkFileResult MATCH "sha256(installer bytes)"
              "sha256(installer bytes)")] [] []) ∧
  ∀ name, name ∈ @nil string ↔
    (name ∉ Dict.keys [("Bar-1.2.3.exe", "sha256(installer bytes)")]) ∧
    ∃ data, fs pinned_world
              !! (Fs.norm (downloads_dir (manager foo_bar) // pub foo_bar
                           // pkg foo_bar // "1.2.3") ++ [name])
            = Some (Fs.File data).
Proof.
  assert (validate_version (env unreachable) foo_bar (fs pinned_world) "1.2.3"
            (mkEntry "c0ffee" [("Bar-1.2.3.exe", "sha256(installer bytes)")]
               (mkDatetime 2026 1 0) true)
          = Ok (mkVersionResult true
                  [("Bar-1.2.3.exe",
                    mkFileResult MATCH "sha256(installer bytes)"
                      "sha256(installer bytes)")] [] [])) as Hvr
    by (vm_compute; reflexivity).
  split; [exact Hvr|].
  apply (validate_version_tells_files_apart (env unreachable) foo_bar
           (fs pinned_world) "1.2.3"
           (mkEntry "c0ffee" [("Bar-1.2.3.exe", "sha256(installer bytes)")]
              (mkDatetime 2026 1 0) true) _
           ltac:(discriminate) (NoDup_singleton _)
           ltac:(vm_compute; reflexivity) Hvr).
Defined.

(** *** The report as a whole *)

Lemma validate_versions_keys env self f items res rep :
  validate_versions env self f items res = Ok rep →
  NoDup (Dict.keys items) →
  (∀ v, v ∈ Dict.keys items → v ∉ Dict.keys (default [] (r_versions res))) →
  Dict.keys (default [] (r_versions rep))
  = Dict.keys (default [] (r_versions res)) ++ Dict.keys items.
Proof.
  revert res. induction items as [|[v e] items IH]; simpl; intros res H Hnd Hnew.
  - injection H as <-. by rewrite app_nil_r.
  - apply NoDup_cons in Hnd as [Hv Hnd].
    destruct (validate_version env self f v e) as [vr|]; simpl in H; [|done].
    assert (Dict.mem v (default [] (r_versions res)) = false) as Hmem.
    { apply not_true_is_false. intros [x Hx]%mem_get.
      apply (Hnew v); [left|]. apply elem_of_keys_get. by eexists. }
    rewrite (IH _ H Hnd); simpl.
    + rewrite keys_set_new by done. by rewrite <- (assoc_L (++)).
    + intros v' Hv'. rewrite keys_set_new by done.
      intros [Hin|Heq%list_elem_of_singleton]%elem_of_app; [|by subst].
      revert Hin. apply Hnew. by right.
Qed.

Lemma validate_versions_valid_iff env self f items res rep :
  validate_versions env self f items res = Ok rep →
  valid rep = true ↔
  valid res = true ∧
  ∀ v e vr, (v, e) ∈ items → validate_version env self f v e = Ok vr →
            v_valid vr = true.
Proof.
  revert res. induction items as [|[v e] items IH]; simpl; intros res H.
  - injection H as <-. split; [|tauto]. intros ?. split; [done|].
    by intros ??? ?%elem_of_nil.
  - destruct (validate_version env self f v e) as [vr|] eqn:E; simpl in H; [|done].
    rewrite (IH _ H). simpl. rewrite andb_true_iff. split.
    + intros [[Hres Hvr] Hall]. split; [done|].
      intros v' e' vr' [[= -> ->]|Hin]%elem_of_cons Hv'; [congruence|].
      by eapply Hall.
    + intros [Hres Hall]. split_and!; [done| |].
      * apply (Hall v e); [left|done].
      * intros v' e' vr' Hin. apply Hall. by right.
Qed.

(** X12: the report of [validate_hashes] for a package of the state has no
    error and one result for each version of the package, in the order of
    the state; it is valid exactly when each of these results is. *)
Theorem report_is_valid_when_every_version_is (env : Env)
    (self : WingetPackage) (w : World) (info : package_info) (rep : report) :
  Dict.get (downloads w) (package_id self) = Some info →
  NoDup (Dict.keys (versions info)) →
  validate_hashes env self w = Ok rep →
  error rep = None ∧
  ∃ vs, r_versions rep = Some vs ∧
        Dict.keys vs = Dict.keys (versions info) ∧
        (∀ v e, Dict.get (versions info) v = Some e →
           ∃ vr, validate_version env self (fs w) v e = Ok vr ∧
                 Dict.get vs v = Some vr) ∧
        (valid rep = true ↔
         ∀ v vr, Dict.get vs v = Some vr → v_valid vr = true).
Proof.
  intros Hinfo Hnd Hrep. unfold validate_hashes in Hrep. rewrite Hinfo in Hrep.
  destruct (validate_versions_versions _ _ _ _ _ _ Hrep) as [vs Hvs];
    [by eexists|].
  pose proof (validate_versions_keys _ _ _ _ _ _ Hrep Hnd) as Hkeys.
  rewrite Hvs in Hkeys. simpl in Hkeys.
  assert (∀ v e, Dict.get (versions info) v = Some e →
            ∃ vr, validate_version env self (fs w) v e = Ok vr ∧
                  Dict.get vs v = Some vr) as Hlookup.
  { intros v e He.
    destruct (validate_versions_lookup _ _ _ _ _ _ v e Hrep Hnd)
      as (vr & Hvr & Hget); [by apply get_elem_of|].
    rewrite Hvs in Hget. by exists vr. }
  split.
  { assert (∀ items res rep0,
              validate_versions env self (fs w) items res = Ok rep0 →
              error rep0 = error res) as Herr.
    { intros items. induction items as [|[v e] items IH]; simpl; intros res rep0 H.
      - by injection H as <-.
      - destruct (validate_version env self (fs w) v e); simpl in H; [|done].
        by rewrite (IH _ _ H). }
    by rewrite (Herr _ _ _ Hrep). }
  exists vs. split_and!; [done|by apply Hkeys; intros ?? ?%elem_of_nil|done|].
  rewrite (validate_versions_valid_iff _ _ _ _ _ _ Hrep). simpl. split.
  - intros [_ Hall] v vr Hget.
    assert (v ∈ Dict.keys (versions info)) as [e He]%elem_of_keys_get.
    { rewrite <- Hkeys by (by intros ?? ?%elem_of_nil).
      apply elem_of_keys_get. by eexists. }
    destruct (Hlookup v e He) as (vr' & Hvr' & Hget').
    assert (vr' = vr) as -> by congruence.
    apply (Hall v e vr); [by apply get_elem_of|done].
  - intros Hall. split; [done|]. intros v e vr Hin Hvr.
    destruct (Hlookup v e (elem_of_get _ _ _ Hnd Hin)) as (vr' & Hvr' & Hget').
    assert (vr' = vr) as -> by congruence. by apply (Hall v).
Qed.

Lemma report_is_valid_when_every_version_is_witness :
  error (mkReport true None
           (Some [("1.2.3",
                   mkVersionResult true
                     [("Bar-1.2.3.exe",
                       mkFileResult MATCH "sha256(installer bytes)"
                         "sha256(installer bytes)")] [] [])])) = None ∧
  ∃ vs, Some [("1.2.3",
               mkVersionResult true
                 [("Bar-1.2.3.exe",
                   mkFileResult MATCH "sha256(installer bytes)"
                     "sha256(installer bytes)")] [] [])] = Some vs ∧
        Dict.keys vs
        = Dict.keys [("1.2.3",
                      mkEntry "c0ffee"
                        [("Bar-1.2.3.exe", "sha256(installer bytes)")]
                        (mkDatetime 2026 1 0) true)] ∧
        (∀ v e, Dict.get [("1.2.3",
                           mkEntry "c0ffee"
                             [("Bar-1.2.3.exe", "sha256(installer bytes)")]
                             (mkDatetime 2026 1 0) true)] v = Some e →
           ∃ vr, validate_version (env unreachable) foo_bar (fs pinned_world)
                   v e = Ok vr ∧
                 Dict.get vs v = Some vr) ∧
        (true = true ↔
         ∀ v vr, Dict.get vs v = Some vr → v_valid vr = true).
Proof.
  apply (report_is_valid_when_every_version_is (env unreachable) foo_bar
           pinned_world
           (mkInfo [("1.2.3",
                     mkEntry "c0ffee"
                       [("Bar-1.2.3.exe", "sha256(installer bytes)")]
                       (mkDatetime 2026 1 0) true)]
              (Some (mkDatetime 2026 1 1)))
           (mkReport true None
              (Some [("1.2.3",
                      mkVersionResult true
                        [("Bar-1.2.3.exe",
                          mkFileResult MATCH "sha256(installer bytes)"
                            "sha256(installer bytes)")] [] [])]))).
  - vm_compute. reflexivity.
  - apply NoDup_singleton.
  - vm_compute. reflexivity.
Defined.

(** ** The selection of [cleanup], in general *)

Section sorting.
Context {A : Type} (cmp : A → A → comparison) (Hcmp : ordering cmp).
Context (ltb : A → A → bool) (Hltb : ∀ a b, ltb a b = true ↔ cmp a b = Lt).

Lemma insert_by_perm (x : A) (l : list A) : insert_by ltb x l ≡ₚ x :: l.
Proof.
  induction l as [|y l IH]; simpl; [done|].
  destruct (ltb y x); [|done]. rewrite IH. apply Permutation_swap.
Qed.

Lemma sort_by_perm (l : list A) : sort_by ltb l ≡ₚ l.
Proof.
  induction l as [|x l IH]; simpl; [done|]. by rewrite insert_by_perm, IH.
Qed.

Lemma not_ltb (a b : A) : ltb a b = false ↔ cmp a b ≠ Lt.
Proof.
  rewrite <- Hltb. destruct (ltb a b); split; done.
Qed.

Lemma insert_by_sorted (x : A) (l : list A) :
  ascending (λ a b, ltb b a = false) l →
  ascending (λ a b, ltb b a = false) (insert_by ltb x l).
Proof.
  induction l as [|y l IH]; simpl.
  - by repeat constructor.
  - intros [Hy Hl]. destruct (ltb y x) eqn:E; simpl.
    + split; [|by apply IH]. apply Forall_forall.
      intros z [->|Hz]%insert_by_elem.
      * apply not_ltb. apply Hltb in E. intros Hxy.
        pose proof (ordering_lt _ Hcmp _ _ _ Hxy E) as Hrefl.
        by rewrite (ordering_refl _ Hcmp) in Hrefl.
      * by apply (proj1 (Forall_forall _ _) Hy).
    + split; [|done]. constructor; [done|].
      apply Forall_forall. intros z Hz.
      pose proof (proj1 (Forall_forall _ _) Hy z Hz) as Hzy.
      apply not_ltb in E, Hzy. apply not_ltb. intros Hzx.
      apply Hzy. apply (ordering_lt_le _ Hcmp _ x); [done|].
      intros Hgt%(ordering_gt_lt _ Hcmp). done.
Qed.

Lemma sort_by_sorted (l : list A) :
  ascending (λ a b, ltb b a = false) (sort_by ltb l).
Proof.
  induction l as [|x l IH]; simpl; [done|by apply insert_by_sorted].
Qed.
End sorting.

Lemma ascending_fmap {A B} (g : A → B) (R : B → B → Prop) (l : list A) :
  ascending (λ a b, R (g a) (g b)) l → ascending R (map g l).
Proof.
  induction l as [|x l IH]; simpl; [done|]. intros [Hx Hl]. split; [|by apply IH].
  apply Forall_forall. intros y (a & -> & Ha)%list_elem_of_fmap.
  by apply (proj1 (Forall_forall _ _) Hx).
Qed.

Lemma ascending_impl {A} (R R' : A → A → Prop) (l : list A) :
  (∀ a b, a ∈ l → b ∈ l → R a b → R' a b) → ascending R l → ascending R' l.
Proof.
  induction l as [|x l IH]; simpl; [done|]. intros H [Hx Hl]. split.
  - apply Forall_forall. intros y Hy. apply H; [left|by right|].
    by apply (proj1 (Forall_forall _ _) Hx).
  - apply IH; [|done]. intros a b Ha Hb. apply H; by right.
Qed.

Lemma elem_of_drop_in {A} (x : A) (n : nat) (l : list A) :
  x ∈ drop n l → x ∈ l.
Proof. intros H. rewrite <- (take_drop n l). apply elem_of_app. by right. Qed.

Lemma ascending_take_drop {A} (R : A → A → Prop) (l : list A) (n : nat)
    (a b : A) :
  ascending R l → a ∈ take n l → b ∈ drop n l → R a b.
Proof.
  revert n. induction l as [|x l IH]; intros n Hl Ha Hb.
  - rewrite take_nil in Ha. by apply elem_of_nil in Ha.
  - destruct Hl as [Hx Hl].
    destruct n as [|n]; simpl in *; [by apply elem_of_nil in Ha|].
    apply elem_of_cons in Ha as [->|Ha]; [|by eapply IH].
    apply (proj1 (Forall_forall _ _) Hx). by eapply elem_of_drop_in.
Qed.

(** The unpinned versions in the order of their keys *)
Lemma to_delete_sorted now mv ma (versions : dict entry) l :
  to_delete now mv ma versions = Ok l →
  ∃ sorted,
    sorted ≡ₚ filter (λ item, pinned item.2 = false) versions ∧
    ascending (λ a b : string * entry, label_lt b.1 a.1 = false) sorted ∧
    Forall (λ item, is_ok (parse_version_safe item.1) = true) sorted ∧
    l = age_rule now ma sorted
          (if (Z.of_nat (length sorted) >? mv)%Z then slice_to (- mv) sorted
           else []).
Proof.
  unfold to_delete.
  destruct (filter _ versions) as [|u us] eqn:Ef.
  { intros [= <-]. exists []. split_and!; try done.
    unfold age_rule, slice_to. simpl. rewrite take_nil.
    by destruct (_ >? _)%Z. }
  rewrite <- Ef. clear u us Ef.
  destruct (rmapM _ _) as [keyed|] eqn:Ek; simpl; [|done].
  apply keyed_items in Ek as [Hitems Hparsed].
  intros [= <-].
  set (ltk := λ a b : Packaging.Version * (string * entry),
                Packaging.lt a.1 b.1).
  exists (map snd (sort_by ltk keyed)).
  assert (∀ a b, ltk a b = true ↔ version_compare a.1 b.1 = Lt) as Hltk.
  { intros a b. apply lt_compare. }
  pose proof (ordering_pull _ ordering_version
                (fst : Packaging.Version * (string * entry) → _)) as Hord.
  split_and!; [| | |done].
  - rewrite <- Hitems. apply fmap_Permutation. apply sort_by_perm.
  - apply ascending_fmap.
    eapply ascending_impl; [|by apply (sort_by_sorted _ Hord ltk Hltk)].
    intros a b Ha Hb Hab. simpl in Hab.
    apply sort_by_elem in Ha, Hb. unfold label_lt.
    rewrite (proj1 (Forall_forall _ _) Hparsed a Ha).
    by rewrite (proj1 (Forall_forall _ _) Hparsed b Hb).
  - apply Forall_forall. intros item (ki & -> & Hki%sort_by_elem)%list_elem_of_fmap.
    by rewrite (proj1 (Forall_forall _ _) Hparsed ki Hki).
Qed.

Lemma age_rule_spec now ma (unpinned td : list (string * entry)) item :
  item ∈ age_rule now ma unpinned td ↔
  item ∈ td ∨
  item ∈ unpinned ∧ (age_months now (timestamp item.2) > ma)%Z.
Proof.
  unfold age_rule. revert td.
  induction unpinned as [|x l IH]; simpl; intros td.
  - split; [by left|]. intros [?|[?%elem_of_nil _]]; done.
  - rewrite IH, elem_of_cons. clear IH.
    destruct (age_months now (timestamp x.2) >? ma)%Z eqn:Eage; simpl.
    + apply Z.gtb_lt in Eage.
      destruct (bool_decide (x ∈ td)) eqn:Ein; simpl.
      * apply bool_decide_eq_true in Ein. split.
        -- intros [?|[? ?]]; [by left|right; split; [by right|done]].
        -- intros [?|[[->|?] ?]]; [by left|by left|by right].
      * rewrite elem_of_app, list_elem_of_singleton. split.
        -- intros [[?| ->]|[? ?]];
             [by left|right; split; [by left|lia]|right; split; [by right|done]].
        -- intros [?|[[->|?] ?]]; [by left; left|by left; right|by right].
    + rewrite Z.gtb_ltb in Eage. apply Z.ltb_ge in Eage. split.
      * intros [?|[? ?]]; [by left|right; split; [by right|done]].
      * intros [?|[[->|?] ?]]; [by left|lia|by right].
Qed.

Lemma age_rule_nodup now ma (unpinned td : list (string * entry)) :
  NoDup td → NoDup (age_rule now ma unpinned td).
Proof.
  unfold age_rule. revert td.
  induction unpinned as [|x l IH]; simpl; intros td Htd; [done|].
  apply IH. destruct (_ >? _)%Z; simpl; [|done].
  destruct (bool_decide (x ∈ td)) eqn:Ein; simpl; [done|].
  apply bool_decide_eq_false in Ein. apply NoDup_app. split_and!; [done| |].
  - by intros y Hy ->%list_elem_of_singleton.
  - apply NoDup_singleton.
Qed.

Lemma age_rule_length now ma (unpinned td : list (string * entry)) :
  (List.length td ≤ List.length (age_rule now ma unpinned td))%nat.
Proof.
  unfold age_rule. revert td.
  induction unpinned as [|x l IH]; simpl; intros td; [done|].
  etrans; [|apply IH]. destruct (_ && _); [|done]. rewrite length_app. lia.
Qed.

Lemma slice_to_neg {A} (n : Z) (l : list A) :
  (0 < n)%Z → slice_to (- n) l = take (List.length l - Z.to_nat n) l.
Proof.
  intros Hn. unfold slice_to.
  assert ((- n <? 0)%Z = true) as -> by (apply Z.ltb_lt; lia).
  f_equal. lia.
Qed.

(** X13: with a positive [max_unpinned_versions], [cleanup] keeps at most that
    many unpinned versions of a package.  Every version it selects is older
    than the age limit, or else no unpinned version that it keeps has a
    smaller key; and when no unpinned version is older than the limit, it
    selects exactly those in excess of the cap. *)
Theorem cleanup_keeps_the_newest (now : datetime)
    (max_versions max_age_months : Z) (versions : dict entry)
    (l : list (string * entry)) :
  (0 < max_versions)%Z →
  to_delete now max_versions max_age_months versions = Ok l →
  (Z.of_nat (List.length (filter (λ item, pinned item.2 = false) versions))
   - Z.of_nat (List.length l) ≤ max_versions)%Z ∧
  (∀ a, a ∈ l →
     (age_months now (timestamp a.2) > max_age_months)%Z ∨
     ∀ b, b ∈ versions → pinned b.2 = false → b ∉ l →
          label_lt b.1 a.1 = false) ∧
  ((∀ item, item ∈ versions → pinned item.2 = false →
      (age_months now (timestamp item.2) ≤ max_age_months)%Z) →
   List.length l = List.length (filter (λ item, pinned item.2 = false) versions)
              - Z.to_nat max_versions).
Proof.
  intros Hmv (sorted & Hperm & Hasc & _ & ->)%to_delete_sorted.
  rewrite <- Hperm.
  set (slice := if (Z.of_nat (List.length sorted) >? max_versions)%Z
                then slice_to (- max_versions) sorted else []).
  assert (slice = take (List.length sorted - Z.to_nat max_versions) sorted) as Hslice.
  { unfold slice. destruct (_ >? _)%Z eqn:E; [by apply slice_to_neg|].
    rewrite Z.gtb_ltb in E. apply Z.ltb_ge in E.
    replace (List.length sorted - Z.to_nat max_versions) with 0 by lia. done. }
  split_and!.
  - pose proof (age_rule_length now max_age_months sorted slice) as Hlen.
    assert (List.length slice
            = List.length sorted - Z.to_nat max_versions)%nat as Hls
      by (rewrite Hslice, length_take; lia).
    lia.
  - intros a [Ha|[_ Ha]]%age_rule_spec; [right|by left].
    intros b Hb Hpin Hnot.
    assert (b ∈ sorted) as Hbs.
    { rewrite Hperm. by apply list_elem_of_filter. }
    rewrite <- (take_drop (List.length sorted - Z.to_nat max_versions) sorted) in Hbs.
    apply elem_of_app in Hbs as [Hbs|Hbs].
    + exfalso. apply Hnot. apply age_rule_spec. left. by rewrite Hslice.
    + rewrite Hslice in Ha. apply (ascending_take_drop _ _ _ _ _ Hasc Ha Hbs).
  - intros Hyoung. rewrite age_rule_none.
    + rewrite Hslice, length_take. lia.
    + apply Forall_forall. intros item Hi. rewrite Hperm in Hi.
      apply list_elem_of_filter in Hi as [Hp Hi]. by apply Hyoung.
Qed.

Lemma cleanup_keeps_the_newest_witness :
  to_delete (mkDatetime 2026 11 0) 2 6
    [("1.2", mkEntry "c0ffee" [] (mkDatetime 2026 9 0) false);
     ("1.0", mkEntry "c0ffee" [] (mkDatetime 2026 6 0) false);
     ("1.3", mkEntry "c0ffee" [] (mkDatetime 2026 10 0) true);
     ("1.1", mkEntry "c0ffee" [] (mkDatetime 2026 7 0) false)]
  = Ok [("1.0", mkEntry "c0ffee" [] (mkDatetime 2026 6 0) false)] ∧
  (Z.of_nat 3 - Z.of_nat 1 ≤ 2)%Z.
Proof.
  assert (to_delete (mkDatetime 2026 11 0) 2 6
            [("1.2", mkEntry "c0ffee" [] (mkDatetime 2026 9 0) false);
             ("1.0", mkEntry "c0ffee" [] (mkDatetime 2026 6 0) false);
             ("1.3", mkEntry "c0ffee" [] (mkDatetime 2026 10 0) true);
             ("1.1", mkEntry "c0ffee" [] (mkDatetime 2026 7 0) false)]
          = Ok [("1.0", mkEntry "c0ffee" [] (mkDatetime 2026 6 0) false)])
    as Hl by (vm_compute; reflexivity).
  split; [exact Hl|].
  apply (cleanup_keeps_the_newest (mkDatetime 2026 11 0) 2 6 _ _
           ltac:(lia) Hl).
Defined.

(** X14: [max_unpinned_versions = 0] does not mean that no unpinned version is
    kept: the slice [unpinned[:-0]] is empty, so with this setting the count
    selects nothing, and only the versions older than the age limit are
    selected. *)
Theorem cleanup_with_cap_zero_selects_by_age_only (now : datetime)
    (max_age_months : Z) (versions : dict entry) (l : list (string * entry)) :
  to_delete now 0 max_age_months versions = Ok l →
  ∀ item, item ∈ l ↔
    item ∈ versions ∧ pinned item.2 = false ∧
    (age_months now (timestamp item.2) > max_age_months)%Z.
Proof.
  intros (sorted & Hperm & _ & _ & ->)%to_delete_sorted item.
  assert ((if (Z.of_nat (List.length sorted) >? 0)%Z
           then slice_to (- 0) sorted else []) = []) as ->.
  { destruct (_ >? _)%Z; [|done]. unfold slice_to. simpl.
    by rewrite Z.min_l by lia. }
  rewrite age_rule_spec, Hperm, list_elem_of_filter, elem_of_nil. tauto.
Qed.

Lemma cleanup_with_cap_zero_selects_by_age_only_witness :
  to_delete (mkDatetime 2026 11 0) 0 6
    [("1.2", mkEntry "c0ffee" [] (mkDatetime 2026 9 0) false);
     ("1.0", mkEntry "c0ffee" [] (mkDatetime 2026 1 0) false);
     ("1.1", mkEntry "c0ffee" [] (mkDatetime 2026 7 0) false)]
  = Ok [("1.0", mkEntry "c0ffee" [] (mkDatetime 2026 1 0) false)] ∧
  ∀ item, item ∈ [("1.0", mkEntry "c0ffee" [] (mkDatetime 2026 1 0) false)] ↔
    item ∈ [("1.2", mkEntry "c0ffee" [] (mkDatetime 2026 9 0) false);
            ("1.0", mkEntry "c0ffee" [] (mkDatetime 2026 1 0) false);
            ("1.1", mkEntry "c0ffee" [] (mkDatetime 2026 7 0) false)] ∧
    pinned item.2 = false ∧
    (age_months (mkDatetime 2026 11 0) (timestamp item.2) > 6)%Z.
Proof.
  assert (to_delete (mkDatetime 2026 11 0) 0 6
            [("1.2", mkEntry "c0ffee" [] (mkDatetime 2026 9 0) false);
             ("1.0", mkEntry "c0ffee" [] (mkDatetime 2026 1 0) false);
             ("1.1", mkEntry "c0ffee" [] (mkDatetime 2026 7 0) false)]
          = Ok [("1.0", mkEntry "c0ffee" [] (mkDatetime 2026 1 0) false)])
    as Hl by (vm_compute; reflexivity).
  split; [exact Hl|].
  apply (cleanup_with_cap_zero_selects_by_age_only (mkDatetime 2026 11 0) 6 _ _
           Hl).
Defined.

Lemma NoDup_take_of {A} (n : nat) (l : list A) : NoDup l → NoDup (take n l).
Proof.
  intros H. rewrite <- (take_drop n l) in H. by apply NoDup_app in H as [? _].
Qed.

(** X15: [cleanup] selects every unpinned version that is older than the age
    limit, whatever the count, and it selects no version twice. *)
Theorem cleanup_selects_every_old_version_once (now : datetime)
    (max_versions max_age_months : Z) (versions : dict entry)
    (l : list (string * entry)) :
  to_delete now max_versions max_age_months versions = Ok l →
  (∀ item, item ∈ versions → pinned item.2 = false →
     (age_months now (timestamp item.2) > max_age_months)%Z → item ∈ l) ∧
  (NoDup (Dict.keys versions) → NoDup (map fst l)).
Proof.
  intros Hl. pose proof Hl as (sorted & Hperm & _ & _ & ->)%to_delete_sorted.
  split.
  - intros item Hi Hp Hage. apply age_rule_spec. right. split; [|done].
    rewrite Hperm. by apply list_elem_of_filter.
  - intros Hnd. apply NoDup_fmap_2_strong.
    + intros [k1 e1] [k2 e2] [H1 _]%(to_delete_unpinned _ _ _ _ _ _ Hl)
        [H2 _]%(to_delete_unpinned _ _ _ _ _ _ Hl). simpl. intros ->.
      apply (elem_of_get _ _ _ Hnd) in H1, H2. congruence.
    + apply age_rule_nodup.
      assert (NoDup sorted) as Hs.
      { rewrite Hperm. apply NoDup_filter. by apply NoDup_fmap_1 in Hnd. }
      destruct (_ >? _)%Z; [|constructor]. by apply NoDup_take_of.
Qed.

Lemma cleanup_selects_every_old_version_once_witness :
  to_delete (mkDatetime 2026 11 0) 5 6
    [("1.2", mkEntry "c0ffee" [] (mkDatetime 2026 9 0) false);
     ("1.0", mkEntry "c0ffee" [] (mkDatetime 2026 1 0) false);
     ("1.1", mkEntry "c0ffee" [] (mkDatetime 2026 7 0) false)]
  = Ok [("1.0", mkEntry "c0ffee" [] (mkDatetime 2026 1 0) false)] ∧
  ("1.0", mkEntry "c0ffee" [] (mkDatetime 2026 1 0) false)
  ∈ [("1.0", mkEntry "c0ffee" [] (mkDatetime 2026 1 0) false)].
Proof.
  assert (to_delete (mkDatetime 2026 11 0) 5 6
            [("1.2", mkEntry "c0ffee" [] (mkDatetime 2026 9 0) false);
             ("1.0", mkEntry "c0ffee" [] (mkDatetime 2026 1 0) false);
             ("1.1", mkEntry "c0ffee" [] (mkDatetime 2026 7 0) false)]
          = Ok [("1.0", mkEntry "c0ffee" [] (mkDatetime 2026 1 0) false)])
    as Hl by (vm_compute; reflexivity).
  split; [exact Hl|].
  apply (proj1 (cleanup_selects_every_old_version_once _ _ _ _ _ Hl)).
  - apply list_elem_of_further, list_elem_of_here.
  - reflexivity.
  - vm_compute. reflexivity.
Defined.

Lemma parse_version_safe_raises_invalid (v : string) (err : exn) :
  parse_version_safe v = Raise err → err = InvalidVersion.
Proof.
  unfold parse_version_safe. destruct (Packaging.parse v); [done|].
  destruct (Packaging.parse (fallback_str v)); [done|]. by intros [= <-].
Qed.

Lemma keyed_items_raise (items : list (string * entry)) (err : exn) :
  rmapM (λ item : string * entry,
           rbind (parse_version_safe item.1) (λ k, Ok (k, item))) items
  = Raise err →
  err = InvalidVersion ∧
  ∃ item, item ∈ items ∧ is_ok (parse_version_safe item.1) = false.
Proof.
  induction items as [|item items IH]; simpl; [done|].
  destruct (parse_version_safe item.1) as [k|err'] eqn:E; simpl.
  - destruct (rmapM _ items) as [keyed'|err'']; simpl; [done|].
    intros [= <-]. destruct (IH eq_refl) as (-> & item' & Hin & Hno).
    split; [done|]. exists item'. split; [by right|done].
  - intros [= <-]. split; [by eapply parse_version_safe_raises_invalid|].
    exists item. split; [left|]. by rewrite E.
Qed.

(** X16: the selection of [cleanup] returns when [parse_version_safe] returns
    on the label of every unpinned version of the package, and only then;
    otherwise it raises [InvalidVersion], whatever the thresholds. *)
Theorem cleanup_selection_needs_labels_that_parse (now : datetime)
    (max_versions max_age_months : Z) (versions : dict entry) :
  (is_ok (to_delete now max_versions max_age_months versions) = true ↔
   ∀ item, item ∈ versions → pinned item.2 = false →
           is_ok (parse_version_safe item.1) = true) ∧
  ∀ err, to_delete now max_versions max_age_months versions = Raise err →
         err = InvalidVersion.
Proof.
  unfold to_delete.
  destruct (filter _ versions) as [|u us] eqn:Ef.
  { split; [|done]. split; [|done]. intros _ item Hi Hp.
    assert (item ∈ filter (λ item, pinned item.2 = false) versions) as H
      by (by apply list_elem_of_filter).
    rewrite Ef in H. by apply elem_of_nil in H. }
  rewrite <- Ef. clear u us Ef.
  destruct (rmapM _ _) as [keyed|err] eqn:Ek; simpl.
  - split; [|done]. split; [|done]. intros _ item Hi Hp.
    apply keyed_items in Ek as [Hitems Hparsed].
    assert (item ∈ map snd keyed) as (ki & -> & Hki)%list_elem_of_fmap.
    { rewrite Hitems. by apply list_elem_of_filter. }
    by rewrite (proj1 (Forall_forall _ _) Hparsed ki Hki).
  - apply keyed_items_raise in Ek as (-> & item & [Hp Hi]%list_elem_of_filter & Hno).
    split; [|by intros ? [= <-]]. split; [done|].
    intros H. rewrite (H item Hi Hp) in Hno. done.
Qed.

Lemma cleanup_selection_needs_labels_that_parse_witness :
  to_delete (mkDatetime 2026 11 0) 5 6
    [("1.2", mkEntry "c0ffee" [] (mkDatetime 2026 9 0) false);
     ("-1.x", mkEntry "c0ffee" [] (mkDatetime 2026 1 0) false)]
  = Raise InvalidVersion.
Proof.
  destruct (to_delete _ _ _ _) as [l|err] eqn:E.
  - exfalso. revert E. vm_compute. discriminate.
  - f_equal.
    by apply (proj2 (cleanup_selection_needs_labels_that_parse _ _ _ _) _ E).
Defined.

(** ** [patch_repo]: the server URL, the count and the state *)

Lemma rstrip_snoc (p : ascii → bool) (s : string) (c : ascii) :
  p c = true → Py.rstrip p (s +:+ String c "") = Py.rstrip p s.
Proof.
  intros Hc. induction s as [|a s IH].
  - rewrite append_empty. simpl. by rewrite Hc.
  - rewrite append_String. simpl. by rewrite IH.
Qed.

Lemma rstrip_idemp (p : ascii → bool) (s : string) :
  Py.rstrip p (Py.rstrip p s) = Py.rstrip p s.
Proof.
  induction s as [|a s IH]; simpl; [done|].
  destruct (Py.rstrip p s) as [|b r] eqn:E.
  - destruct (p a) eqn:Ea; simpl; [done|]. by rewrite Ea.
  - simpl in *. by rewrite IH.
Qed.

Lemma rstrip_last (p : ascii → bool) (s : string) (c : ascii) :
  last_char (Py.rstrip p s) = Some c → p c = false.
Proof.
  induction s as [|a s IH]; cbn [Py.rstrip]; [done|].
  destruct (Py.rstrip p s) as [|b r] eqn:E.
  - destruct (p a) eqn:Ea; cbn [last_char]; [done|]. by intros [= <-].
  - apply IH.
Qed.

(** X17: the URL that [patch_repo] writes does not depend on the slashes at
    the end of the server URL: one more slash there gives the same URL, and
    the part before [/downloads/] never ends in a slash. *)
Theorem new_url_ignores_trailing_slashes
    (server_url pub pkg version filename : string) :
  new_url (server_url +:+ "/") pub pkg version filename
  = new_url server_url pub pkg version filename ∧
  ∃ base, new_url server_url pub pkg version filename
          = base +:+ "/downloads/" +:+ pub +:+ "/" +:+ pkg +:+ "/"
              +:+ version +:+ "/" +:+ filename ∧
          last_char base ≠ Some "/"%char ∧
          Py.rstrip (Py.char_eqb "/") base = base.
Proof.
  unfold new_url. split.
  - by rewrite rstrip_snoc.
  - exists (Py.rstrip (Py.char_eqb "/") server_url). split_and!; [done| |].
    + by intros H%rstrip_last.
    + apply rstrip_idemp.
Qed.

Lemma post_weaken {A} (m : M A) (w : World) (Q Q' : result A → World → Prop) :
  post m w Q → (∀ r w', Q r w' → Q' r w') → post m w Q'.
Proof. intros Hm HQ r w' Hrun. by apply HQ, Hm. Qed.

Section patch_frame.
Context (env : Env) (self : Manager) (server_url : string)
        (output_path : Fs.path) (w0 : World).

Lemma patch_file_frame pid pub pkg version src tgt name (w : World) :
  state_kept w0 w →
  post (patch_file env server_url pid pub pkg version src tgt name) w
    (λ _ w', state_kept w0 w').
Proof.
  intros H. unfold patch_file. repeat post_step; try done.
  apply post_prints. cbn [fs downloads ticks out].
  repeat post_step; done.
Qed.

Lemma for_each_frame {A} (body : A → M unit) (l : list A) (w : World) :
  (∀ a w1, state_kept w0 w1 → post (body a) w1 (λ _ w', state_kept w0 w')) →
  state_kept w0 w → post (for_each body l) w (λ _ w', state_kept w0 w').
Proof.
  intros Hbody. revert w. induction l as [|a l IH]; simpl; intros w Hw.
  - by apply post_skip.
  - apply post_bind. intros r w1 Hrun.
    pose proof (Hbody a w Hw r w1 Hrun) as Hw1.
    destruct r; [by apply IH|done].
Qed.

Lemma patch_version_frame pid pub pkg version (w : World) :
  state_kept w0 w →
  post (patch_version env self server_url output_path pid pub pkg version) w
    (λ _ w', state_kept w0 w').
Proof.
  intros H. unfold patch_version. repeat post_step; try done.
  eapply post_weaken.
  - apply for_each_frame; [|done]. intros a1 w2 Hw2. by apply patch_file_frame.
  - intros r w1 Hw1. destruct r; [|done]. repeat post_step. done.
Qed.

Lemma patch_versions_frame pid pub pkg versions count (w : World) :
  state_kept w0 w →
  post (patch_versions env self server_url output_path pid pub pkg versions
          count) w
    (λ r w', state_kept w0 w' ∧
             ∀ n, r = Ok n → (count ≤ n ≤ count + List.length versions)%nat).
Proof.
  revert count w. induction versions as [|v vs IH]; simpl; intros count w Hw.
  - apply post_ret. split; [done|]. intros n [= <-]. lia.
  - apply post_bind. intros r w1 Hrun.
    pose proof (patch_version_frame _ _ _ _ _ Hw r w1 Hrun) as Hw1.
    destruct r as [patched|err]; [|by split].
    intros r2 w2 Hrun2.
    destruct (IH _ _ Hw1 r2 w2 Hrun2) as [Hw2 Hn]. split; [done|].
    intros n Hr. apply Hn in Hr. destruct patched; lia.
Qed.

Lemma patch_packages_frame items count (w : World) :
  state_kept w0 w →
  post (patch_packages env self server_url output_path items count) w
    (λ r w', state_kept w0 w' ∧
             ∀ n, r = Ok n → (count ≤ n ≤ count + total_versions items)%nat).
Proof.
  revert count w. induction items as [|[pid info] items IH]; simpl;
    intros count w Hw.
  - apply post_ret. split; [done|]. intros n [= <-]. unfold total_versions.
    simpl. lia.
  - destruct (Py.split_once "." pid) as [[pub pkg]|]; [|by apply post_raise].
    apply post_bind. intros r w1 Hrun.
    destruct (patch_versions_frame _ _ _ _ _ _ Hw r w1 Hrun) as [Hw1 Hn1].
    destruct r as [count'|err]; [|by split].
    intros r2 w2 Hrun2.
    destruct (IH _ _ Hw1 r2 w2 Hrun2) as [Hw2 Hn]. split; [done|].
    intros n Hr. apply Hn in Hr. specialize (Hn1 _ eq_refl).
    unfold total_versions in *. simpl. unfold Dict.keys in Hn1.
    rewrite length_map in Hn1. lia.
Qed.
End patch_frame.

(** X18: [patch_repo] reads the state and does not change it.  The count it
    returns is at most the number of versions that the state records; with
    nothing downloaded, or with no server URL or no output directory, passed
    or configured, it returns 0 and leaves the disk as it is. *)
Theorem patch_repo_counts_versions_and_keeps_the_state (env : Env)
    (self : Manager) (server_url patch_dir : option string) (w w' : World)
    (r : result nat) :
  patch_repo env self server_url patch_dir w = (r, w') →
  downloads w' = downloads w ∧ ticks w' = ticks w ∧
  (∀ n, r = Ok n → (n ≤ total_versions (downloads w))%nat) ∧
  (downloads w = [] ∨
   unset (or_else server_url (cfg_server_url self)) ∨
   unset (or_else patch_dir (cfg_patch_dir self)) →
   r = Ok 0 ∧ fs w' = fs w).
Proof.
  revert r w'. change (post (patch_repo env self server_url patch_dir) w
    (λ r w', downloads w' = downloads w ∧ ticks w' = ticks w ∧
       (∀ n, r = Ok n → (n ≤ total_versions (downloads w))%nat) ∧
       (downloads w = [] ∨
        unset (or_else server_url (cfg_server_url self)) ∨
        unset (or_else patch_dir (cfg_patch_dir self)) →
        r = Ok 0 ∧ fs w' = fs w))).
  unfold patch_repo, unset. repeat post_step.
  all: try (eapply post_weaken;
            [apply (patch_packages_frame env self _ _ w); by split|];
            intros r1 w1 [[Hd Ht] Hn]; simpl in Hd, Ht;
            destruct r1 as [n1|err]; [repeat post_step|]).
  all: split_and!; try done.
  all: try (intros n [= <-]; first [lia|specialize (Hn _ eq_refl); lia]).
  all: try (intros [Hd0|[[?|[= ->]]|[?|[= ->]]]]; try done;
            try (by rewrite Hd0 in Heqb);
            by rewrite andb_false_r in Heqb0).
  all: by destruct (downloads w).
Qed.

Lemma patch_repo_counts_versions_and_keeps_the_state_witness :
  downloads patch_run.2 = downloads pinned_world ∧
  ticks patch_run.2 = ticks pinned_world ∧
  (∀ n, patch_run.1 = Ok n → (n ≤ total_versions (downloads pinned_world))%nat) ∧
  (downloads pinned_world = [] ∨
   unset (or_else (Some "https://mirror.local") (cfg_server_url mgr)) ∨
   unset (or_else None (cfg_patch_dir mgr)) →
   patch_run.1 = Ok 0 ∧ fs patch_run.2 = fs pinned_world).
Proof.
  apply (patch_repo_counts_versions_and_keeps_the_state (env unreachable) mgr
           (Some "https://mirror.local") None pinned_world).
  unfold patch_run. by destruct (patch_repo _ _ _ _ _).
Defined.

(** ** Reasoning about a task *)

Import Task.

Section postT_rules.
Context {A B : Type}.
Implicit Types (s : Session).

Lemma postT_bind (m : T A) (f : A → T B) s (Q : result B → Session → Prop) :
  postT m s (λ r s1, match r with
                     | Ok a => postT (f a) s1 Q
                     | Raise e => Q (Raise e) s1
                     end) →
  postT (m ≫= f) s Q.
Proof.
  intros Hm r s' Hrun. unfold mbind, T_bind in Hrun.
  destruct (m s) as [[a|e] s1] eqn:E.
  - by apply (Hm _ _ E).
  - injection Hrun as <- <-. apply (Hm _ _ E).
Qed.

Lemma postT_ret (a : A) s (Q : result A → Session → Prop) :
  Q (Ok a) s → postT (mret a) s Q.
Proof. intros HQ r s' [= <- <-]. done. Qed.

Lemma postT_fail e s (Q : result A → Session → Prop) :
  Q (Raise e) s → postT (fail e) s Q.
Proof. intros HQ r s' [= <- <-]. done. Qed.

Lemma postT_of_result (x : result A) s (Q : result A → Session → Prop) :
  Q x s → postT (of_result x) s Q.
Proof. intros HQ r s' [= <- <-]. done. Qed.

Lemma postT_in_world (m : M A) s (Q : result A → Session → Prop) :
  post m (world s) (λ r w',
    Q r (mkSession w' (last_sync s)
           (said s ++ map Core (drop (length (out (world s))) (out w'))))) →
  postT (in_world m) s Q.
Proof.
  intros Hm r s' Hrun. unfold in_world in Hrun.
  destruct (m (world s)) as [r1 w1] eqn:E. simpl in Hrun.
  injection Hrun as <- <-. by apply Hm.
Qed.

Lemma postT_weaken (m : T A) s (Q Q' : result A → Session → Prop) :
  postT m s Q → (∀ r s', Q r s' → Q' r s') → postT m s Q'.
Proof. intros Hm HQ r s' Hrun. by apply HQ, Hm. Qed.
End postT_rules.

Lemma postT_pass (s : Session) (Q : result () → Session → Prop) :
  Q (Ok ()) s → postT pass s Q.
Proof. apply postT_ret. Qed.

Lemma postT_say l (s : Session) (Q : result () → Session → Prop) :
  Q (Ok ()) (mkSession (world s) (last_sync s) (said s ++ [l])) →
  postT (say l) s Q.
Proof. intros HQ r s' [= <- <-]. done. Qed.

Lemma postT_get_last_sync (s : Session)
    (Q : result (option datetime) → Session → Prop) :
  Q (Ok (last_sync s)) s → postT get_last_sync s Q.
Proof. intros HQ r s' [= <- <-]. done. Qed.

(** An operation of the core that prints nothing *)
Lemma postT_silent {A} (m : M A) (s : Session)
    (Q : result A → Session → Prop) :
  post m (world s) (λ r w',
    out w' = out (world s) ∧ Q r (mkSession w' (last_sync s) (said s))) →
  postT (in_world m) s Q.
Proof.
  intros Hm. apply postT_in_world. intros r w' Hrun.
  destruct (Hm r w' Hrun) as [-> HQ].
  by rewrite drop_all, app_nil_r.
Qed.

Lemma session_eta (s : Session) :
  mkSession (world s) (last_sync s) (said s) = s.
Proof. by destruct s. Qed.

Lemma world_eta (w : World) : mkWorld (fs w) (downloads w) (ticks w) (out w) = w.
Proof. by destruct w. Qed.

Lemma postT_get_fs (s : Session)
    (Q : result (gmap (list string) Fs.node) → Session → Prop) :
  Q (Ok (fs (world s))) s → postT (in_world get_fs) s Q.
Proof.
  intros HQ. apply postT_silent, post_get_fs. by rewrite session_eta.
Qed.

Lemma postT_get_downloads (s : Session)
    (Q : result (dict package_info) → Session → Prop) :
  Q (Ok (downloads (world s))) s → postT (in_world get_downloads) s Q.
Proof.
  intros HQ. apply postT_silent, post_get_downloads. by rewrite session_eta.
Qed.

Lemma postT_put_downloads d (s : Session) (Q : result () → Session → Prop) :
  Q (Ok ()) (mkSession (mkWorld (fs (world s)) d (ticks (world s))
                          (out (world s))) (last_sync s) (said s)) →
  postT (in_world (put_downloads d)) s Q.
Proof. intros HQ. by apply postT_silent, post_put_downloads. Qed.

Lemma postT_now env (s : Session) (Q : result datetime → Session → Prop) :
  Q (Ok (clock env (ticks (world s))))
    (mkSession (mkWorld (fs (world s)) (downloads (world s))
                  (S (ticks (world s))) (out (world s)))
       (last_sync s) (said s)) →
  postT (in_world (now env)) s Q.
Proof. intros HQ. by apply postT_silent, post_now. Qed.

Lemma postT_rmtree p (s : Session) (Q : result () → Session → Prop) :
  match Shutil.rmtree (fs (world s)) p with
  | Ok f' => Q (Ok ()) (mkSession (mkWorld f' (downloads (world s))
                                     (ticks (world s)) (out (world s)))
                          (last_sync s) (said s))
  | Raise e => Q (Raise e) s
  end → postT (in_world (rmtree p)) s Q.
Proof.
  intros HQ. apply postT_silent. unfold rmtree.
  apply post_bind, post_get_fs, post_bind, post_lift.
  destruct (Shutil.rmtree (fs (world s)) p).
  - by apply post_put_fs.
  - by rewrite session_eta.
Qed.

Lemma postT_write_state (p : Fs.path) (text : dict package_info → string)
    (s : Session) (Q : result () → Session → Prop) :
  match Fs.write (fs (world s)) p (text (downloads (world s))) with
  | Ok f' => Q (Ok ()) (mkSession (mkWorld f' (downloads (world s))
                                     (ticks (world s)) (out (world s)))
                          (last_sync s) (said s))
  | Raise e => Q (Raise e) s
  end →
  postT (in_world (d ← get_downloads; write_file p (text d))) s Q.
Proof.
  intros HQ. apply postT_silent.
  apply post_bind, post_get_downloads, post_write_file.
  destruct (Fs.write _ _ _); [done|]. by rewrite session_eta.
Qed.

Lemma postT_update_downloads (g : dict package_info → dict package_info)
    (s : Session) (Q : result () → Session → Prop) :
  Q (Ok ()) (mkSession (mkWorld (fs (world s)) (g (downloads (world s)))
                          (ticks (world s)) (out (world s)))
               (last_sync s) (said s)) →
  postT (in_world (d ← get_downloads; put_downloads (g d))) s Q.
Proof.
  intros HQ. apply postT_silent.
  by apply post_bind, post_get_downloads, post_put_downloads.
Qed.

Ltac postT_step :=
  lazymatch goal with
  | |- postT (mbind _ _) _ _ => apply postT_bind
  | |- postT (mret _) _ _ => apply postT_ret
  | |- postT pass _ _ => apply postT_pass
  | |- postT (fail _) _ _ => apply postT_fail
  | |- postT (of_result _) _ _ => apply postT_of_result
  | |- postT (say _) _ _ => apply postT_say
  | |- postT (in_world get_fs) _ _ => apply postT_get_fs
  | |- postT (in_world get_downloads) _ _ => apply postT_get_downloads
  | |- postT (in_world (put_downloads _)) _ _ => apply postT_put_downloads
  | |- postT (in_world (rmtree _)) _ _ => apply postT_rmtree
  | |- postT (in_world (now _)) _ _ => apply postT_now
  | |- postT (in_world (mbind _ get_downloads)) _ _ =>
      first [ apply postT_update_downloads | apply postT_write_state ]
  | |- postT get_last_sync _ _ => apply postT_get_last_sync
  | |- postT (if ?c then _ else _) _ _ => destruct c eqn:?
  | |- postT (match ?x with _ => _ end) _ _ => destruct x eqn:?
  | |- match ?x with Ok _ => _ | Raise _ => _ end => destruct x eqn:?
  end; cbn [world last_sync said fs downloads ticks out].

Ltac postT_run := repeat postT_step.

(** ** Removing *)

Lemma rmtree_lookup_Some (f f' : gmap (list string) Fs.node) p k n :
  Shutil.rmtree f p = Ok f' →
  f' !! k = Some n ↔ f !! k = Some n ∧ ¬ Fs.norm p `prefix_of` k.
Proof.
  unfold Shutil.rmtree. destruct (Fs.stat f p) as [[?|]|]; try done.
  intros [= <-]. by rewrite map_lookup_filter_Some.
Qed.

Lemma rmtree_gone (f f' : gmap (list string) Fs.node) p k :
  Shutil.rmtree f p = Ok f' → Fs.norm p `prefix_of` k → f' !! k = None.
Proof.
  intros H Hpre. destruct (f' !! k) as [n|] eqn:E; [|done].
  apply (rmtree_lookup_Some _ _ _ _ _ H) in E as [_ Hno]. done.
Qed.

Lemma rmtree_other (f f' : gmap (list string) Fs.node) p k :
  Shutil.rmtree f p = Ok f' → ¬ Fs.norm p `prefix_of` k → f' !! k = f !! k.
Proof.
  intros H Hpre. destruct (f !! k) as [n|] eqn:E.
  - by apply (rmtree_lookup_Some _ _ _ _ _ H).
  - destruct (f' !! k) as [n|] eqn:E'; [|done].
    apply (rmtree_lookup_Some _ _ _ _ _ H) in E' as [? _]. congruence.
Qed.

Lemma not_exists_lookup (f : gmap (list string) Fs.node) p :
  Fs.exists_ f p = false → f !! Fs.norm p = None.
Proof.
  unfold Fs.exists_, Fs.stat, Fs.lookup_norm.
  destruct (Fs.norm p) eqn:E; [done|]. by destruct (f !! _).
Qed.

Section dict_del_facts.
Context {V : Type}.
Implicit Types (d : dict V) (k : string).

Lemma get_dict_del_eq d k : Dict.get (dict_del k d) k = None.
Proof.
  induction d as [|[k0 v0] d IH]; simpl; [done|].
  destruct (String.eqb k k0) eqn:E; [done|]. simpl. by rewrite E.
Qed.

Lemma get_dict_del_ne d k k' : k ≠ k' → Dict.get (dict_del k d) k' = Dict.get d k'.
Proof.
  intros Hne. induction d as [|[k0 v0] d IH]; simpl; [done|].
  destruct (String.eqb_spec k k0) as [->|Hk]; simpl.
  - destruct (String.eqb_spec k' k0); [congruence|done].
  - by rewrite IH.
Qed.

Lemma keys_dict_del d k :
  Dict.keys (dict_del k d) = filter (λ k', k' ≠ k) (Dict.keys d).
Proof.
  induction d as [|[k0 v0] d IH]; simpl; [done|].
  destruct (String.eqb_spec k k0) as [->|Hk]; simpl.
  - by rewrite filter_cons_False by tauto.
  - rewrite filter_cons_True by done. by rewrite <- IH.
Qed.
End dict_del_facts.

Lemma lookup_delete_version pid v pid' v' (d : dict package_info) :
  lookup_entry pid' v' (delete_version pid v d)
  = if decide (pid' = pid ∧ v' = v) then None else lookup_entry pid' v' d.
Proof.
  unfold lookup_entry, delete_version.
  destruct (decide (pid = pid')) as [->|Hpid].
  - rewrite get_alter_eq. destruct (Dict.get d pid') as [info|]; simpl.
    + destruct (decide (v = v')) as [->|Hv].
      * rewrite get_dict_del_eq. by rewrite decide_True.
      * rewrite get_dict_del_ne by done.
        rewrite decide_False; [done|]. by intros [_ ->].
    + by destruct (decide _).
  - rewrite get_alter_ne by done.
    rewrite decide_False; [done|]. by intros [-> _].
Qed.

Lemma lookup_dict_del_package pid pid' v' (d : dict package_info) :
  (∀ info, Dict.get d pid = Some info → versions info = []) →
  lookup_entry pid' v' (dict_del pid d) = lookup_entry pid' v' d.
Proof.
  intros Hempty. unfold lookup_entry.
  destruct (decide (pid = pid')) as [->|Hne].
  - rewrite get_dict_del_eq.
    destruct (Dict.get d pid') as [info|] eqn:E; [|done].
    by rewrite (Hempty _ eq_refl).
  - by rewrite get_dict_del_ne.
Qed.

(** ** [purge] *)

Lemma purged_from_refl pid sel d : purged_from pid sel d d.
Proof. intros pid' v'. by left. Qed.

Lemma purged_from_trans pid sel d1 d2 d3 :
  purged_from pid sel d1 d2 → purged_from pid sel d2 d3 →
  purged_from pid sel d1 d3.
Proof.
  intros H12 H23 pid' v'.
  destruct (H23 pid' v') as [->|(-> & Hs & Hn)]; [apply H12|].
  right. done.
Qed.

Lemma purged_from_delete pid (sel : string → Prop) v d :
  sel v → purged_from pid sel d (delete_version pid v d).
Proof.
  intros Hs pid' v'. rewrite lookup_delete_version.
  destruct (decide _) as [[-> ->]|]; [by right|by left].
Qed.

Lemma purged_from_only_removed pid sel d d' :
  purged_from pid sel d d' → only_removed d d'.
Proof.
  intros H pid' v' e He. destruct (H pid' v') as [<-|(_ & _ & Hn)]; congruence.
Qed.

Lemma subtrees_removed_refl f : subtrees_removed f f.
Proof. split; [apply disk_kept_refl|]. intros k k' Hn Hs. done. Qed.

Lemma subtrees_removed_trans f0 f1 f2 :
  subtrees_removed f0 f1 → subtrees_removed f1 f2 → subtrees_removed f0 f2.
Proof.
  intros [Hk1 Hc1] [Hk2 Hc2]. split; [by eapply disk_kept_trans|].
  intros k k' Hn Hs Hpre. destruct (f1 !! k) as [n|] eqn:E1.
  - apply (Hc2 k k'); [done|congruence|done].
  - pose proof (Hc1 k k' E1 Hs Hpre) as Hn1.
    destruct (f2 !! k') as [n|] eqn:E2; [|done].
    apply Hk2 in E2. congruence.
Qed.

Lemma subtrees_removed_rmtree (f f' : gmap (list string) Fs.node) p :
  Shutil.rmtree f p = Ok f' → subtrees_removed f f'.
Proof.
  intros H. split.
  - intros k n Hk. by apply (rmtree_lookup_Some _ _ _ _ _ H) in Hk as [? _].
  - intros k k' Hn Hs Hpre. apply (rmtree_gone _ _ _ _ H).
    destruct (decide (Fs.norm p `prefix_of` k)) as [Hp|Hp].
    + by etrans.
    + rewrite (rmtree_other _ _ _ _ H Hp) in Hn. done.
Qed.

Lemma purge_version_post proj (self : WingetPackage) v (s : Session) :
  postT (purge_version proj self v) s (λ r s',
    last_sync s' = last_sync s ∧ ticks (world s') = ticks (world s) ∧
    out (world s') = out (world s) ∧
    subtrees_removed (fs (world s)) (fs (world s')) ∧
    (∀ k, ¬ Fs.norm (download_dir_of self v) `prefix_of` k →
          ¬ Fs.norm (patched_dir_of proj self v) `prefix_of` k →
          fs (world s') !! k = fs (world s) !! k) ∧
    match r with
    | Ok _ =>
        downloads (world s')
        = delete_version (package_id self) v (downloads (world s)) ∧
        fs (world s') !! Fs.norm (download_dir_of self v) = None
    | Raise _ => downloads (world s') = downloads (world s)
    end).
Proof.
  unfold purge_version.
  fold (download_dir_of self v). fold (patched_dir_of proj self v).
  postT_run.
  all: split_and!; try done.
  all: try (by eauto using subtrees_removed_refl, subtrees_removed_trans,
                           subtrees_removed_rmtree).
  all: repeat match goal with
         | H : Shutil.rmtree _ _ = Ok _ |- _ =>
             let H1 := fresh "Hsome" in
             let H2 := fresh "Hgone" in
             let H3 := fresh "Hother" in
             pose proof (λ k n, rmtree_lookup_Some _ _ _ k n H) as H1;
             pose proof (λ k, rmtree_gone _ _ _ k H) as H2;
             pose proof (λ k, rmtree_other _ _ _ k H) as H3;
             clear H
         | H : Fs.exists_ _ (download_dir_of _ _) = false |- _ =>
             apply not_exists_lookup in H
         end.
  all: try (intros k Hno1 Hno2;
            repeat match goal with
                   | H : ∀ k, ¬ _ → _ !! k = _ !! k |- _ =>
                       rewrite H by done
                   end; reflexivity).
  all: try match goal with
           | |- ?f !! ?k = None =>
               destruct (f !! k) as [n|] eqn:Ek; [exfalso|reflexivity];
               repeat match goal with
                      | H : ∀ k n, _ !! k = Some n ↔ _ |- _ =>
                          apply H in Ek as [Ek ?]
                      end
           end.
  all: try congruence.
  all: try (by match goal with H : ¬ _ `prefix_of` _ |- _ => apply H end).
Qed.

Lemma taken_spec version v :
  explicit version && negb (String.eqb v (default "" version)) = false
  ↔ taken version v.
Proof.
  unfold taken. destruct version as [ver|]; simpl; [|done].
  destruct (Py.truthy ver); simpl; [|done].
  destruct (String.eqb_spec v ver) as [->|Hne]; simpl; [done|].
  split; [done|]. intros H. specialize (H eq_refl). congruence.
Qed.

Lemma purged_from_mono pid (sel sel' : string → Prop) d d' :
  (∀ v, sel v → sel' v) → purged_from pid sel d d' → purged_from pid sel' d d'.
Proof.
  intros Hsel H pid' v'. destruct (H pid' v') as [?|(? & ? & ?)]; [by left|].
  right. auto.
Qed.

Lemma get_delete_version_ne pid v pid' (d : dict package_info) :
  pid' ≠ pid → Dict.get (delete_version pid v d) pid' = Dict.get d pid'.
Proof. intros Hne. unfold delete_version. by rewrite get_alter_ne. Qed.

Lemma get_delete_version_None pid v (d : dict package_info) :
  Dict.get (delete_version pid v d) pid = None ↔ Dict.get d pid = None.
Proof.
  unfold delete_version. rewrite get_alter_eq.
  by destruct (Dict.get d pid).
Qed.

Lemma subtrees_removed_None f f' k :
  subtrees_removed f f' → f !! k = None → f' !! k = None.
Proof.
  intros [Hk _] Hn. destruct (f' !! k) as [n|] eqn:E; [|done].
  apply Hk in E. congruence.
Qed.

Lemma only_removed_None d d' pid v :
  only_removed d d' → lookup_entry pid v d = None →
  lookup_entry pid v d' = None.
Proof.
  intros H Hn. destruct (lookup_entry pid v d') as [e|] eqn:E; [|done].
  apply H in E. congruence.
Qed.

Lemma purge_versions_post proj (self : WingetPackage) version vs :
  ∀ (b0 : bool) (s : Session),
  postT (purge_versions proj self version vs b0) s (λ r s',
    last_sync s' = last_sync s ∧ ticks (world s') = ticks (world s) ∧
    out (world s') = out (world s) ∧
    subtrees_removed (fs (world s)) (fs (world s')) ∧
    (∀ k, (∀ v, v ∈ vs → taken version v →
                ¬ Fs.norm (download_dir_of self v) `prefix_of` k ∧
                ¬ Fs.norm (patched_dir_of proj self v) `prefix_of` k) →
          fs (world s') !! k = fs (world s) !! k) ∧
    purged_from (package_id self) (λ v, v ∈ vs ∧ taken version v)
      (downloads (world s)) (downloads (world s')) ∧
    (∀ pid', pid' ≠ package_id self →
             Dict.get (downloads (world s')) pid'
             = Dict.get (downloads (world s)) pid') ∧
    (Dict.get (downloads (world s')) (package_id self) = None
     ↔ Dict.get (downloads (world s)) (package_id self) = None) ∧
    ((∀ v, v ∈ vs → ¬ taken version v) → r = Ok b0 ∧ s' = s) ∧
    (∀ b, r = Ok b →
       (b = true ↔ b0 = true ∨ ∃ v, v ∈ vs ∧ taken version v) ∧
       ∀ v, v ∈ vs → taken version v →
            lookup_entry (package_id self) v (downloads (world s')) = None ∧
            fs (world s') !! Fs.norm (download_dir_of self v) = None)).
Proof.
  induction vs as [|v vs IH]; intros b0 s; simpl.
  - apply postT_ret. split_and!; try done.
    + apply subtrees_removed_refl.
    + apply purged_from_refl.
    + intros b [= <-]. split.
      * split; [auto|]. intros [?|(v & Hv & _)]; [done|].
        by apply elem_of_nil in Hv.
      * intros v Hv. by apply elem_of_nil in Hv.
  - destruct (explicit version && negb (String.eqb v (default "" version)))
      eqn:Hc.
    + assert (¬ taken version v) as Hnot.
      { rewrite <- taken_spec. congruence. }
      eapply postT_weaken; [apply IH|].
      intros r s' (Hls & Ht & Ho & Hsub & Hfr & Hpf & Hget & Hnone & Hnop & Hok).
      split_and!; try done.
      * intros k Hk. apply Hfr. intros v' Hv'. apply Hk.
        apply elem_of_cons. by right.
      * eapply purged_from_mono; [|done]. intros v' [? ?].
        split; [|done]. apply elem_of_cons. by right.
      * intros Hall. apply Hnop. intros v' Hv'. apply Hall.
        apply elem_of_cons. by right.
      * intros b Hb. destruct (Hok b Hb) as [Hiff Hgone]. split.
        -- rewrite Hiff. split.
           ++ intros [?|(v' & Hv' & Ht')]; [by left|]. right. exists v'.
              split; [|done]. apply elem_of_cons. by right.
           ++ intros [?|(v' & Hv' & Ht')]; [by left|]. right. exists v'.
              apply elem_of_cons in Hv' as [->|Hv']; done.
        -- intros v' Hv' Ht'.
           apply elem_of_cons in Hv' as [->|Hv']; [done|]. by apply Hgone.
    + assert (taken version v) as Htk by (by apply taken_spec).
      apply postT_bind. eapply postT_weaken; [apply purge_version_post|].
      intros [[]|e] s1 (Hls1 & Ht1 & Ho1 & Hsub1 & Hfr1 & Hd1).
      * destruct Hd1 as [Hd1 Hgone1].
        eapply postT_weaken; [apply IH|].
        intros r s'
          (Hls & Ht & Ho & Hsub & Hfr & Hpf & Hget & Hnone & Hnop & Hok).
        assert (purged_from (package_id self)
                  (λ v0, v0 ∈ v :: vs ∧ taken version v0)
                  (downloads (world s)) (downloads (world s'))) as Hpf'.
        { eapply (purged_from_trans _ _ _ (downloads (world s1))).
          - rewrite Hd1. apply purged_from_delete.
            split; [|done]. apply elem_of_cons. by left.
          - eapply purged_from_mono; [|done]. intros v' [? ?].
            split; [|done]. apply elem_of_cons. by right. }
        split_and!; try congruence.
        -- by eapply subtrees_removed_trans.
        -- intros k Hk. rewrite Hfr.
           ++ apply Hfr1; apply Hk; try done; apply elem_of_cons; by left.
           ++ intros v' Hv'. apply Hk. apply elem_of_cons. by right.
        -- done.
        -- intros pid' Hne. rewrite Hget by done. rewrite Hd1.
           by apply get_delete_version_ne.
        -- rewrite Hnone, Hd1. apply get_delete_version_None.
        -- intros Hall. exfalso. apply (Hall v); [|done].
           apply elem_of_cons. by left.
        -- intros b Hb. destruct (Hok b Hb) as [Hiff Hgone]. split.
           ++ split; [|by intros; apply Hiff; left].
              intros _. right. exists v. split; [|done].
              apply elem_of_cons. by left.
           ++ intros v' Hv' Ht'.
              apply elem_of_cons in Hv' as [->|Hv']; [|by apply Hgone].
              split.
              ** eapply only_removed_None.
                 { eapply purged_from_only_removed, Hpf. }
                 rewrite Hd1, lookup_delete_version. by rewrite decide_True.
              ** by eapply subtrees_removed_None.
      * split_and!; try done.
        -- intros k Hk. apply Hfr1; apply Hk; try done; apply elem_of_cons;
             by left.
        -- rewrite Hd1. apply purged_from_refl.
        -- intros pid' _. by rewrite Hd1.
        -- by rewrite Hd1.
        -- intros Hall. exfalso. apply (Hall v); [|done].
           apply elem_of_cons. by left.
Qed.

Lemma purge_finish_post t proj (self : WingetPackage) (b : bool)
    (s1 : Session) :
  postT (d ← in_world get_downloads;
         (match Dict.get d (package_id self) with
          | Some info =>
              if Dict.is_empty (versions info) then
                in_world (put_downloads (dict_del (package_id self) d))
              else pass
          | None => pass
          end);;
         (if b then save_state t proj else pass);;
         mret b) s1
    (λ r s',
       last_sync s' = last_sync s1 ∧ ticks (world s') = ticks (world s1) ∧
       out (world s') = out (world s1) ∧ said s' = said s1 ∧
       downloads (world s')
       = match Dict.get (downloads (world s1)) (package_id self) with
         | Some info =>
             if Dict.is_empty (versions info)
             then dict_del (package_id self) (downloads (world s1))
             else downloads (world s1)
         | None => downloads (world s1)
         end ∧
       if b then
         match r with
         | Ok b' =>
             b' = true ∧
             Fs.write (fs (world s1)) (path proj // "state.json")
               (json_dump t (last_sync s1) (downloads (world s')))
             = Ok (fs (world s'))
         | Raise _ => fs (world s') = fs (world s1)
         end
       else r = Ok false ∧ fs (world s') = fs (world s1)).
Proof.
  unfold save_state. destruct b.
  all: postT_run.
  all: try match goal with
         | |- postT (in_world (mbind _ get_downloads)) _ _ =>
             apply (postT_write_state _ (json_dump t _))
         end; cbn [world last_sync said fs downloads ticks out].
  all: repeat match goal with
         | |- match ?x with Ok _ => _ | Raise _ => _ end => destruct x eqn:?
         end; cbn [world last_sync said fs downloads ticks out].
  all: try done.
Qed.

Lemma lookup_entry_keys pid (d : dict package_info) info v :
  Dict.get d pid = Some info →
  v ∈ Dict.keys (versions info) ↔ ∃ e, lookup_entry pid v d = Some e.
Proof.
  intros Hget. unfold lookup_entry. rewrite Hget. apply elem_of_keys_get.
Qed.

Lemma get_all_None_empty {V} (d : dict V) :
  (∀ k, Dict.get d k = None) → d = [].
Proof.
  destruct d as [|[k v] d]; [done|]. intros H. specialize (H k).
  simpl in H. by rewrite String.eqb_refl in H.
Qed.

Lemma is_empty_true {V} (d : dict V) : Dict.is_empty d = true ↔ d = [].
Proof. by destruct d. Qed.

Lemma purge_post t proj (self : WingetPackage) version (s : Session) :
  postT (purge t proj self version) s (λ r s',
    last_sync s' = last_sync s ∧ ticks (world s') = ticks (world s) ∧
    out (world s') = out (world s) ∧
    (∀ pid', pid' ≠ package_id self →
             Dict.get (downloads (world s')) pid'
             = Dict.get (downloads (world s)) pid') ∧
    purged_from (package_id self) (taken version)
      (downloads (world s)) (downloads (world s')) ∧
    ((∀ v e, lookup_entry (package_id self) v (downloads (world s)) = Some e →
             ¬ taken version v) → r = Ok false ∧ s' = s) ∧
    ∃ f2,
      subtrees_removed (fs (world s)) f2 ∧
      (∀ k, (∀ v e, lookup_entry (package_id self) v (downloads (world s))
                    = Some e → taken version v →
                    ¬ Fs.norm (download_dir_of self v) `prefix_of` k ∧
                    ¬ Fs.norm (patched_dir_of proj self v) `prefix_of` k) →
            f2 !! k = fs (world s) !! k) ∧
      (fs (world s') = f2 ∨
       Fs.write f2 (path proj // "state.json")
         (json_dump t (last_sync s) (downloads (world s')))
       = Ok (fs (world s'))) ∧
      match r with
      | Ok b =>
          (∀ v, taken version v →
                lookup_entry (package_id self) v (downloads (world s')) = None) ∧
          (∀ v e, lookup_entry (package_id self) v (downloads (world s))
                  = Some e → taken version v →
                  f2 !! Fs.norm (download_dir_of self v) = None) ∧
          if b then
            Fs.write f2 (path proj // "state.json")
              (json_dump t (last_sync s) (downloads (world s')))
            = Ok (fs (world s')) ∧
            (Dict.get (downloads (world s')) (package_id self) = None
             ↔ ∀ v e, lookup_entry (package_id self) v (downloads (world s))
                      = Some e → taken version v)
          else
            s' = s ∧
            ∀ v e, lookup_entry (package_id self) v (downloads (world s))
                   = Some e → ¬ taken version v
      | Raise _ => True
      end).
Proof.
  unfold purge. apply postT_bind, postT_get_downloads.
  destruct (Dict.get (downloads (world s)) (package_id self)) as [info|]
    eqn:Eget.
  2: { apply postT_ret.
       assert (∀ v, lookup_entry (package_id self) v (downloads (world s))
                    = None) as Hno.
       { intros v. unfold lookup_entry. by rewrite Eget. }
       split_and!; try done; [apply purged_from_refl|].
       exists (fs (world s)). split_and!; try done.
       all: try (intros v e; by rewrite Hno).
       - apply subtrees_removed_refl.
       - by left. }
  destruct (Dict.is_empty (versions info)) eqn:Eemp.
  { apply postT_ret. apply is_empty_true in Eemp.
    assert (∀ v, lookup_entry (package_id self) v (downloads (world s))
                 = None) as Hno.
    { intros v. unfold lookup_entry. by rewrite Eget, Eemp. }
    split_and!; try done; [apply purged_from_refl|].
    exists (fs (world s)). split_and!; try done.
    all: try (intros v e; by rewrite Hno).
    - apply subtrees_removed_refl.
    - by left. }
  pose proof (λ v, lookup_entry_keys _ _ _ v Eget) as Hkeys.
  apply postT_bind. eapply postT_weaken; [apply purge_versions_post|].
  intros [b|e] s1
    (Hls & Ht & Ho & Hsub & Hfr & Hpf & Hget & Hnone & Hnop & Hok).
  - destruct (Hok b eq_refl) as [Hiff Hgone]. clear Hok.
    eapply postT_weaken; [apply purge_finish_post|].
    intros r s' (Hls' & Ht' & Ho' & Hsaid & Hd' & Hb).
    destruct (Dict.get (downloads (world s1)) (package_id self))
      as [info1|] eqn:Eget1;
      [|destruct Hnone as [Hn _]; specialize (Hn eq_refl); congruence].
    assert (∀ pid' v', lookup_entry pid' v' (downloads (world s'))
                       = lookup_entry pid' v' (downloads (world s1))) as Hsame.
    { intros pid' v'. rewrite Hd'.
      destruct (Dict.is_empty (versions info1)) eqn:E1; [|done].
      apply lookup_dict_del_package. intros info' Hi.
      apply is_empty_true. congruence. }
    assert (purged_from (package_id self) (taken version)
              (downloads (world s)) (downloads (world s'))) as Hpf'.
    { intros pid' v'. rewrite Hsame.
      destruct (Hpf pid' v') as [?|(? & [_ ?] & ?)]; [by left|by right]. }
    assert (∀ v, taken version v →
              lookup_entry (package_id self) v (downloads (world s')) = None)
      as Hgone'.
    { intros v Hv. rewrite Hsame.
      destruct (lookup_entry (package_id self) v (downloads (world s)))
        as [e|] eqn:E.
      - apply Hgone; [|done]. apply Hkeys. by exists e.
      - eapply only_removed_None; [|done].
        by eapply purged_from_only_removed. }
    split_and!; try congruence.
    + intros pid' Hne. rewrite <- Hget by done. rewrite Hd'.
      destruct (Dict.is_empty (versions info1)); [|done].
      by apply get_dict_del_ne.
    + done.
    + intros Hall.
      destruct Hnop as [[= ->] ->].
      { intros v [e He]%Hkeys. by eapply Hall. }
      destruct Hb as [-> Hfs].
      split; [done|].
      rewrite Eget in Eget1. injection Eget1 as <-.
      rewrite Eemp in Hd'.
      destruct s as [[f d ti o] ls sd], s' as [[f' d' ti' o'] ls' sd'].
      simpl in *. congruence.
    + exists (fs (world s1)). split_and!; try done.
      * intros k Hk. apply Hfr. intros v [e He]%Hkeys Hv. by eapply Hk.
      * destruct b.
        -- destruct r as [b'|]; [right|left]; [|done].
           destruct Hb as [_ Hw]. by rewrite <- Hls.
        -- left. by destruct Hb.
      * destruct b.
        -- destruct r as [b'|]; [|done]. destruct Hb as [-> Hw].
           split_and!; try done.
           ++ intros v e0 He Hv. apply Hgone; [|done]. apply Hkeys. by exists e0.
           ++ by rewrite <- Hls.
           ++ rewrite Hd'. destruct (Dict.is_empty (versions info1)) eqn:E1.
              ** rewrite get_dict_del_eq. split; [|done]. intros _ v e0 He.
                 destruct (decide (taken version v)) as [|Hnt]; [done|].
                 exfalso.
                 destruct (Hpf (package_id self) v) as [Heq|(_ & [_ ?] & _)];
                   [|done].
                 unfold lookup_entry in Heq at 1. rewrite Eget1 in Heq.
                 apply is_empty_true in E1. rewrite E1 in Heq. simpl in Heq.
                 congruence.
              ** rewrite Eget1. split; [done|]. intros Hall. exfalso.
                 assert (versions info1 = []) as Hv1; [|by rewrite Hv1 in E1].
                 apply get_all_None_empty. intros v.
                 destruct (lookup_entry (package_id self) v
                             (downloads (world s))) as [e0|] eqn:E.
                 --- pose proof (Hgone v) as Hg.
                     unfold lookup_entry in Hg at 1. rewrite Eget1 in Hg.
                     apply Hg; [apply Hkeys; by exists e0|by eapply Hall].
                 --- pose proof (only_removed_None _ _ (package_id self) v
                       (purged_from_only_removed _ _ _ _ Hpf) E) as Hg.
                     unfold lookup_entry in Hg. by rewrite Eget1 in Hg.
        -- destruct Hb as [-> Hfs]. split_and!; try done.
           ++ intros v e0 He Hv. apply Hgone; [|done]. apply Hkeys. by exists e0.
           ++ assert (∀ v, v ∈ Dict.keys (versions info) → ¬ taken version v)
                as Hnt.
              { intros v Hv Htk.
                assert (false = true); [|done]. apply Hiff. right. by exists v. }
              destruct (Hnop Hnt) as [_ ->].
              rewrite Eget in Eget1. injection Eget1 as <-.
              rewrite Eemp in Hd'.
              destruct s as [[f d ti o] ls sd], s' as [[f' d' ti' o'] ls' sd'].
              simpl in *. congruence.
           ++ intros v e0 He Htk.
              assert (false = true); [|done]. apply Hiff. right. exists v.
              split; [|done]. apply Hkeys. by exists e0.
  - split_and!; try done.
    + intros pid' v'.
      destruct (Hpf pid' v') as [?|(? & [_ ?] & ?)]; [by left|by right].
    + intros Hall. destruct Hnop as [[=] _].
      intros v [e0 He]%Hkeys. by eapply Hall.
    + exists (fs (world s1)). split_and!; try done.
      * intros k Hk. apply Hfr. intros v [e0 He]%Hkeys Hv. by eapply Hk.
      * by left.
Qed.

(** ** What [purge] guarantees *)

Lemma purge_disk_after (f2 f' : gmap (list string) Fs.node) p data k :
  f' = f2 ∨ Fs.write f2 p data = Ok f' →
  k ≠ Fs.norm p → f' !! k = f2 !! k.
Proof.
  intros [->|(_ & _ & _ & ->)%write_inv] Hne; [done|].
  by rewrite lookup_insert_ne.
Qed.

(** X19: [purge] returns [False] exactly when the state records no version of
    the package that the call takes: the package is unknown, has no
    versions, or has not the version asked for.  It has then changed
    nothing: no file, no entry of the state, no line of output. *)
Theorem purge_is_false_when_nothing_matches (t : Tools) (proj : Project)
    (self : WingetPackage) (version : option string) (s : Session) :
  ((purge t proj self version s).1 = Ok false ↔
   ∀ v e, lookup_entry (package_id self) v (downloads (world s)) = Some e →
          ¬ taken version v) ∧
  ((purge t proj self version s).1 = Ok false →
   (purge t proj self version s).2 = s).
Proof.
  destruct (purge t proj self version s) as [r s'] eqn:E. simpl.
  destruct (purge_post t proj self version s r s' E)
    as (_ & _ & _ & _ & _ & Hnop & f2 & _ & _ & _ & Hr).
  split; [split|].
  - intros ->. by destruct Hr as (_ & _ & _ & ?).
  - intros Hall. by destruct (Hnop Hall).
  - intros ->. by destruct Hr as (_ & _ & ? & _).
Qed.

(** X20: when [purge] returns, the state has no entry left for any version
    that the call takes, and of the download directory of each such version
    that the state recorded nothing is left on the disk. *)
Theorem purge_removes_what_it_takes (t : Tools) (proj : Project)
    (self : WingetPackage) (version : option string) (s s' : Session)
    (r : result bool) :
  purge t proj self version s = (r, s') →
  is_ok r = true →
  ∀ v, taken version v →
       lookup_entry (package_id self) v (downloads (world s')) = None ∧
       ∀ e, lookup_entry (package_id self) v (downloads (world s)) = Some e →
            nothing_left_of (download_dir_of self v) (path proj // "state.json")
              (fs (world s)) (fs (world s')).
Proof.
  intros E Hok v Hv.
  destruct (purge_post t proj self version s r s' E)
    as (_ & _ & _ & _ & _ & _ & f2 & Hsub & _ & Hf' & Hr).
  destruct r as [b|]; [|done]. destruct Hr as (Hgone & Hdir & _).
  split; [by apply Hgone|]. intros e He k Hpre Hk Hhad.
  rewrite (purge_disk_after _ _ _ _ _ Hf' Hk).
  pose proof (Hdir v e He Hv) as Hnone.
  destruct Hhad as [->|Hhad]; [done|].
  destruct Hsub as [_ Hclosed]. by apply (Hclosed _ k Hnone).
Qed.

Lemma purge_removes_what_it_takes_witness :
  lookup_entry "Foo.Bar" "1.2.3" (downloads (world TaskExample.purged.2))
  = None ∧
  ∀ e, lookup_entry "Foo.Bar" "1.2.3" (downloads (world TaskExample.session))
       = Some e →
       nothing_left_of (download_dir_of foo_bar "1.2.3")
         (path TaskExample.project // "state.json")
         (fs (world TaskExample.session)) (fs (world TaskExample.purged.2)).
Proof.
  apply (purge_removes_what_it_takes TaskExample.tools TaskExample.project
           foo_bar None TaskExample.session TaskExample.purged.2 (Ok true)).
  - apply pair_eq; [vm_compute; reflexivity|reflexivity].
  - reflexivity.
  - intros [=].
Defined.

(** X21: when [purge] returns [True], [state.json] holds the state as the
    call leaves it. *)
Theorem purge_saves_the_state_it_leaves (t : Tools) (proj : Project)
    (self : WingetPackage) (version : option string) (s s' : Session) :
  purge t proj self version s = (Ok true, s') →
  Fs.read (fs (world s')) (path proj // "state.json")
  = Ok (json_dump t (last_sync s') (downloads (world s'))).
Proof.
  intros E.
  destruct (purge_post t proj self version s _ s' E)
    as (Hls & _ & _ & _ & _ & _ & f2 & _ & _ & _ & _ & _ & Hw & _).
  rewrite Hls. by eapply write_read.
Qed.

Lemma purge_saves_the_state_it_leaves_witness :
  Fs.read (fs (world TaskExample.purged.2))
    (path TaskExample.project // "state.json")
  = Ok (json_dump TaskExample.tools (last_sync TaskExample.purged.2)
          (downloads (world TaskExample.purged.2))).
Proof.
  apply (purge_saves_the_state_it_leaves TaskExample.tools TaskExample.project
           foo_bar None TaskExample.session).
  apply pair_eq; [vm_compute; reflexivity|reflexivity].
Defined.

(** X22: when [purge] returns [True], the package keeps its entry in the state
    exactly if the state recorded a version of it that the call does not
    take; a call without a version leaves no entry of the package. *)
Theorem purge_drops_the_package_with_its_last_version (t : Tools)
    (proj : Project) (self : WingetPackage) (version : option string)
    (s s' : Session) :
  purge t proj self version s = (Ok true, s') →
  (Dict.get (downloads (world s')) (package_id self) = None ↔
   ∀ v e, lookup_entry (package_id self) v (downloads (world s)) = Some e →
          taken version v) ∧
  (explicit version = false →
   Dict.get (downloads (world s')) (package_id self) = None).
Proof.
  intros E.
  destruct (purge_post t proj self version s _ s' E)
    as (_ & _ & _ & _ & _ & _ & f2 & _ & _ & _ & _ & _ & _ & Hiff).
  split; [done|]. intros Hex. apply Hiff. intros v e _. unfold taken.
  by rewrite Hex.
Qed.

Lemma purge_drops_the_package_with_its_last_version_witness :
  (Dict.get (downloads (world TaskExample.purged.2)) "Foo.Bar" = None ↔
   ∀ v e, lookup_entry "Foo.Bar" v (downloads (world TaskExample.session))
          = Some e → taken None v) ∧
  (explicit None = false →
   Dict.get (downloads (world TaskExample.purged.2)) "Foo.Bar" = None).
Proof.
  apply (purge_drops_the_package_with_its_last_version TaskExample.tools
           TaskExample.project foo_bar None TaskExample.session).
  apply pair_eq; [vm_compute; reflexivity|reflexivity].
Defined.

(** X23: whatever comes of it, [purge] changes no entry of the state but
    those of the versions that it takes: the other packages keep their
    entries, the other versions of the package theirs, no entry is added,
    and [last_sync] stays. *)
Theorem purge_keeps_the_other_entries (t : Tools) (proj : Project)
    (self : WingetPackage) (version : option string) (s s' : Session)
    (r : result bool) :
  purge t proj self version s = (r, s') →
  (∀ pid', pid' ≠ package_id self →
           Dict.get (downloads (world s')) pid'
           = Dict.get (downloads (world s)) pid') ∧
  (∀ v, ¬ taken version v →
        lookup_entry (package_id self) v (downloads (world s'))
        = lookup_entry (package_id self) v (downloads (world s))) ∧
  only_removed (downloads (world s)) (downloads (world s')) ∧
  last_sync s' = last_sync s.
Proof.
  intros E.
  destruct (purge_post t proj self version s r s' E)
    as (Hls & _ & _ & Hget & Hpf & _).
  split_and!; try done.
  - intros v Hv. by destruct (Hpf (package_id self) v) as [?|(_ & ? & _)].
  - by eapply purged_from_only_removed.
Qed.

Lemma purge_keeps_the_other_entries_witness :
  (∀ pid', pid' ≠ "Foo.Bar" →
           Dict.get (downloads (world TaskExample.purged.2)) pid'
           = Dict.get (downloads (world TaskExample.session)) pid') ∧
  (∀ v, ¬ taken None v →
        lookup_entry "Foo.Bar" v (downloads (world TaskExample.purged.2))
        = lookup_entry "Foo.Bar" v (downloads (world TaskExample.session))) ∧
  only_removed (downloads (world TaskExample.session))
    (downloads (world TaskExample.purged.2)) ∧
  last_sync TaskExample.purged.2 = last_sync TaskExample.session.
Proof.
  apply (purge_keeps_the_other_entries TaskExample.tools TaskExample.project
           foo_bar None TaskExample.session TaskExample.purged.2 (Ok true)).
  apply pair_eq; [vm_compute; reflexivity|reflexivity].
Defined.

(** X24: whatever comes of it, [purge] leaves every path of the disk as it
    was that is neither [state.json] nor in the download directory or the
    directory of patched manifests of a recorded version that the call
    takes; and but for [state.json] it creates nothing. *)
Theorem purge_keeps_the_other_files (t : Tools) (proj : Project)
    (self : WingetPackage) (version : option string) (s s' : Session)
    (r : result bool) :
  purge t proj self version s = (r, s') →
  nothing_new_but (Fs.norm (path proj // "state.json"))
    (fs (world s)) (fs (world s')) ∧
  ∀ k, k ≠ Fs.norm (path proj // "state.json") →
       (∀ v e, lookup_entry (package_id self) v (downloads (world s)) = Some e →
               taken version v →
               ¬ Fs.norm (download_dir_of self v) `prefix_of` k ∧
               ¬ Fs.norm (patched_dir_of proj self v) `prefix_of` k) →
       fs (world s') !! k = fs (world s) !! k.
Proof.
  intros E.
  destruct (purge_post t proj self version s r s' E)
    as (_ & _ & _ & _ & _ & _ & f2 & [Hkept _] & Hfr & Hf' & _).
  split.
  - intros k n Hk.
    destruct (decide (k = Fs.norm (path proj // "state.json")));
      [by left|right].
    rewrite (purge_disk_after _ _ _ _ _ Hf') in Hk by done. by apply Hkept.
  - intros k Hk Hout. rewrite (purge_disk_after _ _ _ _ _ Hf' Hk).
    by apply Hfr.
Qed.

Lemma purge_keeps_the_other_files_witness :
  nothing_new_but (Fs.norm (path TaskExample.project // "state.json"))
    (fs (world TaskExample.session)) (fs (world TaskExample.purged.2)) ∧
  ∀ k, k ≠ Fs.norm (path TaskExample.project // "state.json") →
       (∀ v e, lookup_entry "Foo.Bar" v (downloads (world TaskExample.session))
               = Some e → taken None v →
               ¬ Fs.norm (download_dir_of foo_bar v) `prefix_of` k ∧
               ¬ Fs.norm (patched_dir_of TaskExample.project foo_bar v)
                   `prefix_of` k) →
       fs (world TaskExample.purged.2) !! k
       = fs (world TaskExample.session) !! k.
Proof.
  apply (purge_keeps_the_other_files TaskExample.tools TaskExample.project
           foo_bar None TaskExample.session TaskExample.purged.2 (Ok true)).
  apply pair_eq; [vm_compute; reflexivity|reflexivity].
Defined.

(** ** The [cleanup] task *)

Lemma nothing_new_but_refl k f : nothing_new_but k f f.
Proof. intros k' n Hk. by right. Qed.

Lemma nothing_new_but_trans k f0 f1 f2 :
  nothing_new_but k f0 f1 → nothing_new_but k f1 f2 → nothing_new_but k f0 f2.
Proof.
  intros H1 H2 k' n Hk. destruct (H2 k' n Hk) as [?|Hk1]; [by left|].
  by apply H1.
Qed.

Lemma purge_nothing_new t proj (self : WingetPackage) version
    (s s' : Session) r :
  purge t proj self version s = (r, s') →
  nothing_new_but (Fs.norm (path proj // "state.json"))
    (fs (world s)) (fs (world s')).
Proof.
  intros E.
  destruct (purge_post t proj self version s r s' E)
    as (_ & _ & _ & _ & _ & _ & f2 & [Hkept _] & _ & Hf' & _).
  intros k n Hk.
  destruct (decide (k = Fs.norm (path proj // "state.json")));
    [by left|right].
  rewrite (purge_disk_after _ _ _ _ _ Hf') in Hk by done. by apply Hkept.
Qed.

Lemma taken_self v : taken (Some v) v.
Proof. by intros _. Qed.

Lemma taken_nonempty v v' : v ≠ "" → taken (Some v) v' → v' = v.
Proof.
  intros Hne Ht. unfold taken in Ht. simpl in Ht.
  destruct v; [done|]. by specialize (Ht eq_refl) as [= ->].
Qed.

(** *** A dry run *)

Lemma purge_selected_dry t proj pkg (l : list (string * entry)) :
  ∀ n (s : Session),
  purge_selected t proj pkg true l n s
  = (Ok n, mkSession (world s) (last_sync s)
             (said s ++ map (λ i : string * entry,
                               Dry_run_would_clean (package_id pkg) i.1) l)).
Proof.
  induction l as [|[v e] l IH]; intros n s; simpl.
  - by rewrite app_nil_r, session_eta.
  - unfold mbind, T_bind, say. rewrite IH. simpl.
    by rewrite <- app_assoc.
Qed.

Lemma to_delete_no_unpinned now mv ma (versions : dict entry) :
  filter (λ i : string * entry, pinned i.2 = false) versions = [] →
  to_delete now mv ma versions = Ok [].
Proof. unfold to_delete. by intros ->. Qed.

Lemma cleanup_package_dry t proj now mv ma (item : string * package_info)
    n (s : Session) :
  postT (cleanup_package t proj true now mv ma item n) s (λ r s',
    world s' = world s ∧ last_sync s' = last_sync s ∧
    (∀ n', r = Ok n' →
           n' = n ∧ said s' = said s ++ announced now mv ma [item])).
Proof.
  unfold cleanup_package, announced. simpl. rewrite app_nil_r.
  destruct (Dict.is_empty (versions item.2)) eqn:Eemp.
  { apply postT_ret. apply is_empty_true in Eemp. rewrite Eemp.
    rewrite to_delete_no_unpinned by done. simpl. rewrite app_nil_r.
    split_and!; try done. by intros n' [= <-]. }
  destruct (filter _ (versions item.2)) as [|u us] eqn:Ef.
  { apply postT_ret. rewrite to_delete_no_unpinned by done. simpl.
    rewrite app_nil_r. split_and!; try done. by intros n' [= <-]. }
  apply postT_bind, postT_of_result.
  destruct (to_delete now mv ma (versions item.2)) as [l|err]; [|done].
  apply postT_bind, postT_of_result.
  destruct (get_package (base proj) item.1) as [pkg|err] eqn:Epkg; [|done].
  apply get_package_inv in Epkg as (_ & Hpid & _).
  intros r s' Hrun. rewrite purge_selected_dry in Hrun.
  injection Hrun as <- <-. simpl. rewrite Hpid.
  split_and!; try done. by intros n' [= <-].
Qed.

Lemma announced_cons now mv ma item (items : dict package_info) :
  announced now mv ma (item :: items)
  = announced now mv ma [item] ++ announced now mv ma items.
Proof. unfold announced. simpl. by rewrite app_nil_r. Qed.

Lemma cleanup_packages_dry t proj now mv ma
    (items : list (string * package_info)) :
  ∀ n (s : Session),
  postT (cleanup_packages t proj true now mv ma items n) s (λ r s',
    world s' = world s ∧ last_sync s' = last_sync s ∧
    (∀ n', r = Ok n' →
           n' = n ∧ said s' = said s ++ announced now mv ma items)).
Proof.
  induction items as [|item items IH]; intros n s; simpl.
  - apply postT_ret. split_and!; try done. intros n' [= <-].
    by rewrite app_nil_r.
  - apply postT_bind. eapply postT_weaken; [apply cleanup_package_dry|].
    intros [n1|err] s1 (Hw & Hls & Hsaid); [|done].
    destruct (Hsaid n1 eq_refl) as [-> Hs1].
    eapply postT_weaken; [apply IH|].
    intros r s' (Hw' & Hls' & Hsaid'). split_and!; try congruence.
    intros n' Hr. destruct (Hsaid' n' Hr) as [-> Hs']. split; [done|].
    rewrite Hs', Hs1, <- app_assoc. unfold announced. simpl.
    by rewrite app_nil_r.
Qed.

(** X25: a dry run of [cleanup] changes neither the disk nor the state: it
    reads the clock and prints.  When it returns it has announced, package
    by package in the order of the state, exactly the versions that
    [cleanup] selects, and then that the dry run is complete. *)
Theorem cleanup_dry_run_changes_nothing (t : Tools) (proj : Project)
    (s s' : Session) (r : result ()) :
  cleanup t proj true s = (r, s') →
  fs (world s') = fs (world s) ∧
  downloads (world s') = downloads (world s) ∧
  last_sync s' = last_sync s ∧
  (is_ok r = true →
   said s' = said s
             ++ announced (time_of t s) (max_versions_of proj)
                  (max_age_months_of proj) (downloads (world s))
             ++ [Dry_run_complete]).
Proof.
  unfold cleanup.
  fold (max_versions_of proj). fold (max_age_months_of proj).
  revert r s'. apply postT_bind, postT_now, postT_bind, postT_get_downloads.
  cbn [world last_sync said fs downloads ticks out].
  apply postT_bind. eapply postT_weaken; [apply cleanup_packages_dry|].
  intros [n|err] s1 (Hw & Hls & Hsaid); simpl in Hw, Hls.
  - destruct (Hsaid n eq_refl) as [_ Hs1]. simpl in Hs1.
    apply postT_say. simpl. rewrite Hw. simpl. split_and!; try done.
    intros _. by rewrite Hs1, <- app_assoc.
  - rewrite Hw. simpl. done.
Qed.

Lemma cleanup_dry_run_changes_nothing_witness :
  fs (world TaskExample.dry.2) = fs (world TaskExample.stocked) ∧
  downloads (world TaskExample.dry.2) = downloads (world TaskExample.stocked) ∧
  last_sync TaskExample.dry.2 = last_sync TaskExample.stocked ∧
  (is_ok (Ok ()) = true →
   said TaskExample.dry.2
   = said TaskExample.stocked
     ++ announced (time_of TaskExample.tools TaskExample.stocked)
          (max_versions_of TaskExample.project)
          (max_age_months_of TaskExample.project)
          (downloads (world TaskExample.stocked))
     ++ [Dry_run_complete]).
Proof.
  apply (cleanup_dry_run_changes_nothing TaskExample.tools TaskExample.project
           TaskExample.stocked TaskExample.dry.2 (Ok ())).
  apply pair_eq; [vm_compute; reflexivity|reflexivity].
Defined.

(** *** A run that cleans *)

Lemma purge_selected_post t proj (pkg : WingetPackage)
    (l : list (string * entry)) :
  ∀ n (s : Session),
  postT (purge_selected t proj pkg false l n) s (λ r s',
    last_sync s' = last_sync s ∧ ticks (world s') = ticks (world s) ∧
    out (world s') = out (world s) ∧
    nothing_new_but (Fs.norm (path proj // "state.json"))
      (fs (world s)) (fs (world s')) ∧
    (∀ pid', pid' ≠ package_id pkg →
             Dict.get (downloads (world s')) pid'
             = Dict.get (downloads (world s)) pid') ∧
    purged_from (package_id pkg)
      (λ v', ∃ v, v ∈ l.*1 ∧ taken (Some v) v')
      (downloads (world s)) (downloads (world s')) ∧
    (is_ok r = true →
     ∀ v, v ∈ l.*1 →
          lookup_entry (package_id pkg) v (downloads (world s')) = None)).
Proof.
  induction l as [|[v e] l IH]; intros n s; simpl.
  - apply postT_ret. split_and!; try done.
    + apply nothing_new_but_refl.
    + apply purged_from_refl.
    + intros _ v Hv. by apply elem_of_nil in Hv.
  - apply postT_bind. intros r1 s1 E1.
    pose proof (purge_nothing_new _ _ _ _ _ _ _ E1) as Hnew1.
    destruct (purge_post t proj pkg (Some v) s r1 s1 E1)
      as (Hls1 & Ht1 & Ho1 & Hget1 & Hpf1 & _ & f2 & _ & _ & _ & Hr1).
    assert (purged_from (package_id pkg)
              (λ v', ∃ v0, v0 ∈ v :: l.*1 ∧ taken (Some v0) v')
              (downloads (world s)) (downloads (world s1))) as Hpf1'.
    { eapply purged_from_mono; [|done]. intros v' Hv'. exists v.
      split; [|done]. apply elem_of_cons. by left. }
    destruct r1 as [b|err]; [|done].
    destruct Hr1 as (Hgone1 & _).
    eapply postT_weaken; [apply IH|].
    intros r s' (Hls & Ht & Ho & Hnew & Hget & Hpf & Hgone).
    assert (purged_from (package_id pkg)
              (λ v', ∃ v0, v0 ∈ v :: l.*1 ∧ taken (Some v0) v')
              (downloads (world s1)) (downloads (world s'))) as Hpf'.
    { eapply purged_from_mono; [|done]. intros v' (v0 & Hv0 & Ht0).
      exists v0. split; [|done]. apply elem_of_cons. by right. }
    split_and!; try congruence.
    + by eapply nothing_new_but_trans.
    + intros pid' Hne. rewrite Hget by done. by apply Hget1.
    + by eapply purged_from_trans.
    + intros Hok v' [->|Hv']%elem_of_cons; [|by apply Hgone].
      eapply only_removed_None; [by eapply purged_from_only_removed|].
      apply Hgone1, taken_self.
Qed.

Lemma selected_single now mv ma (item : string * package_info) pid v :
  selected now mv ma [item] pid v ↔
  pid = item.1 ∧
  ∃ l e, to_delete now mv ma (versions item.2) = Ok l ∧ (v, e) ∈ l.
Proof.
  unfold selected. split.
  - intros (info & l & e & Hin%list_elem_of_singleton & Hl & He).
    destruct item as [pid0 info0]. injection Hin as -> ->. eauto.
  - intros (-> & l & e & Hl & He). exists item.2, l, e.
    split; [|done]. apply list_elem_of_singleton. by destruct item.
Qed.

Lemma cleanup_package_post t proj now mv ma (item : string * package_info)
    n (s : Session) :
  postT (cleanup_package t proj false now mv ma item n) s (λ r s',
    last_sync s' = last_sync s ∧ ticks (world s') = ticks (world s) ∧
    out (world s') = out (world s) ∧
    nothing_new_but (Fs.norm (path proj // "state.json"))
      (fs (world s)) (fs (world s')) ∧
    (∀ pid', pid' ≠ item.1 →
             Dict.get (downloads (world s')) pid'
             = Dict.get (downloads (world s)) pid') ∧
    purged_from item.1 (swept now mv ma [item] item.1)
      (downloads (world s)) (downloads (world s')) ∧
    (is_ok r = true →
     ∀ v, selected now mv ma [item] item.1 v →
          lookup_entry item.1 v (downloads (world s')) = None)).
Proof.
  unfold cleanup_package.
  destruct (Dict.is_empty (versions item.2)) eqn:Eemp.
  { apply postT_ret. apply is_empty_true in Eemp.
    split_and!; try done.
    - apply nothing_new_but_refl.
    - apply purged_from_refl.
    - intros _ v (_ & l & e & Hl & He)%selected_single.
      rewrite Eemp, to_delete_no_unpinned in Hl by done.
      injection Hl as <-. by apply elem_of_nil in He. }
  destruct (filter _ (versions item.2)) as [|u us] eqn:Ef.
  { apply postT_ret. split_and!; try done.
    - apply nothing_new_but_refl.
    - apply purged_from_refl.
    - intros _ v (_ & l & e & Hl & He)%selected_single.
      rewrite to_delete_no_unpinned in Hl by done.
      injection Hl as <-. by apply elem_of_nil in He. }
  apply postT_bind, postT_of_result.
  destruct (to_delete now mv ma (versions item.2)) as [l|err] eqn:El.
  2: { split_and!; try done; [apply nothing_new_but_refl|].
       apply purged_from_refl. }
  apply postT_bind, postT_of_result.
  destruct (get_package (base proj) item.1) as [pkg|err] eqn:Epkg.
  2: { split_and!; try done; [apply nothing_new_but_refl|].
       apply purged_from_refl. }
  apply get_package_inv in Epkg as (_ & Hpid & _).
  eapply postT_weaken; [apply purge_selected_post|].
  rewrite Hpid.
  intros r s' (Hls & Ht & Ho & Hnew & Hget & Hpf & Hgone).
  split_and!; try done.
  - eapply purged_from_mono; [|done]. intros v' (v & Hv & Htk).
    exists v. split; [|done]. apply selected_single. split; [done|].
    apply list_elem_of_fmap in Hv as ([v0 e] & -> & Hin). by exists l, e.
  - intros Hok v (_ & l' & e & Hl & He)%selected_single.
    apply Hgone; [done|]. rewrite El in Hl. injection Hl as <-.
    apply list_elem_of_fmap. by exists (v, e).
Qed.

Lemma selected_cons now mv ma item (items : dict package_info) pid v :
  selected now mv ma (item :: items) pid v ↔
  selected now mv ma [item] pid v ∨ selected now mv ma items pid v.
Proof.
  unfold selected. split.
  - intros (info & l & e & [Heq|Hin]%elem_of_cons & Hl & He).
    + left. exists info, l, e. split; [|done]. subst item.
      apply list_elem_of_here.
    + right. by exists info, l, e.
  - intros [(info & l & e & Hin%list_elem_of_singleton & Hl & He)
           |(info & l & e & Hin & Hl & He)];
      exists info, l, e; (split; [|done]); apply elem_of_cons; auto.
Qed.

Lemma swept_cons now mv ma item (items : dict package_info) pid v :
  swept now mv ma [item] pid v ∨ swept now mv ma items pid v →
  swept now mv ma (item :: items) pid v.
Proof.
  intros [(v0 & Hs & Ht)|(v0 & Hs & Ht)]; exists v0; (split; [|done]);
    apply selected_cons; auto.
Qed.

Lemma cleanup_packages_post t proj now mv ma
    (items : list (string * package_info)) :
  ∀ n (s : Session),
  postT (cleanup_packages t proj false now mv ma items n) s (λ r s',
    last_sync s' = last_sync s ∧ ticks (world s') = ticks (world s) ∧
    out (world s') = out (world s) ∧
    nothing_new_but (Fs.norm (path proj // "state.json"))
      (fs (world s)) (fs (world s')) ∧
    (∀ pid v,
       lookup_entry pid v (downloads (world s'))
       = lookup_entry pid v (downloads (world s)) ∨
       lookup_entry pid v (downloads (world s')) = None ∧
       swept now mv ma items pid v) ∧
    (is_ok r = true →
     ∀ pid v, selected now mv ma items pid v →
              lookup_entry pid v (downloads (world s')) = None)).
Proof.
  induction items as [|item items IH]; intros n s;
    cbn [cleanup_packages].
  - apply postT_ret. split_and!; try done.
    + apply nothing_new_but_refl.
    + intros pid v. by left.
    + intros _ pid v (info & l & e & Hin & _). by apply elem_of_nil in Hin.
  - apply postT_bind. eapply postT_weaken; [apply cleanup_package_post|].
    intros r1 s1 (Hls1 & Ht1 & Ho1 & Hnew1 & Hget1 & Hpf1 & Hgone1).
    assert (∀ pid v,
              lookup_entry pid v (downloads (world s1))
              = lookup_entry pid v (downloads (world s)) ∨
              lookup_entry pid v (downloads (world s1)) = None ∧
              swept now mv ma (item :: items) pid v) as Hclean1.
    { intros pid v. destruct (decide (pid = item.1)) as [->|Hne].
      - destruct (Hpf1 item.1 v) as [?|(_ & Hsw & Hn)]; [by left|right].
        split; [done|]. apply swept_cons. by left.
      - left. apply lookup_entry_other_package. by apply Hget1. }
    destruct r1 as [n1|err]; [|done].
    eapply postT_weaken; [apply IH|].
    intros r s' (Hls & Ht & Ho & Hnew & Hclean & Hgone).
    split_and!; try congruence.
    + by eapply nothing_new_but_trans.
    + intros pid v. destruct (Hclean pid v) as [->|[Hn Hsw]]; [done|].
      right. split; [done|]. apply swept_cons. by right.
    + intros Hok pid v [Hsel|Hsel]%selected_cons; [|by apply Hgone].
      pose proof Hsel as [-> _]%selected_single.
      destruct (Hclean item.1 v) as [->|[? _]]; [|done].
      by apply Hgone1.
Qed.

Lemma cleanup_post t proj (s s' : Session) (r : result ()) :
  cleanup t proj false s = (r, s') →
  last_sync s' = last_sync s ∧
  nothing_new_but (Fs.norm (path proj // "state.json"))
    (fs (world s)) (fs (world s')) ∧
  (∀ pid v,
     lookup_entry pid v (downloads (world s'))
     = lookup_entry pid v (downloads (world s)) ∨
     lookup_entry pid v (downloads (world s')) = None ∧
     swept (time_of t s) (max_versions_of proj) (max_age_months_of proj)
       (downloads (world s)) pid v) ∧
  (is_ok r = true →
   ∀ pid v, selected (time_of t s) (max_versions_of proj)
              (max_age_months_of proj) (downloads (world s)) pid v →
            lookup_entry pid v (downloads (world s')) = None).
Proof.
  unfold cleanup.
  fold (max_versions_of proj). fold (max_age_months_of proj).
  revert r s'. apply postT_bind, postT_now, postT_bind, postT_get_downloads.
  cbn [world last_sync said fs downloads ticks out].
  apply postT_bind. eapply postT_weaken; [apply cleanup_packages_post|].
  cbn [world last_sync said fs downloads ticks out].
  intros [n|err] s1 (Hls & Ht & Ho & Hnew & Hclean & Hgone).
  - apply postT_say. cbn [world last_sync said fs downloads ticks out].
    split_and!; try done; intros _; by apply Hgone.
  - done.
Qed.

Lemma selected_recorded now mv ma (d : dict package_info) pid v :
  selected now mv ma d pid v →
  ∃ info e, (pid, info) ∈ d ∧ (v, e) ∈ versions info ∧ pinned e = false.
Proof.
  intros (info & l & e & Hin & Hl & He). exists info, e.
  by destruct (to_delete_unpinned _ _ _ _ _ _ Hl He).
Qed.

Lemma swept_selected now mv ma (d : dict package_info) pid v :
  no_empty_label d → swept now mv ma d pid v → selected now mv ma d pid v.
Proof.
  intros Hlabel (v0 & Hsel & Htk).
  destruct (selected_recorded _ _ _ _ _ _ Hsel) as (info & e & Hin & He & _).
  assert (v0 ≠ "") as Hne.
  { intros ->. apply (Hlabel _ _ Hin). apply list_elem_of_fmap.
    by exists ("", e). }
  by rewrite (taken_nonempty _ _ Hne Htk).
Qed.

Lemma stocked_downloads :
  downloads (world TaskExample.stocked)
  = [("Foo.Bar", TaskExample.stocked_info)].
Proof. vm_compute. reflexivity. Qed.

Lemma stocked_selected :
  selected (time_of TaskExample.tools TaskExample.stocked)
    (max_versions_of TaskExample.project)
    (max_age_months_of TaskExample.project)
    (downloads (world TaskExample.stocked)) "Foo.Bar" "1.0".
Proof.
  exists TaskExample.stocked_info, [("1.0", TaskExample.old_entry)],
    TaskExample.old_entry.
  split_and!.
  - rewrite stocked_downloads. apply list_elem_of_here.
  - vm_compute. reflexivity.
  - apply list_elem_of_here.
Qed.

Lemma stocked_no_empty_label :
  no_empty_label (downloads (world TaskExample.stocked)).
Proof.
  rewrite stocked_downloads.
  intros pid info [= _ ->]%list_elem_of_singleton.
  apply (bool_decide_unpack _). vm_compute. exact I.
Qed.

Lemma stocked_distinct :
  NoDup (Dict.keys (downloads (world TaskExample.stocked))) ∧
  ∀ pid, distinct_labels pid (downloads (world TaskExample.stocked)).
Proof.
  rewrite stocked_downloads. split.
  - apply (bool_decide_unpack _). vm_compute. exact I.
  - intros pid info Hget%get_elem_of.
    apply list_elem_of_singleton in Hget as [= _ ->].
    apply (bool_decide_unpack _). vm_compute. exact I.
Qed.

(** X26: when a run of [cleanup] that is no dry run returns, the state has no
    entry left for any version that [cleanup] selects in the state it
    started with. *)
Theorem cleanup_removes_what_it_selects (t : Tools) (proj : Project)
    (s s' : Session) :
  cleanup t proj false s = (Ok (), s') →
  ∀ pid v, selected (time_of t s) (max_versions_of proj)
             (max_age_months_of proj) (downloads (world s)) pid v →
           lookup_entry pid v (downloads (world s')) = None.
Proof.
  intros E.
  destruct (cleanup_post _ _ _ _ _ E) as (_ & _ & _ & Hgone). by apply Hgone.
Qed.

Lemma cleanup_removes_what_it_selects_witness :
  lookup_entry "Foo.Bar" "1.0" (downloads (world TaskExample.cleaned.2))
  = None.
Proof.
  apply (cleanup_removes_what_it_selects TaskExample.tools TaskExample.project
           TaskExample.stocked TaskExample.cleaned.2).
  - apply pair_eq; [vm_compute; reflexivity|reflexivity].
  - apply stocked_selected.
Defined.

(** X27: whatever comes of it, a run of [cleanup] on a state without an empty
    version label changes the state only by removing entries of versions
    that it selects; it leaves [last_sync] as it is and creates nothing on
    the disk but [state.json]. *)
Theorem cleanup_removes_selected_versions_only (t : Tools) (proj : Project)
    (s s' : Session) (r : result ()) :
  no_empty_label (downloads (world s)) →
  cleanup t proj false s = (r, s') →
  (∀ pid v,
     lookup_entry pid v (downloads (world s'))
     = lookup_entry pid v (downloads (world s)) ∨
     lookup_entry pid v (downloads (world s')) = None ∧
     selected (time_of t s) (max_versions_of proj) (max_age_months_of proj)
       (downloads (world s)) pid v) ∧
  last_sync s' = last_sync s ∧
  nothing_new_but (Fs.norm (path proj // "state.json"))
    (fs (world s)) (fs (world s')).
Proof.
  intros Hlabel E.
  destruct (cleanup_post _ _ _ _ _ E) as (Hls & Hnew & Hclean & _).
  split_and!; try done.
  intros pid v. destruct (Hclean pid v) as [?|[Hn Hsw]]; [by left|right].
  split; [done|]. by apply swept_selected.
Qed.

Lemma cleanup_removes_selected_versions_only_witness :
  (∀ pid v,
     lookup_entry pid v (downloads (world TaskExample.cleaned.2))
     = lookup_entry pid v (downloads (world TaskExample.stocked)) ∨
     lookup_entry pid v (downloads (world TaskExample.cleaned.2)) = None ∧
     selected (time_of TaskExample.tools TaskExample.stocked)
       (max_versions_of TaskExample.project)
       (max_age_months_of TaskExample.project)
       (downloads (world TaskExample.stocked)) pid v) ∧
  last_sync TaskExample.cleaned.2 = last_sync TaskExample.stocked ∧
  nothing_new_but (Fs.norm (path TaskExample.project // "state.json"))
    (fs (world TaskExample.stocked)) (fs (world TaskExample.cleaned.2)).
Proof.
  apply (cleanup_removes_selected_versions_only TaskExample.tools
           TaskExample.project TaskExample.stocked TaskExample.cleaned.2
           (Ok ())).
  - apply stocked_no_empty_label.
  - apply pair_eq; [vm_compute; reflexivity|reflexivity].
Defined.

(** X28: whatever comes of it, a run of [cleanup] keeps every pinned version:
    on a state in which package identifiers and version labels are
    distinct, as in a [dict], and no label is empty, an entry with
    [pinned] set is in the state afterwards as it was before. *)
Theorem cleanup_keeps_pinned_versions (t : Tools) (proj : Project)
    (s s' : Session) (r : result ()) :
  NoDup (Dict.keys (downloads (world s))) →
  (∀ pid, distinct_labels pid (downloads (world s))) →
  no_empty_label (downloads (world s)) →
  cleanup t proj false s = (r, s') →
  ∀ pid v e, lookup_entry pid v (downloads (world s)) = Some e →
             pinned e = true →
             lookup_entry pid v (downloads (world s')) = Some e.
Proof.
  intros Hpids Hlabels Hlabel E pid v e He Hp.
  destruct (cleanup_post _ _ _ _ _ E) as (_ & _ & Hclean & _).
  destruct (Hclean pid v) as [->|[_ Hsw]]; [done|]. exfalso.
  apply swept_selected in Hsw; [|done].
  destruct (selected_recorded _ _ _ _ _ _ Hsw) as (info & e' & Hin & He' & Hp').
  apply (elem_of_get _ _ _ Hpids) in Hin.
  apply (elem_of_get _ _ _ (Hlabels pid info Hin)) in He'.
  unfold lookup_entry in He. rewrite Hin, He' in He. congruence.
Qed.

Lemma cleanup_keeps_pinned_versions_witness :
  lookup_entry "Foo.Bar" "1.2.3" (downloads (world TaskExample.cleaned.2))
  = Some TaskExample.pinned_entry.
Proof.
  apply (cleanup_keeps_pinned_versions TaskExample.tools TaskExample.project
           TaskExample.stocked TaskExample.cleaned.2 (Ok ())).
  - apply stocked_distinct.
  - apply stocked_distinct.
  - apply stocked_no_empty_label.
  - apply pair_eq; [vm_compute; reflexivity|reflexivity].
  - vm_compute. reflexivity.
  - reflexivity.
Defined.

(** ** [get_matching_publishers] *)

Lemma iterdir_names_NoDup (f : gmap (list string) Fs.node) (d : Fs.path)
    entries :
  Fs.iterdir f d = Ok entries → NoDup entries.*1.
Proof.
  unfold Fs.iterdir. destruct (Fs.stat f d) as [[?|]|]; try done.
  intros [= <-].
  pose proof (NoDup_fst_map_to_list f) as Hnd.
  induction (map_to_list f) as [|[k n] l IH]; simpl; [constructor|].
  apply NoDup_cons in Hnd as [Hk Hnd].
  destruct (Fs.child_of (Fs.norm d) (k, n)) as [[c n']|] eqn:E; simpl;
    [|by apply IH].
  apply child_of_inv in E as [-> ->].
  constructor; [|by apply IH].
  intros ([c1 n1] & Hc & ([k2 n2] & Hin & Hch)%list_elem_of_omap)%list_elem_of_fmap.
  simpl in Hc. subst c1. apply child_of_inv in Hch as [-> ->].
  apply Hk. apply list_elem_of_fmap. by exists (Fs.norm d ++ [c], n2).
Qed.

Lemma lower_char_idemp c : Py.lower_char (Py.lower_char c) = Py.lower_char c.
Proof.
  destruct c as [[] [] [] [] [] [] [] []]; vm_compute; reflexivity.
Qed.

Lemma lower_idemp s : Py.lower (Py.lower s) = Py.lower s.
Proof.
  induction s as [|c s IH]; simpl; [done|]. by rewrite lower_char_idemp, IH.
Qed.

Lemma lower_first s :
  Py.lower (String.substring 0 1 s) = String.substring 0 1 (Py.lower s).
Proof. destruct s as [|c [|c' s]]; done. Qed.

Lemma truthy_lower s : Py.truthy (Py.lower s) = Py.truthy s.
Proof. by destruct s. Qed.

Lemma prefix_first (p name : string) :
  p ≠ "" → String.prefix p name = true →
  String.substring 0 1 name = String.substring 0 1 p.
Proof.
  destruct p as [|a p]; [done|]. intros _.
  destruct name as [|b name]; simpl; [done|].
  destruct (ascii_dec a b) as [->|]; [|done].
  by destruct name, p.
Qed.

Lemma matching_names (publisher : string) (entries : list (string * Fs.node))
    (name : string) :
  name ∈ omap (λ e : string * Fs.node,
                 match e.2 with
                 | Fs.Dir =>
                     if String.prefix (Py.lower publisher) (Py.lower e.1)
                     then Some e.1 else None
                 | _ => None
                 end) entries
  ↔ (name, Fs.Dir) ∈ entries ∧
    String.prefix (Py.lower publisher) (Py.lower name) = true.
Proof.
  rewrite list_elem_of_omap. split.
  - intros ([c [data|]] & Hin & Hm); simpl in Hm; [done|].
    destruct (String.prefix _ _) eqn:E; [|done]. by injection Hm as <-.
  - intros [Hin Hp]. exists (name, Fs.Dir). simpl. by rewrite Hp.
Qed.

Lemma matching_NoDup (publisher : string) (entries : list (string * Fs.node)) :
  NoDup entries.*1 →
  NoDup (omap (λ e : string * Fs.node,
                 match e.2 with
                 | Fs.Dir =>
                     if String.prefix (Py.lower publisher) (Py.lower e.1)
                     then Some e.1 else None
                 | _ => None
                 end) entries).
Proof.
  induction entries as [|[c n] l IH]; simpl; [constructor|].
  intros [Hc Hnd]%NoDup_cons. destruct n as [data|]; simpl; [by apply IH|].
  destruct (String.prefix _ _); [|by apply IH].
  constructor; [|by apply IH].
  intros [Hin _]%matching_names. apply Hc. apply list_elem_of_fmap.
  by exists (c, Fs.Dir).
Qed.



